(** * ProAct.js: observables, streams and the object core

    A shallow embedding of
      - src/js/objects/observable.js   (ProAct.Observable)
      - src/js/streams/stream.js       (ProAct.Stream)
      - src/js/cores/object_core.js    (ProAct.ObjectCore)
      - src/js/objects/prob.js         (ProAct.prob)
    and the properties proved about them.

    JavaScript objects with identity live in a heap indexed by [nat];
    mutation is explicit state passing in a small state-and-exception
    monad whose state survives a [throw], as it does in JavaScript.  The
    calls that JavaScript leaves unbounded (a property round inside a round,
    a callback that triggers a stream while the queue is drained) take
    fuel.

    Left out: [reduce] (it needs [Pro.Val]), the [map], [filter] and
    [accumulate] of the base prototype (they are [Pro.N]), and the
    [return this] of the chainable methods. *)

From Stdlib Require Import ZArith String List Bool Lia.
From stdpp Require Import base decidable option list strings.

(* ===================================================================== *)
(** * Computations                                                        *)
(* ===================================================================== *)

(** A call returns a result, throws, or does not come back within the fuel
    it was given.  The state is threaded through all three: what a function
    did before it threw stays done. *)
Inductive outcome (E A : Type) : Type :=
| Ret (a : A)
| Throw (e : E)
| OutOfFuel.
Arguments Ret {E A} a.
Arguments Throw {E A} e.
Arguments OutOfFuel {E A}.

Definition JS (S E A : Type) : Type := S -> outcome E A * S.

Definition ret {S E A} (a : A) : JS S E A := fun st => (Ret a, st).
Definition throw {S E A} (e : E) : JS S E A := fun st => (Throw e, st).
Definition out_of_fuel {S E A} : JS S E A := fun st => (OutOfFuel, st).

Definition bind {S E A B} (m : JS S E A) (k : A -> JS S E B) : JS S E B :=
  fun st =>
    match m st with
    | (Ret a, st') => k a st'
    | (Throw e, st') => (Throw e, st')
    | (OutOfFuel, st') => (OutOfFuel, st')
    end.

(** [try { m } catch (e) { h(e) }] *)
Definition try_catch {S E A} (m : JS S E A) (h : E -> JS S E A) : JS S E A :=
  fun st =>
    match m st with
    | (Throw e, st') => h e st'
    | r => r
    end.

Definition gets {S E A} (f : S -> A) : JS S E A := fun st => (Ret (f st), st).
Definition modify {S E} (f : S -> S) : JS S E unit := fun st => (Ret tt, f st).

Declare Scope js_scope.
Delimit Scope js_scope with js.
Notation "'let*' x ':=' m 'in' k" := (bind m (fun x => k))
  (at level 10, x name, m at level 100, k at level 200, only parsing) : js_scope.
Notation "m >> k" := (bind m (fun _ => k))
  (at level 100, k at level 200, right associativity, only parsing) : js_scope.
Open Scope js_scope.

(** [for (x of l) { body(x) }] *)
Fixpoint for_each {S E A} (l : list A) (body : A -> JS S E unit) : JS S E unit :=
  match l with
  | [] => ret tt
  | x :: l' => body x >> for_each l' body
  end.

(* ===================================================================== *)
(** * Observables, streams and the flow                                   *)
(* ===================================================================== *)

Module Reactive.

(** ** Data *)

(** Identity of an observable: its index in the heap. *)
Definition obs_id := nat.

(** The values and events that travel through the graph.  [BadValue] is
    the sentinel object [ProAct.Observable.BadValue]; [VEvent] is an
    envelope built by [new Pro.Event(source, this, Pro.Event.Types.value)],
    [id] standing for the identity of the fresh object. *)
Inductive value : Type :=
| VUndefined
| VNull
| VBool (b : bool)
| VNum (n : Z)
| VStr (s : string)
| VError (msg : string)
| BadValue
| VEvent (id : nat) (source : value) (target : obs_id).

(** JavaScript truthiness, as tested by [if (f.call(_this, val))]. *)
Definition truthy (v : value) : bool :=
  match v with
  | VUndefined | VNull => false
  | VBool b => b
  | VNum n => negb (n =? 0)%Z
  | VStr s => negb (String.eqb s "")
  | VError _ | BadValue | VEvent _ _ _ => true
  end.

(** What a listener list can hold.  [on] pushes whatever it is given, so
    [null] (what the base [makeListener] returns) and [undefined] occur.
    [StreamListener s] is the closure
      [function (event) { stream.trigger(event, true); }]
    of stream [s], [StreamErrListener s] the closure
      [function (error) { stream.triggerErr(error); }].
    [Callback id is_function property] is a callable supplied from outside:
    a function or an object with a [call] method, possibly carrying a
    [property] tag that points to an observable. *)
Inductive callback : Type :=
| Undefined
| Null
| StreamListener (s : obs_id)
| StreamErrListener (s : obs_id)
| Callback (id : nat) (is_function : bool) (property : option obs_id).

#[global] Instance callback_eq_dec : EqDecision callback.
Proof. solve_decision. Defined.

(** [!callback] *)
Definition cb_falsy (c : callback) : bool :=
  match c with Undefined | Null => true | _ => false end.

(** [Pro.U.isFunction(callback)]: the closures of the streams are
    functions, an outside callable says which of the two it is. *)
Definition isFunction (c : callback) : bool :=
  match c with
  | StreamListener _ | StreamErrListener _ => true
  | Callback _ f _ => f
  | Undefined | Null => false
  end.

(** A user function applied to a value returns or throws. *)
Inductive tres : Type :=
| Returns (v : value)
| Throws (e : value).

(** The entries of [transforms].  [Fn f] is a function given to
    [transform] or [mapping]; [Filtering f] is the wrapper closure that
    [filtering(f)] builds; [Accumulation cell f] is the wrapper closure
    that [accumulation(initVal, f)] builds, [cell] being the location of
    its captured variable [val]. *)
Inductive transformation : Type :=
| Fn (f : value -> tres)
| Filtering (f : value -> tres)
| Accumulation (cell : nat) (f : value -> value -> tres).

(** The two constructors of the file: [ProAct.Observable] and
    [ProAct.Stream], whose prototype extends the former. *)
Inductive kind : Type := ObservableKind | StreamKind.

Record Observable : Type := mkObservable {
  okind : kind;
  listeners : list callback;
  errListeners : list callback;
  sources : list obs_id;
  listener : callback;
  errListener : callback;
  transforms : list transformation;
  parent : callback
}.

(** [ProAct.Observable = function (transforms) { ... }] *)
Definition Observable_init (k : kind) (ts : list transformation) : Observable :=
  {| okind := k; listeners := []; errListeners := []; sources := [];
     listener := Null; errListener := Null; transforms := ts; parent := Null |}.

#[global] Instance Observable_inhabited : Inhabited Observable :=
  populate (Observable_init ObservableKind []).
#[global] Instance value_inhabited : Inhabited value := populate VUndefined.

(** The first argument of [on] and [off]: an action name or the callback
    itself. *)
Inductive arg : Type :=
| Str (s : string)
| Cb (c : callback).

(** [Pro.U.isString(action)] *)
Definition isString (a : arg) : bool :=
  match a with Str _ => true | Cb _ => false end.

(** [!action] *)
Definition arg_falsy (a : arg) : bool :=
  match a with
  | Str s => String.eqb s ""
  | Cb c => cb_falsy c
  end.

(** The arrays that the code passes around as [callbacks]: the listener
    arrays of the observables. *)
Inductive arrayref : Type :=
| ListenersOf (n : obs_id)
| ErrListenersOf (n : obs_id).

(** What the body of an external callback does when it is invoked. *)
Inductive command : Type :=
| CallOn (n : obs_id) (c : callback)
| CallOnErr (n : obs_id) (c : callback)
| CallTrigger (n : obs_id) (v : value).

(** Ghost record of the calls of [makeEvent] and [defer]. *)
Inductive call : Type :=
| MakeEvent (n : obs_id) (source : value) (event : value)
| Defer (n : obs_id) (event : value) (c : callback).

(** The machine state. *)
Record State : Type := mkState {
  heap : list Observable;
  cells : list value;
  flow_running : bool;
  flow_queue : list (callback * value);
  code : nat -> list command;
  log : list (nat * value);
  events : nat;
  trace : list call
}.

Definition set_heap (h : list Observable) (st : State) : State :=
  {| heap := h; cells := cells st; flow_running := flow_running st;
     flow_queue := flow_queue st; code := code st; log := log st;
     events := events st; trace := trace st |}.
Definition set_cells (c : list value) (st : State) : State :=
  {| heap := heap st; cells := c; flow_running := flow_running st;
     flow_queue := flow_queue st; code := code st; log := log st;
     events := events st; trace := trace st |}.
Definition set_running (b : bool) (st : State) : State :=
  {| heap := heap st; cells := cells st; flow_running := b;
     flow_queue := flow_queue st; code := code st; log := log st;
     events := events st; trace := trace st |}.
Definition set_queue (q : list (callback * value)) (st : State) : State :=
  {| heap := heap st; cells := cells st; flow_running := flow_running st;
     flow_queue := q; code := code st; log := log st;
     events := events st; trace := trace st |}.
Definition set_log (l : list (nat * value)) (st : State) : State :=
  {| heap := heap st; cells := cells st; flow_running := flow_running st;
     flow_queue := flow_queue st; code := code st; log := l;
     events := events st; trace := trace st |}.
Definition set_events (e : nat) (st : State) : State :=
  {| heap := heap st; cells := cells st; flow_running := flow_running st;
     flow_queue := flow_queue st; code := code st; log := log st;
     events := e; trace := trace st |}.
Definition set_trace (t : list call) (st : State) : State :=
  {| heap := heap st; cells := cells st; flow_running := flow_running st;
     flow_queue := flow_queue st; code := code st; log := log st;
     events := events st; trace := t |}.

Definition set_listeners (l : list callback) (o : Observable) : Observable :=
  {| okind := okind o; listeners := l; errListeners := errListeners o;
     sources := sources o; listener := listener o;
     errListener := errListener o; transforms := transforms o;
     parent := parent o |}.
Definition set_errListeners (l : list callback) (o : Observable) : Observable :=
  {| okind := okind o; listeners := listeners o; errListeners := l;
     sources := sources o; listener := listener o;
     errListener := errListener o; transforms := transforms o;
     parent := parent o |}.
Definition set_sources (l : list obs_id) (o : Observable) : Observable :=
  {| okind := okind o; listeners := listeners o;
     errListeners := errListeners o; sources := l; listener := listener o;
     errListener := errListener o; transforms := transforms o;
     parent := parent o |}.
Definition set_listener (c : callback) (o : Observable) : Observable :=
  {| okind := okind o; listeners := listeners o;
     errListeners := errListeners o; sources := sources o; listener := c;
     errListener := errListener o; transforms := transforms o;
     parent := parent o |}.
Definition set_errListener (c : callback) (o : Observable) : Observable :=
  {| okind := okind o; listeners := listeners o;
     errListeners := errListeners o; sources := sources o;
     listener := listener o; errListener := c; transforms := transforms o;
     parent := parent o |}.
Definition set_transforms (t : list transformation) (o : Observable) : Observable :=
  {| okind := okind o; listeners := listeners o;
     errListeners := errListeners o; sources := sources o;
     listener := listener o; errListener := errListener o; transforms := t;
     parent := parent o |}.
Definition set_parent (c : callback) (o : Observable) : Observable :=
  {| okind := okind o; listeners := listeners o;
     errListeners := errListeners o; sources := sources o;
     listener := listener o; errListener := errListener o;
     transforms := transforms o; parent := c |}.

(** The observable stored at [n]. *)
Definition obs (st : State) (n : obs_id) : Observable := heap st !!! n.

Definition upd_obs (n : obs_id) (f : Observable -> Observable) (st : State) : State :=
  set_heap (alter f n (heap st)) st.

(** The initial state: nothing allocated, the flow idle. *)
Definition empty_state (c : nat -> list command) : State :=
  {| heap := []; cells := []; flow_running := false; flow_queue := [];
     code := c; log := []; events := 0; trace := [] |}.

(** The computations of this module: state [State], thrown values
    [value]. *)
Definition M : Type -> Type := JS State value.

Definition TypeError (msg : string) : value := VError msg.

(** ** ProAct.Observable *)

(** Allocation of a fresh object: [new ...]. *)
Definition alloc (o : Observable) : M obs_id :=
  fun st => (Ret (length (heap st)), set_heap (heap st ++ [o]) st).

Definition Observable_new (ts : list transformation) : M obs_id :=
  alloc (Observable_init ObservableKind ts).

(** [val === P.Observable.BadValue] *)
Definition is_BadValue (v : value) : bool :=
  match v with BadValue => true | _ => false end.

(** One call [t[i].call(observable, val)].  The closures of [filtering]
    and [accumulation] are unfolded here:
      [function (val) { if (f.call(_this, val)) { return val; }
                        return Pro.Observable.BadValue; }]
      [function (newVal) { val = f.call(_this, val, newVal); return val; }] *)
Definition apply_transformation (t : transformation) (val : value) : M value :=
  match t with
  | Fn f =>
      match f val with
      | Returns v => ret v
      | Throws e => throw e
      end
  | Filtering f =>
      match f val with
      | Returns r => if truthy r then ret val else ret BadValue
      | Throws e => throw e
      end
  | Accumulation c f =>
      fun st =>
        match f (cells st !!! c) val with
        | Returns v => (Ret v, set_cells (<[c:=v]> (cells st)) st)
        | Throws e => (Throw e, st)
        end
  end.

(** The loop of the static [ProAct.Observable.transform]. *)
Fixpoint transform_loop (t : list transformation) (val : value) : M value :=
  match t with
  | [] => ret val
  | ti :: t' =>
      let* val' := apply_transformation ti val in
      if is_BadValue val' then ret val' else transform_loop t' val'
  end.

(** [ProAct.Observable.transform(observable, val)] (static) *)
Definition Observable_transform (observable : obs_id) (val : value) : M value :=
  let* t := gets (fun st => transforms (obs st observable)) in
  transform_loop t val.

(** [makeListener]: [null] for the base, the lazily created stable closure
    for a stream. *)
Definition makeListener (n : obs_id) : M callback :=
  let* k := gets (fun st => okind (obs st n)) in
  match k with
  | ObservableKind => ret Null
  | StreamKind =>
      let* l := gets (fun st => listener (obs st n)) in
      (if cb_falsy l
       then modify (upd_obs n (set_listener (StreamListener n)))
       else ret tt) >>
      gets (fun st => listener (obs st n))
  end.

Definition makeErrListener (n : obs_id) : M callback :=
  let* k := gets (fun st => okind (obs st n)) in
  match k with
  | ObservableKind => ret Null
  | StreamKind =>
      let* l := gets (fun st => errListener (obs st n)) in
      (if cb_falsy l
       then modify (upd_obs n (set_errListener (StreamErrListener n)))
       else ret tt) >>
      gets (fun st => errListener (obs st n))
  end.

(** [makeEvent]: a fresh envelope for the base, the source itself for a
    stream. *)
Definition makeEvent (n : obs_id) (source : value) : M value :=
  let* k := gets (fun st => okind (obs st n)) in
  let* event := match k with
           | ObservableKind =>
               let* id := gets events in
               modify (set_events (S id)) >>
               ret (VEvent id source n)
           | StreamKind => ret source
           end in
  modify (fun st => set_trace (trace st ++ [MakeEvent n source event]) st) >>
  ret event.

Definition array_get (a : arrayref) (st : State) : list callback :=
  match a with
  | ListenersOf n => listeners (obs st n)
  | ErrListenersOf n => errListeners (obs st n)
  end.

Definition array_set (a : arrayref) (l : list callback) : State -> State :=
  match a with
  | ListenersOf n => upd_obs n (set_listeners l)
  | ErrListenersOf n => upd_obs n (set_errListeners l)
  end.

(** [array.push(x)] *)
Definition array_push (a : arrayref) (x : callback) : M unit :=
  modify (fun st => array_set a (array_get a st ++ [x]) st).

(** Modelled from the spec: [Pro.U.remove(array, value)] is not part of the
    sources at hand; [off] "removes the first/all matching entries".  It
    is taken as [indexOf] followed by [splice(i, 1)]: the first entry
    identical to [value] is removed. *)
Fixpoint U_remove {A} `{EqDecision A} (array : list A) (value : A) : list A :=
  match array with
  | [] => []
  | x :: rest => if decide (x = value) then rest else x :: U_remove rest value
  end.

(** Modelled from the spec: the other reading of "removes the first/all
    matching entries", where every matching entry goes.  The operations
    below do not use it. *)
Fixpoint U_remove_all {A} `{EqDecision A} (array : list A) (value : A) : list A :=
  match array with
  | [] => []
  | x :: rest =>
      if decide (x = value) then U_remove_all rest value
      else x :: U_remove_all rest value
  end.

(** [on(action, callback, callbacks)] *)
Definition on (n : obs_id) (action : arg) (callback : callback)
    (callbacks : option arrayref) : M unit :=
  let callback := match action with Str _ => callback | Cb c => c end in
  match callbacks with
  | Some a => array_push a callback
  | None => array_push (ListenersOf n) callback
  end.

(** [off(action, callback, callbacks)] *)
Definition off (n : obs_id) (action : arg) (callback : callback)
    (callbacks : option arrayref) : M unit :=
  if arg_falsy action && cb_falsy callback then
    match callbacks with
    | Some a => modify (array_set a [])
    | None => modify (upd_obs n (set_listeners []))
    end
  else
    let callback := match action with Str _ => callback | Cb c => c end in
    match callbacks with
    | Some a => modify (fun st => array_set a (U_remove (array_get a st) callback) st)
    | None =>
        modify (fun st =>
          array_set (ListenersOf n) (U_remove (array_get (ListenersOf n) st) callback) st)
    end.

Definition onErr (n : obs_id) (action : arg) (callback : callback) : M unit :=
  on n action callback (Some (ErrListenersOf n)).

Definition offErr (n : obs_id) (action : arg) (callback : callback) : M unit :=
  off n action callback (Some (ErrListenersOf n)).

(** [into(...sources)] *)
Definition into (n : obs_id) (args : list obs_id) : M unit :=
  for_each args (fun source =>
    modify (upd_obs n (fun o => set_sources (sources o ++ [source]) o)) >>
    let* l := makeListener n in
    on source (Cb l) Undefined None >>
    let* e := makeErrListener n in
    onErr source (Cb e) Undefined).

Definition out (n : obs_id) (destination : obs_id) : M unit :=
  into destination [n].

(** [offSource(source)] *)
Definition offSource (n : obs_id) (source : obs_id) : M unit :=
  modify (upd_obs n (fun o => set_sources (U_remove (sources o) source) o)) >>
  let* l := gets (fun st => listener (obs st n)) in
  off source (Cb l) Undefined None >>
  let* e := gets (fun st => errListener (obs st n)) in
  offErr source (Cb e) Undefined.

(** [transform(transformation)] (the method) *)
Definition transform (n : obs_id) (t : transformation) : M unit :=
  modify (upd_obs n (fun o => set_transforms (transforms o ++ [t]) o)).

Definition mapping (n : obs_id) (f : value -> tres) : M unit :=
  transform n (Fn f).

Definition filtering (n : obs_id) (f : value -> tres) : M unit :=
  transform n (Filtering f).

(** [accumulation(initVal, f)]: [var val = initVal] is a fresh cell. *)
Definition accumulation (n : obs_id) (initVal : value)
    (f : value -> value -> tres) : M unit :=
  let* c := gets (fun st => length (cells st)) in
  modify (fun st => set_cells (cells st ++ [initVal]) st) >>
  transform n (Accumulation c f).

(** ** ProAct.flow *)

(** Modelled from the spec: the scheduler [Pro.flow] is not part of the
    sources at hand.  [isRunning()] is true while a batch is open. *)
Definition flow_isRunning : M bool := gets flow_running.

(** Modelled from the spec: [push(callback, args)] is the unconditional
    enqueue. *)
Definition flow_push (c : callback) (event : value) : M unit :=
  modify (fun st => set_queue (flow_queue st ++ [(c, event)]) st).

(** Modelled from the spec: [pushOnce(callback, args)] enqueues only if
    this callback identity is not already queued in the current batch; for
    a callback that is queued, the position of the first call and the
    arguments of the last call are kept. *)
Fixpoint queue_pushOnce (q : list (callback * value)) (c : callback)
    (event : value) : list (callback * value) :=
  match q with
  | [] => [(c, event)]
  | (c', event') :: q' =>
      if decide (c' = c) then (c', event) :: q'
      else (c', event') :: queue_pushOnce q' c event
  end.

(** Modelled from the spec: [pushOnce] on the queue of the flow. *)
Definition flow_pushOnce (c : callback) (event : value) : M unit :=
  modify (fun st => set_queue (queue_pushOnce (flow_queue st) c event) st).

(** Modelled from the spec: [run(body)] marks the flow running, executes
    [body], drains the queue until it is empty and marks the flow idle.
    It is not to be called while a batch is open; there, [body] alone is
    executed. *)
Definition flow_run (drain : M unit) (body : M unit) : M unit :=
  let* running := flow_isRunning in
  if running then body
  else
    modify (set_running true) >>
    body >>
    drain >>
    modify (set_running false).

(** ** Deferring and updating *)

(** [listener.property] *)
Definition property_of (c : callback) : option obs_id :=
  match c with
  | Callback _ _ p => p
  | _ => None
  end.

(** [ProAct.Observable.prototype.defer]; reading [callback.call] of
    [null] or [undefined] is a TypeError. *)
Definition Observable_defer (event : value) (callback : callback) : M unit :=
  if isFunction callback then flow_pushOnce callback event
  else if cb_falsy callback
       then throw (TypeError "Cannot read property 'call'")
       else flow_pushOnce callback event.

(** [ProAct.Stream.prototype.defer]; reading [listener.property] of [null]
    or [undefined] is a TypeError. *)
Definition Stream_defer (event : value) (listener : callback) : M unit :=
  if cb_falsy listener then throw (TypeError "Cannot read property 'property'")
  else
    match property_of listener with
    | Some _ => Observable_defer event listener
    | None =>
        if isFunction listener then flow_push listener event
        else flow_push listener event
    end.

(** [this.defer(event, callback)], dispatched on the prototype. *)
Definition defer (n : obs_id) (event : value) (c : callback) : M unit :=
  modify (fun st => set_trace (trace st ++ [Defer n event c]) st) >>
  let* k := gets (fun st => okind (obs st n)) in
  match k with
  | ObservableKind => Observable_defer event c
  | StreamKind => Stream_defer event c
  end.

(** [listeners[i]] *)
Definition array_read (a : arrayref) (i : nat) : M callback :=
  gets (fun st => default Undefined (array_get a st !! i)).

(** [this.parent === null] *)
Definition is_null (c : callback) : bool :=
  match c with Null => true | _ => false end.

(** [willUpdate(source, callbacks)].  The local [listeners] is an alias of
    the array, [length] is read once before the loop.  The recursion is
    the call [listener.property.willUpdate(event)].  Every callback that
    is not [null] or [undefined] is a function or has a [call] method, so
    [this.parent && this.parent.call] is [!!this.parent]. *)
Fixpoint willUpdate (fuel : nat) (n : obs_id) (source : value)
    (callbacks : option arrayref) : M unit :=
  match fuel with
  | 0 => out_of_fuel
  | S fuel' =>
      let listeners := match callbacks with Some a => a | None => ListenersOf n end in
      let* length := gets (fun st => length (array_get listeners st)) in
      let* event := makeEvent n source in
      for_each (seq 0 length) (fun i =>
        let* listener := array_read listeners i in
        defer n event listener >>
        match property_of listener with
        | Some p => willUpdate fuel' p event None
        | None => ret tt
        end) >>
      let* p := gets (fun st => parent (obs st n)) in
      if negb (cb_falsy p) then defer n event p else ret tt
  end.

(** [update(source, callbacks)] *)
Definition update_with (drain : M unit) (fuel : nat) (n : obs_id)
    (source : value) (callbacks : option arrayref) : M unit :=
  let* o := gets (fun st => obs st n) in
  if (length (listeners o) =? 0) && (length (errListeners o) =? 0)
     && is_null (parent o)
  then ret tt
  else
    let* running := flow_isRunning in
    if negb running
    then flow_run drain (willUpdate fuel n source callbacks)
    else willUpdate fuel n source callbacks.

(** ** ProAct.Stream *)

(** [triggerErr(err)] *)
Definition triggerErr_with (drain : M unit) (fuel : nat) (n : obs_id)
    (err : value) : M unit :=
  update_with drain fuel n err (Some (ErrListenersOf n)).

(** [go(event, useTransformations)]; [None] stands for the [return this]
    inside the [catch]. *)
Definition go_with (drain : M unit) (fuel : nat) (n : obs_id)
    (event : value) (useTransformations : bool) : M unit :=
  let* r := (if useTransformations
        then try_catch
               (let* event' := Observable_transform n event in ret (Some event'))
               (fun e => triggerErr_with drain fuel n e >> ret None)
        else ret (Some event)) in
  match r with
  | None => ret tt
  | Some event =>
      if is_BadValue event then ret tt
      else update_with drain fuel n event None
  end.

(** [trigger(event, useTransformations)]; [None] is [undefined]. *)
Definition trigger_with (drain : M unit) (fuel : nat) (n : obs_id)
    (event : value) (useTransformations : option bool) : M unit :=
  go_with drain fuel n event (default true useTransformations).

(** ** Running callbacks *)

Definition run_command (drain : M unit) (fuel : nat) (c : command) : M unit :=
  match c with
  | CallOn n c => on n (Cb c) Undefined None
  | CallOnErr n c => onErr n (Cb c) Undefined
  | CallTrigger n v => trigger_with drain fuel n v None
  end.

(** The call of a queued callback with its argument. *)
Definition invoke_with (drain : M unit) (fuel : nat) (c : callback)
    (event : value) : M unit :=
  match c with
  | StreamListener s => trigger_with drain fuel s event (Some true)
  | StreamErrListener s => triggerErr_with drain fuel s event
  | Callback id _ _ =>
      modify (fun st => set_log (log st ++ [(id, event)]) st) >>
      let* body := gets (fun st => code st id) in
      for_each body (run_command drain fuel)
  | Undefined | Null => throw (TypeError "not a function")
  end.

(** Modelled from the spec: the drain of the flow calls the queued
    callbacks in order, those enqueued meanwhile included, until the queue
    is empty. *)
Fixpoint drain (fuel : nat) : M unit :=
  match fuel with
  | 0 => out_of_fuel
  | S fuel' =>
      let* q := gets flow_queue in
      match q with
      | [] => ret tt
      | (c, event) :: q' =>
          modify (set_queue q') >>
          invoke_with (drain fuel') fuel' c event >>
          drain fuel'
      end
  end.

Definition update (fuel : nat) := update_with (drain fuel) fuel.
Definition triggerErr (fuel : nat) := triggerErr_with (drain fuel) fuel.
Definition go (fuel : nat) := go_with (drain fuel) fuel.
Definition trigger (fuel : nat) := trigger_with (drain fuel) fuel.

(** [new ProAct.Stream(source, transforms)] *)
Definition Stream_new (source : option obs_id) (ts : list transformation) : M obs_id :=
  let* n := alloc (Observable_init StreamKind ts) in
  match source with
  | Some s => into n [s]
  | None => ret tt
  end >>
  ret n.

(** [map], [filter], [accumulate] of a stream: a new stream fed by [this]. *)
Module Stream.

Definition map (n : obs_id) (mappingFunction : value -> tres) : M obs_id :=
  let* s := Stream_new (Some n) [] in mapping s mappingFunction >> ret s.

Definition filter (n : obs_id) (filteringFunction : value -> tres) : M obs_id :=
  let* s := Stream_new (Some n) [] in filtering s filteringFunction >> ret s.

Definition accumulate (n : obs_id) (initVal : value)
    (accumulationFunction : value -> value -> tres) : M obs_id :=
  let* s := Stream_new (Some n) [] in
  accumulation s initVal accumulationFunction >> ret s.

(** [merge(...streams)] *)
Definition merge (n : obs_id) (args : list obs_id) : M obs_id :=
  let* result := Stream_new None [] in
  into result ([n] ++ args) >>
  ret result.

End Stream.

(** ** Vocabulary of the statements *)

(** The node an array belongs to. *)
Definition ref_node (a : arrayref) : obs_id :=
  match a with ListenersOf n | ErrListenersOf n => n end.

#[global] Instance arrayref_eq_dec : EqDecision arrayref.
Proof. solve_decision. Defined.

(** The array that the local variable [listeners] of [willUpdate] aliases. *)
Definition target_of (n : obs_id) (callbacks : option arrayref) : arrayref :=
  default (ListenersOf n) callbacks.

(** The state after [off(callback)] on the array [a]. *)
Definition off_state (c : callback) (a : arrayref) (st : State) : State :=
  if cb_falsy c then array_set a [] st
  else array_set a (U_remove (array_get a st) c) st.

(** The state after [makeListener()] and after [makeErrListener()]. *)
Definition makeListener_state (n : obs_id) (st : State) : State :=
  match okind (obs st n) with
  | ObservableKind => st
  | StreamKind =>
      if cb_falsy (listener (obs st n))
      then upd_obs n (set_listener (StreamListener n)) st else st
  end.

Definition makeErrListener_state (n : obs_id) (st : State) : State :=
  match okind (obs st n) with
  | ObservableKind => st
  | StreamKind =>
      if cb_falsy (errListener (obs st n))
      then upd_obs n (set_errListener (StreamErrListener n)) st else st
  end.

(** The state after [this.into(source)]. *)
Definition into_state (n s : obs_id) (st : State) : State :=
  let st_a := upd_obs n (fun o => set_sources (sources o ++ [s]) o) st in
  let st_b := makeListener_state n st_a in
  let l := match okind (obs st_a n) with
           | ObservableKind => Null
           | StreamKind => listener (obs st_b n)
           end in
  let st_c := array_set (ListenersOf s) (array_get (ListenersOf s) st_b ++ [l]) st_b in
  let st_d := makeErrListener_state n st_c in
  let e := match okind (obs st_c n) with
           | ObservableKind => Null
           | StreamKind => errListener (obs st_d n)
           end in
  array_set (ErrListenersOf s) (array_get (ErrListenersOf s) st_d ++ [e]) st_d.

(** How often a callback stands in the queue. *)
Fixpoint queued (c : callback) (q : list (callback * value)) : nat :=
  match q with
  | [] => 0
  | (c', _) :: q' => (if decide (c' = c) then 1 else 0) + queued c q'
  end.

(** The queue after [defer] on a node of kind [k]. *)
Definition enqueue (k : kind) (event : value) (q : list (callback * value))
    (c : callback) : list (callback * value) :=
  match k, property_of c with
  | StreamKind, None => q ++ [(c, event)]
  | _, _ => queue_pushOnce q c event
  end.

(** The event of a round of a node of kind [k], and the number of events
    built once it is made. *)
Definition event_of (k : kind) (n : obs_id) (source : value) (id : nat) : value :=
  match k with
  | ObservableKind => VEvent id source n
  | StreamKind => source
  end.

Definition events_after (k : kind) (id : nat) : nat :=
  match k with
  | ObservableKind => S id
  | StreamKind => id
  end.

(** What a round leaves alone: the graph, the cells, the log, the code and
    the flag of the flow; the record of calls only grows. *)
Definition frame (st st' : State) : Prop :=
  heap st' = heap st /\ cells st' = cells st /\ log st' = log st /\
  code st' = code st /\ flow_running st' = flow_running st /\
  exists t, trace st' = trace st ++ t.

Definition framed {A} (m : M A) : Prop := forall st, frame st (snd (m st)).

(** The pipeline writes accumulation cells and nothing else. *)
Definition cells_only (st st' : State) : Prop := st' = set_cells (cells st') st.

(** The calls of one round: for each listener of the snapshot its [defer],
    followed by the calls of the nested round of its property, if any. *)
Definition round_calls (n : obs_id) (event : value) (snap : list callback)
    (nested : list (list call)) : list call :=
  concat (zip_with (fun c t => Defer n event c :: t) snap nested).

Definition parent_call (n : obs_id) (event : value) (p : callback) : list call :=
  if cb_falsy p then [] else [Defer n event p].

(** [parent], when it is set, as a list. *)
Definition parent_list (p : callback) : list callback :=
  if cb_falsy p then [] else [p].

(** A callable without a [property] tag. *)
Definition plain (c : callback) : Prop :=
  cb_falsy c = false /\ property_of c = None.

Definition cb_id (c : callback) : nat :=
  match c with Callback id _ _ => id | _ => 0 end.

(** An external callable whose body does nothing to the graph. *)
Definition probe (st : State) (c : callback) : Prop :=
  exists id f p, c = Callback id f p /\ code st id = [].

(** ** Scenarios *)

(** [x => x > 0] *)
Definition positive (v : value) : tres :=
  match v with
  | VNum n => Returns (VBool (0 <? n)%Z)
  | VBool b => Returns (VBool b)
  | _ => Returns (VBool false)
  end.

(** [(a, v) => a + v] on numbers. *)
Definition plus (a v : value) : tres :=
  match a, v with
  | VNum x, VNum y => Returns (VNum (x + y))
  | _, _ => Throws (VError "not a number")
  end.

(** [v => { throw "boom"; }] *)
Definition failing (v : value) : tres := Throws (VStr "boom").

Definition observer : callback := Callback 0 true None.
Definition errObserver : callback := Callback 1 true None.

(** No external callback touches the graph. *)
Definition quiet : nat -> list command := fun _ => [].

Definition trigger_all (fuel : nat) (s : obs_id) (vs : list value) : M unit :=
  for_each vs (fun v => trigger fuel s v None).

(** A stream with [filtering(x => x > 0)] and one listener. *)
Definition filtered_stream : M obs_id :=
  let* s := Stream_new None [] in
  filtering s positive >>
  on s (Cb observer) Undefined None >>
  ret s.

(** A stream with [accumulation(seed, (a, v) => a + v)] and one listener. *)
Definition summing_stream (seed : Z) : M obs_id :=
  let* s := Stream_new None [] in
  accumulation s (VNum seed) plus >>
  on s (Cb observer) Undefined None >>
  ret s.

(** The same with a second accumulation on the same node. *)
Definition summing_twice (seed1 seed2 : Z) : M obs_id :=
  let* s := Stream_new None [] in
  accumulation s (VNum seed1) plus >>
  accumulation s (VNum seed2) plus >>
  on s (Cb observer) Undefined None >>
  ret s.

(** Running totals of [zs] from [a]. *)
Fixpoint running (a : Z) (zs : list Z) : list Z :=
  match zs with
  | [] => []
  | z :: zs' => (a + z)%Z :: running (a + z) zs'
  end.

(** The states of the stream of [summing_stream] with its cell at [a], and
    of the stream of [summing_twice] with its cells at [a] and [b]. *)
Definition summing_at (a : Z) (st : State) : Prop :=
  heap st = heap (snd (summing_stream 0 (empty_state quiet))) /\
  cells st = [VNum a] /\ flow_running st = false /\ flow_queue st = [] /\
  code st = quiet.

Definition summing_twice_at (a b : Z) (st : State) : Prop :=
  heap st = heap (snd (summing_twice 0 0 (empty_state quiet))) /\
  cells st = [VNum a; VNum b] /\ flow_running st = false /\ flow_queue st = [] /\
  code st = quiet.

(** A stream whose pipeline throws, with a value listener and an error
    listener. *)
Definition failing_stream : State :=
  snd ((let* s := Stream_new None [] in
        mapping s failing >>
        on s (Cb observer) Undefined None >>
        onErr s (Cb errObserver) Undefined) (empty_state quiet)).

(** The stream [0] with a listener and an error listener, and its branch
    [1 = 0.map(failing)] with a listener and an error listener. *)
Definition upstream : callback := Callback 2 true None.
Definition downstream : callback := Callback 3 true None.

Definition failing_branch : State :=
  snd ((let* s := Stream_new None [] in
        on s (Cb observer) Undefined None >>
        onErr s (Cb upstream) Undefined >>
        let* b := Stream.map s failing in
        on b (Cb downstream) Undefined None >>
        onErr b (Cb errObserver) Undefined) (empty_state quiet)).

(** One base observable without listeners. *)
Definition idle_node : State :=
  snd (Observable_new [] (empty_state quiet)).

(** Two streams, [0] and [1], not connected; and the same after
    [0.into(1)]. *)
Definition two_streams : State :=
  snd ((Stream_new None [] >> Stream_new None []) (empty_state quiet)).

Definition connected_streams : State := snd (into 0 [1] two_streams).

(** A stream [0] that feeds the stream [1] and has listeners of its own;
    the base observable [2] went [into] it as well. *)
Definition shared_source : State :=
  snd ((Stream_new None [] >> Stream_new (Some 0) [] >>
        on 0 (Cb observer) Undefined None >>
        onErr 0 (Cb errObserver) Undefined >>
        Observable_new [] >>
        into 2 [0]) (empty_state quiet)).

(** The callback [0] registers the callback [2] on the observable [0] when
    it is called. *)
Definition late : callback := Callback 2 true None.

Definition registering : nat -> list command :=
  fun id => match id with 0 => [CallOn 0 late] | _ => [] end.

(** A base observable with the listeners [0] and [1]. *)
Definition watched_node : State :=
  snd ((let* o := Observable_new [] in
        on o (Cb observer) Undefined None >>
        on o (Cb errObserver) Undefined None) (empty_state registering)).

(** A stream with one plain listener, and a base observable with the same
    listener; in one batch each is updated twice. *)
Definition twice_in_a_batch (k : kind) : State :=
  snd ((let* o := alloc (Observable_init k []) in
        on o (Cb observer) Undefined None >>
        flow_run (drain 3)
          (willUpdate 1 o (VNum 1) None >> willUpdate 1 o (VNum 2) None))
       (empty_state quiet)).

(** ** The error stream of the flow *)

(** The flow object with its field [errStreamVar]; the rest of the
    machine is the state above. *)
Record Flow : Type := mkFlow {
  machine : State;
  errStreamVar : option obs_id
}.

(** [new P.S()] run on the machine of the flow. *)
Definition on_machine {A} (m : M A) : JS Flow value A :=
  fun fl =>
    let (r, st) := m (machine fl) in
    (r, {| machine := st; errStreamVar := errStreamVar fl |}).

(** [errStream()] *)
Definition errStream : JS Flow value obs_id :=
  let* v := gets errStreamVar in
  match v with
  | Some s => ret s
  | None =>
      let* s := on_machine (Stream_new None []) in
      modify (fun fl => {| machine := machine fl; errStreamVar := Some s |}) >>
      ret s
  end.

(** ** More vocabulary of the statements *)

(** The callback that [on] and [off] work with: the second argument when
    the first is an action name, the first otherwise. *)
Definition callback_of (action : arg) (cb : callback) : callback :=
  match action with Str _ => cb | Cb c => c end.

(** What [makeListener()] and [makeErrListener()] of [n] return in the
    state [st]. *)
Definition edge_listener (n : obs_id) (st : State) : callback :=
  match okind (obs st n) with
  | ObservableKind => Null
  | StreamKind =>
      if cb_falsy (listener (obs st n)) then StreamListener n
      else listener (obs st n)
  end.

Definition edge_errListener (n : obs_id) (st : State) : callback :=
  match okind (obs st n) with
  | ObservableKind => Null
  | StreamKind =>
      if cb_falsy (errListener (obs st n)) then StreamErrListener n
      else errListener (obs st n)
  end.

(** How often [x] stands in [l]. *)
Definition occurrences {A} `{EqDecision A} (x : A) (l : list A) : nat :=
  length (filter (fun y => y = x) l).

(** The fast path of [update]. *)
Definition nothing_to_notify (o : Observable) : bool :=
  (length (listeners o) =? 0) && (length (errListeners o) =? 0)
  && is_null (parent o).

(** The stream that [new ProAct.Stream(n, ts)] builds at [b], once its
    listeners are made. *)
Definition fresh_branch (n b : obs_id) (ts : list transformation) : Observable :=
  {| okind := StreamKind; listeners := []; errListeners := [];
     sources := [n]; listener := StreamListener b;
     errListener := StreamErrListener b; transforms := ts; parent := Null |}.

(** [st'] is [st] with a new stream [b] fed by [n]: [b] is the next free
    place, [n] has the two listeners of [b] at the end of its arrays, and
    nothing else of the graph has changed. *)
Definition branched (n b : obs_id) (ts : list transformation)
    (st st' : State) : Prop :=
  b = length (heap st) /\
  length (heap st') = S b /\
  obs st' b = fresh_branch n b ts /\
  listeners (obs st' n) = listeners (obs st n) ++ [StreamListener b] /\
  errListeners (obs st' n) = errListeners (obs st n) ++ [StreamErrListener b] /\
  sources (obs st' n) = sources (obs st n) /\
  transforms (obs st' n) = transforms (obs st n) /\
  (forall m, m < length (heap st) -> m <> n -> obs st' m = obs st m).

(** Whether the predicate [f] lets [v] pass. *)
Definition passes (v : value) (f : value -> tres) : bool :=
  match f v with
  | Returns r => truthy r
  | Throws _ => false
  end.

(** The calls that hand [v] to each callback of [l], as the log records
    them. *)
Definition delivered (l : list callback) (v : value) : list (nat * value) :=
  (fun c => (cb_id c, v)) <$> l.

(** What the stream [b] hands on when its pipeline has come to [r]: the
    value to its listeners, unless it is [BadValue], or the error to its
    error listeners. *)
Definition emitted (st : State) (b : obs_id) (r : outcome value value)
    : list (nat * value) :=
  match r with
  | Ret w => if is_BadValue w then [] else delivered (listeners (obs st b)) w
  | Throw e => delivered (errListeners (obs st b)) e
  | OutOfFuel => []
  end.

(** The entries that the stream [b] queues when its pipeline has come to
    [r]. *)
Definition queued_by (st : State) (b : obs_id) (r : outcome value value)
    : list (callback * value) :=
  match r with
  | Ret w => if is_BadValue w then [] else (fun c => (c, w)) <$> listeners (obs st b)
  | Throw e => (fun c => (c, e)) <$> errListeners (obs st b)
  | OutOfFuel => []
  end.

(** ** More scenarios *)

(** The stream [0] with the listener [observer], and its branch
    [1 = 0.map(f)] with the listener [downstream] and the error listener
    [errObserver]. *)
Definition mapped_branch (f : value -> tres) : State :=
  snd ((let* s := Stream_new None [] in
        on s (Cb observer) Undefined None >>
        let* b := Stream.map s f in
        on b (Cb downstream) Undefined None >>
        onErr b (Cb errObserver) Undefined) (empty_state quiet)).

(** The streams [0] and [1], and [2 = 0.merge(1)] with the listener
    [observer]. *)
Definition merged_streams : State :=
  snd ((let* a := Stream_new None [] in
        let* b := Stream_new None [] in
        let* m := Stream.merge a [b] in
        on m (Cb observer) Undefined None) (empty_state quiet)).

(** A base observable and a stream, each with the listener [observer]
    registered twice. *)
Definition registered_twice (k : kind) : State :=
  snd ((let* o := alloc (Observable_init k []) in
        on o (Cb observer) Undefined None >>
        on o (Cb observer) Undefined None) (empty_state quiet)).

(** A stream with the listener [observer]; the base observable [1] went
    [into] it. *)
Definition poisoned_source : State :=
  snd ((let* s := Stream_new None [] in
        on s (Cb observer) Undefined None >>
        let* o := Observable_new [] in
        into o [s]) (empty_state quiet)).

(** A base observable without listeners whose [parent] is [upstream]. *)
Definition child_node : State :=
  snd ((let* o := Observable_new [] in
        modify (upd_obs o (set_parent upstream))) (empty_state quiet)).

(** A stream with [mapping(failing)] and a listener, but no error
    listener. *)
Definition unheard_failure : State :=
  snd ((let* s := Stream_new None [] in
        mapping s failing >>
        on s (Cb observer) Undefined None) (empty_state quiet)).

(** The stream [0] with the listener [observer], and its branch
    [1 = 0.accumulate(seed, (a, v) => a + v)] with the listener
    [downstream]. *)
Definition totals_branch (seed : Z) : State :=
  snd ((let* s := Stream_new None [] in
        on s (Cb observer) Undefined None >>
        let* b := Stream.accumulate s (VNum seed) plus in
        on b (Cb downstream) Undefined None) (empty_state quiet)).

(** The states of that graph with the cell of the branch at [a]. *)
Definition totals_at (a : Z) (st : State) : Prop :=
  heap st = heap (totals_branch 0) /\
  cells st = [VNum a] /\ flow_running st = false /\ flow_queue st = [] /\
  code st = quiet.

(** What the two listeners are called with when [zs] are triggered on the
    stream [0], the cell being at [a]: each number for [observer],
    followed by the running total for [downstream]. *)
Fixpoint totals_log (a : Z) (zs : list Z) : list (nat * value) :=
  match zs with
  | [] => []
  | z :: zs' =>
      (0, VNum z) :: (3, VNum (a + z)) :: totals_log (a + z) zs'
  end.

End Reactive.

(* ===================================================================== *)
(** * The object core                                                     *)
(* ===================================================================== *)

Module ObjectCore.

(** ** Data *)

(** The values a field of a shell object can hold. *)
#[local] Unset Elimination Schemes.
Inductive value : Type :=
| VUndefined
| VNull
| VBool (b : bool)
| VNum (n : Z)
| VStr (s : string)
| VFunction (id : nat)
| VArray (items : list value)
| VObject (fields : list (string * value)).
#[local] Set Elimination Schemes.

(** [typeof] *)
Inductive jstype : Type :=
| TUndefined | TObject | TBoolean | TNumber | TString | TFunction.

Definition typeof (v : value) : jstype :=
  match v with
  | VUndefined => TUndefined
  | VNull | VArray _ | VObject _ => TObject
  | VBool _ => TBoolean
  | VNum _ => TNumber
  | VStr _ => TString
  | VFunction _ => TFunction
  end.

(** Modelled from the spec: the predicates of [P.U] are not part of the
    sources at hand; the classification speaks of "a function",
    "array-like" and "a plain object".  They are taken as the usual
    [typeof] tests, so that [isObject] holds of [null] and of arrays. *)
Definition isFunction (v : value) : bool :=
  match typeof v with TFunction => true | _ => false end.

(** Modelled from the spec: [P.U.isObject], [typeof value === 'object']. *)
Definition isObject (v : value) : bool :=
  match typeof v with TObject => true | _ => false end.

(** Modelled from the spec: [P.U.isArray]. *)
Definition isArray (v : value) : bool :=
  match v with VArray _ => true | _ => false end.

(** Modelled from the spec: [P.U.isArrayObject], "array-like"; the values
    at hand have no reactive arrays, so these are the arrays. *)
Definition isArrayObject (v : value) : bool := isArray v.

(** The prototypes [P.NP], [P.P], [P.FP], [P.AP] and [P.OP]: the
    properties of null fields, of scalars, of functions, of arrays and of
    objects. *)
Inductive PropertyType : Type := NP | P | FP | AP | OP.

Record Property : Type := mkProperty {
  ptype : PropertyType;
  pname : string;
  change_listeners : list nat
}.

(** A meta-data entry of a field: a string, an array of strings, or
    something without [indexOf]. *)
Inductive metaval : Type :=
| MStr (s : string)
| MList (l : list string)
| MOther.

(** [P.Configuration] and the presence of [P.registry]. *)
Record Configuration : Type := mkConfiguration {
  keyprops : bool;
  keypropList : list string;
  registry : bool
}.

Inductive error : Type :=
| Error (msg : string)
| TypeError (msg : string).

(** The shell object and its core.  [fields] are the own enumerable
    fields of the shell in enumeration order, [pro] tells whether the shell
    has its hidden [__pro__] reference to the core, [properties] is
    [core.properties] in insertion order, [registry_calls] records the
    calls of [P.registry.setup]. *)
Record State : Type := mkState {
  fields : list (string * value);
  pro : bool;
  meta : list (string * metaval);
  properties : list (string * Property);
  registry_calls : list (option Property * list metaval)
}.

Definition M : Type -> Type := JS State error.

Definition set_fields (f : list (string * value)) (st : State) : State :=
  {| fields := f; pro := pro st; meta := meta st;
     properties := properties st; registry_calls := registry_calls st |}.
Definition set_pro (b : bool) (st : State) : State :=
  {| fields := fields st; pro := b; meta := meta st;
     properties := properties st; registry_calls := registry_calls st |}.
Definition set_properties (p : list (string * Property)) (st : State) : State :=
  {| fields := fields st; pro := pro st; meta := meta st;
     properties := p; registry_calls := registry_calls st |}.
Definition set_registry_calls (r : list (option Property * list metaval))
    (st : State) : State :=
  {| fields := fields st; pro := pro st; meta := meta st;
     properties := properties st; registry_calls := r |}.

(** [o[k]] on an object kept as a list of entries. *)
Fixpoint get {A} (k : string) (o : list (string * A)) : option A :=
  match o with
  | [] => None
  | (k', v) :: o' => if decide (k' = k) then Some v else get k o'
  end.

(** [o[k] = v]: an existing key keeps its place, a new one goes last. *)
Fixpoint put {A} (k : string) (v : A) (o : list (string * A)) : list (string * A) :=
  match o with
  | [] => [(k, v)]
  | (k', v') :: o' =>
      if decide (k' = k) then (k, v) :: o' else (k', v') :: put k v o'
  end.

(** ** ProAct.ObjectCore *)

(** [meta && (meta === 'noprop' ||
              (meta.indexOf && meta.indexOf('noprop') >= 0))] *)
Definition noprop (meta : option metaval) : bool :=
  match meta with
  | None => false
  | Some (MStr s) =>
      negb (String.eqb s "")
      && (String.eqb s "noprop"
          || match String.index 0 "noprop" s with Some _ => true | None => false end)
  | Some (MList l) => bool_decide ("noprop" ∈ l)
  | Some MOther => false
  end.

(** [meta] as a condition: the empty string is falsy. *)
Definition meta_truthy (meta : option metaval) : bool :=
  match meta with
  | None => false
  | Some (MStr s) => negb (String.eqb s "")
  | Some _ => true
  end.

(** [if (!P.U.isArray(meta)) { meta = [meta]; }] *)
Definition meta_tags (meta : option metaval) : list metaval :=
  match meta with
  | None => []
  | Some (MList l) => MStr <$> l
  | Some m => [m]
  end.

(** [keyprops && keypropList.indexOf(property) !== -1] *)
Definition reserved (conf : Configuration) (property : string) : bool :=
  keyprops conf && bool_decide (property ∈ keypropList conf).

Definition keyword_error (property : string) : error :=
  Error ("The property name " ++ property ++
         " is a key word for pro objects! Objects passed to Pro.prob can not contain properties named as keyword properties.").

(** The chain of conditions of [makeProp] on the value of an own field,
    in the order of the source: null or undefined; neither function nor
    array nor object; function; array; object. *)
Section Classification.

Variables isF isA isO : value -> bool.

Definition is_nullish (v : value) : bool :=
  match v with VNull | VUndefined => true | _ => false end.

Definition classify_with (v : value) : option PropertyType :=
  if is_nullish v then Some NP
  else if negb (isF v) && negb (isA v) && negb (isO v) then Some P
  else if isF v then Some FP
  else if isA v then Some AP
  else if isO v then Some OP
  else None.

(** The precedence as the specification words it: null or undefined,
    then function, then array, then object, otherwise scalar. *)
Definition classify_by_precedence (v : value) : PropertyType :=
  if is_nullish v then NP
  else if isF v then FP
  else if isA v then AP
  else if isO v then OP
  else P.

End Classification.

Definition classify : value -> option PropertyType :=
  classify_with isFunction isArrayObject isObject.

(** Modelled from the spec: the constructors of the properties are not part
    of the sources at hand.  The core "owns a mapping from field name to
    Property (keys unique, insertion order = field declaration order)":
    [new P.X(object, property)] is taken to enter the new property under
    its name in [properties], where [makeProp] reads it back. *)
Definition new_Property (t : PropertyType) (property : string) : M Property :=
  let p := {| ptype := t; pname := property; change_listeners := [] |} in
  modify (fun st => set_properties (put property p (properties st)) st) >>
  ret p.

(** [makeProp(property, listeners, meta)]; [None] as result is
    [undefined]. *)
Definition makeProp (conf : Configuration) (property : string)
    (listeners : option (list nat)) (meta : option metaval) : M (option Property) :=
  if noprop meta then ret None
  else if reserved conf property then throw (keyword_error property)
  else
    let* object := gets fields in
    let* result :=
      match get property object with
      | Some v =>
          match classify v with
          | Some t => let* p := new_Property t property in ret (Some p)
          | None => ret None
          end
      | None => ret None
      end in
    match listeners with
    | Some ls =>
        let* ps := gets properties in
        match get property ps with
        | Some p =>
            let p' := {| ptype := ptype p; pname := pname p;
                         change_listeners := change_listeners p ++ ls |} in
            modify (fun st => set_properties (put property p' (properties st)) st)
        | None => throw (TypeError "Cannot read property 'listeners' of undefined")
        end
    | None => ret tt
    end >>
    (if meta_truthy meta && registry conf
     then modify (fun st =>
            set_registry_calls (registry_calls st ++ [(result, meta_tags meta)]) st)
     else ret tt) >>
    ret result.

(** [setup()]: [for (property in object)]. *)
Definition setup (conf : Configuration) : M unit :=
  let* object := gets fields in
  for_each (fst <$> object) (fun property =>
    let* meta := gets (fun st => get property (meta st)) in
    makeProp conf property None meta >> ret tt).

(** [set(property, value)] *)
Definition set (conf : Configuration) (property : string) (v : value) : M unit :=
  modify (fun st => set_fields (put property v (fields st)) st) >>
  let* ps := gets properties in
  match get property ps with
  | Some _ => ret tt
  | None => makeProp conf property None None >> ret tt
  end.

(** [value(p)]: the core itself for no name or ['*'], else the property. *)
Inductive core_value : Type :=
| TheCore
| TheProperty (p : option Property).

Definition value_of (p : option string) : M core_value :=
  match p with
  | None => ret TheCore
  | Some name =>
      if String.eqb name "" || String.eqb name "*" then ret TheCore
      else let* ps := gets properties in ret (TheProperty (get name ps))
  end.

(** Modelled from the spec: [ProAct.Core] is not part of the sources at
    hand.  Of [core.prob()] the specification says that, once the core is
    attached and the hidden reference is in place, it runs [setup()]. *)
Definition Core_prob (conf : Configuration) : M unit := setup conf.

(** [new P.OC(object, meta)]: a core without properties around the
    shell. *)
Definition new_ObjectCore (object : list (string * value))
    (meta : list (string * metaval)) : State :=
  {| fields := object; pro := false; meta := meta; properties := [];
     registry_calls := [] |}.

(** Modelled from the spec: [P.U.defValProp] is not part of the sources at
    hand.  [P.U.defValProp(object, '__pro__', false, false, false, core)]
    is what "exposes a hidden non-enumerable back-reference field from the
    shell to its Core". *)
Definition defValProp_pro : M unit := modify (set_pro true).

(** ** ProAct.prob *)

(** What [ProAct.prob] returns: a [P.V] around a value, a [P.A] around an
    array, or the object it was given. *)
Inductive reactive : Type :=
| Val (v : value) (meta : list (string * metaval))
| ProArray (items : list value)
| TheObject.

Definition is_null (v : value) : bool :=
  match v with VNull => true | _ => false end.

(** [ProAct.prob(object, meta)].  Next to the outcome stands the state of
    the shell and of its core when a core was built; the shell belongs to
    the caller, who still holds it when [ProAct.prob] throws. *)
Definition prob (conf : Configuration) (object : value)
    (meta : list (string * metaval)) : outcome error reactive * option State :=
  if is_null object || (negb (isObject object) && negb (isArray object))
  then (Ret (Val object meta), None)
  else if isArray object
  then (Ret (ProArray (match object with VArray items => items | _ => [] end)), None)
  else
    let core := new_ObjectCore
                  (match object with VObject fs => fs | _ => [] end) meta in
    let (o, st) := (defValProp_pro >> Core_prob conf >> ret TheObject) core in
    (o, Some st).

(** ** Vocabulary of the statements *)

(** The body of the loop of [setup]. *)
Definition setup_body (conf : Configuration) (property : string) : M unit :=
  let* meta := gets (fun st => get property (meta st)) in
  makeProp conf property None meta >> ret tt.

(** [{a: null, b: 5, c: () => {}, d: [], e: {}}] *)
Definition shell_example : value :=
  VObject [("a", VNull); ("b", VNum 5); ("c", VFunction 0);
           ("d", VArray []); ("e", VObject [])]%string.

(** Keyword protection on, [p] reserved, no registry. *)
Definition keyword_conf : Configuration :=
  {| keyprops := true; keypropList := ["p"%string]; registry := false |}.

(** ** More vocabulary of the statements *)

(** The property that [makeProp] builds for the field [k] holding [v]. *)
Definition property_for (k : string) (v : value) : Property :=
  {| ptype := classify_by_precedence isFunction isArrayObject isObject v;
     pname := k; change_listeners := [] |}.

(** The fields that [setup] turns into properties, and those for which
    it calls the registry. *)
Definition materialized (meta : list (string * metaval))
    (kv : string * value) : bool :=
  negb (noprop (get kv.1 meta)).

Definition tagged (meta : list (string * metaval))
    (kv : string * value) : bool :=
  negb (noprop (get kv.1 meta)) && meta_truthy (get kv.1 meta).

(** The properties of the core are those of fields of the shell [fs] that
    are neither tagged [noprop] nor reserved, each of the type of the
    value of its field. *)
Definition sound (conf : Configuration) (fs : list (string * value))
    (meta0 : list (string * metaval)) (st : State) : Prop :=
  fields st = fs /\ meta st = meta0 /\
  forall k p, get k (properties st) = Some p ->
    noprop (get k meta0) = false /\ reserved conf k = false /\
    exists v, get k fs = Some v /\ p = property_for k v.

(** [name] is a name that [value] answers with the core itself. *)
Definition names_the_core (name : string) : bool :=
  String.eqb name "" || String.eqb name "*".

(** No keyword protection, a registry. *)
Definition registry_conf : Configuration :=
  {| keyprops := false; keypropList := []; registry := true |}.

(** [{a: 1, b: 2, c: 3}] with [b] tagged ['noprop'] and [c] tagged
    ['lazy']. *)
Definition tagged_shell : list (string * value) :=
  [("a", VNum 1); ("b", VNum 2); ("c", VNum 3)]%string.

Definition tagged_meta : list (string * metaval) :=
  [("b", MStr "noprop"); ("c", MStr "lazy")]%string.

End ObjectCore.

(* ===================================================================== *)
(** * Properties                                                          *)
(* ===================================================================== *)

(** ** Stepping through a computation *)

Lemma bind_Ret {S E A B} (m : JS S E A) (k : A → JS S E B) st a st' :
  m st = (Ret a, st') → bind m k st = k a st'.
Proof. unfold bind. by intros ->. Qed.

Lemma bind_modify {S E B} (f : S → S) (k : unit → JS S E B) st :
  bind (modify f) k st = k tt (f st).
Proof. done. Qed.

Lemma bind_gets {S E A B} (f : S → A) (k : A → JS S E B) st :
  bind (gets f) k st = k (f st) st.
Proof. done. Qed.

Lemma bind_Ret_inv {S E A B} (m : JS S E A) (k : A → JS S E B) st b st' :
  bind m k st = (Ret b, st') →
  ∃ a st1, m st = (Ret a, st1) ∧ k a st1 = (Ret b, st').
Proof.
  unfold bind. destruct (m st) as [[a|e|] st1]; intros H; try done.
  by exists a, st1.
Qed.

Lemma for_each_app {S E A} (l1 l2 : list A) (body : A → JS S E unit) st :
  for_each (l1 ++ l2) body st =
  match for_each l1 body st with
  | (Ret _, st1) => for_each l2 body st1
  | other => other
  end.
Proof.
  revert st. induction l1 as [|x l1 IH]; intros st; simpl.
  - done.
  - unfold bind. destruct (body x st) as [[[]|e|] st1]; try done.
Qed.

Lemma for_each_Ret_mono {S E A} (l : list A) (body1 body2 : A → JS S E unit) :
  (∀ x st st', body1 x st = (Ret tt, st') → body2 x st = (Ret tt, st')) →
  ∀ st st', for_each l body1 st = (Ret tt, st') → for_each l body2 st = (Ret tt, st').
Proof.
  intros Hb. induction l as [|x l IH]; intros st st' Hrun; [done|].
  cbn [for_each] in *.
  apply bind_Ret_inv in Hrun as ([] & st1 & H1 & H2).
  erewrite bind_Ret by (apply Hb; exact H1). by apply IH.
Qed.

Module ReactiveFacts.

Import Reactive.

(** ** The heap *)

Lemma alter_ge {A} (f : A → A) (l : list A) i :
  length l ≤ i → alter f i l = l.
Proof.
  revert i. induction l as [|x l IH]; intros [|i] H; simpl in *; try done; try lia.
  f_equal. apply IH. lia.
Qed.

Lemma obs_upd_obs_eq n f st :
  n < length (heap st) → obs (upd_obs n f st) n = f (obs st n).
Proof. intros H. unfold obs, upd_obs; simpl. by apply list_lookup_total_alter_eq. Qed.

Lemma obs_upd_obs_ne n m f st :
  n ≠ m → obs (upd_obs n f st) m = obs st m.
Proof. intros H. unfold obs, upd_obs; simpl. by apply list_lookup_total_alter_ne. Qed.

Lemma obs_upd_obs n f st m :
  obs (upd_obs n f st) m =
  if decide (n = m ∧ n < length (heap st)) then f (obs st n) else obs st m.
Proof.
  case_decide as H.
  - destruct H as [-> H]. by apply obs_upd_obs_eq.
  - destruct (decide (n = m)) as [->|Hne].
    + unfold obs, upd_obs; simpl.
      by rewrite alter_ge by lia.
    + by apply obs_upd_obs_ne.
Qed.

Lemma obs_upd_obs_field {A} (P : Observable → A) n f st m :
  (∀ o, P (f o) = P o) → P (obs (upd_obs n f st) m) = P (obs st m).
Proof.
  intros Hf. rewrite obs_upd_obs. case_decide as H; [|done].
  destruct H as [-> _]. apply Hf.
Qed.

Lemma length_heap_upd_obs n f st : length (heap (upd_obs n f st)) = length (heap st).
Proof. unfold upd_obs; simpl. apply length_alter. Qed.

(** ** Listener arrays *)

Lemma array_get_set a b l st :
  array_get a (array_set b l st) =
  if decide (a = b ∧ ref_node b < length (heap st)) then l else array_get a st.
Proof.
  destruct (decide (a = b ∧ ref_node b < length (heap st))) as [[-> Hb]|Hne].
  - destruct b; simpl in *; by rewrite obs_upd_obs_eq.
  - destruct a as [n|n], b as [m|m]; simpl in *; rewrite obs_upd_obs;
      case_decide as Hd; try done;
      destruct Hd as [-> Hd]; try done; exfalso; apply Hne; by split.
Qed.

Lemma array_get_set_eq a l st :
  ref_node a < length (heap st) → array_get a (array_set a l st) = l.
Proof. intros H. rewrite array_get_set. case_decide; intuition congruence. Qed.

Lemma array_get_set_ne a b l st :
  a ≠ b → array_get a (array_set b l st) = array_get a st.
Proof. intros H. rewrite array_get_set. case_decide; intuition congruence. Qed.

Lemma array_get_default a st :
  length (heap st) ≤ ref_node a → array_get a st = [].
Proof.
  intros H. destruct a; simpl in *; unfold obs;
    rewrite list_lookup_total_alt, lookup_ge_None_2 by done; done.
Qed.

Lemma array_set_field {A} (P : Observable → A) a l st m :
  (∀ o l', P (set_listeners l' o) = P o) →
  (∀ o l', P (set_errListeners l' o) = P o) →
  P (obs (array_set a l st) m) = P (obs st m).
Proof.
  intros H1 H2. destruct a; simpl; apply obs_upd_obs_field; auto.
Qed.

Lemma length_heap_array_set a l st :
  length (heap (array_set a l st)) = length (heap st).
Proof. destruct a; apply length_heap_upd_obs. Qed.

Lemma array_get_upd_sources a n f st :
  array_get a (upd_obs n (λ o, set_sources (f o) o) st) = array_get a st.
Proof. destruct a; simpl; by apply obs_upd_obs_field. Qed.

(** ** Removal *)

Section Removal.

Context {A : Type} `{EqDecision A}.

Lemma U_remove_subset (l : list A) x z :
  z ∈ U_remove l x → z ∈ l.
Proof.
  induction l as [|y l IH]; simpl; [done|].
  case_decide; intros Hz.
  - by apply list_elem_of_further.
  - apply elem_of_cons in Hz as [->|Hz]; [apply list_elem_of_here|].
    apply list_elem_of_further; auto.
Qed.

Lemma U_remove_fresh (l : list A) x :
  x ∉ l → U_remove l x = l.
Proof.
  induction l as [|y l IH]; simpl; [done|]. intros Hx.
  apply not_elem_of_cons in Hx as [Hne Hx].
  case_decide; [congruence|]. by rewrite IH.
Qed.

Lemma U_remove_app_fresh (l : list A) x :
  x ∉ l → U_remove (l ++ [x]) x = l.
Proof.
  induction l as [|y l IH]; simpl; intros Hx.
  - by case_decide.
  - apply not_elem_of_cons in Hx as [Hne Hx].
    case_decide; [congruence|]. by rewrite IH.
Qed.

Lemma U_remove_app_not_in (l : list A) x y :
  x ∉ l → x ∉ U_remove (l ++ [y]) x.
Proof.
  intros Hx. destruct (decide (y = x)) as [->|Hne].
  - by rewrite U_remove_app_fresh.
  - intros Hin%U_remove_subset. apply elem_of_app in Hin as [Hin|Hin]; [done|].
    apply list_elem_of_singleton in Hin. congruence.
Qed.

Lemma U_remove_all_app_fresh (l : list A) x :
  x ∉ l → U_remove_all (l ++ [x]) x = l.
Proof.
  induction l as [|y l IH]; simpl; intros Hx.
  - by case_decide.
  - apply not_elem_of_cons in Hx as [Hne Hx].
    case_decide; [congruence|]. by rewrite IH.
Qed.

Lemma U_remove_all_gone (l : list A) x :
  x ∉ U_remove_all l x.
Proof.
  induction l as [|y l IH]; simpl; [apply not_elem_of_nil|].
  case_decide; [done|]. apply not_elem_of_cons. split; [congruence|done].
Qed.

(** Under the other reading of [Pro.U.remove] the fresh edge goes all the
    same. *)
Lemma U_remove_readings_agree (l : list A) x :
  x ∉ l → U_remove (l ++ [x]) x = l ∧ U_remove_all (l ++ [x]) x = l.
Proof.
  intros Hx. split; [by apply U_remove_app_fresh|by apply U_remove_all_app_fresh].
Qed.

End Removal.

(** ** [on], [off] and the edges *)

Lemma on_Cb n c callbacks st :
  on n (Cb c) Undefined callbacks st =
  (Ret tt, let a := default (ListenersOf n) callbacks in
           array_set a (array_get a st ++ [c]) st).
Proof. unfold on. destruct callbacks; reflexivity. Qed.

Lemma off_Cb n c callbacks st :
  off n (Cb c) Undefined callbacks st =
  (Ret tt, off_state c (default (ListenersOf n) callbacks) st).
Proof.
  unfold off, off_state. simpl. rewrite andb_true_r.
  destruct (cb_falsy c), callbacks; reflexivity.
Qed.

Lemma off_state_field {A} (P : Observable → A) c a st m :
  (∀ o l', P (set_listeners l' o) = P o) →
  (∀ o l', P (set_errListeners l' o) = P o) →
  P (obs (off_state c a st) m) = P (obs st m).
Proof.
  intros H1 H2. unfold off_state. destruct (cb_falsy c); by apply array_set_field.
Qed.

Lemma length_heap_off_state c a st :
  length (heap (off_state c a st)) = length (heap st).
Proof. unfold off_state. destruct (cb_falsy c); apply length_heap_array_set. Qed.

Lemma array_get_off_state_other a b c st :
  a ≠ b → array_get a (off_state c b st) = array_get a st.
Proof.
  intros H. unfold off_state. destruct (cb_falsy c); rewrite array_get_set;
    case_decide; intuition congruence.
Qed.

Lemma array_get_off_state_falsy a c st :
  cb_falsy c = true → array_get a (off_state c a st) = [].
Proof.
  intros H. unfold off_state. rewrite H, array_get_set.
  case_decide as Hd; [done|].
  apply array_get_default. destruct (decide (ref_node a < length (heap st))); [|lia].
  exfalso. auto.
Qed.

Lemma array_get_off_state_eq a c st :
  ref_node a < length (heap st) →
  array_get a (off_state c a st) =
  if cb_falsy c then [] else U_remove (array_get a st) c.
Proof.
  intros H. unfold off_state. destruct (cb_falsy c); by rewrite array_get_set_eq.
Qed.

Lemma offSource_run n s st :
  offSource n s st =
  (Ret tt,
   off_state (errListener (obs st n)) (ErrListenersOf s)
     (off_state (listener (obs st n)) (ListenersOf s)
        (upd_obs n (λ o, set_sources (U_remove (sources o) s) o) st))).
Proof.
  unfold offSource, offErr, bind, modify, gets. simpl.
  rewrite off_Cb. simpl. rewrite off_Cb. simpl.
  rewrite (off_state_field errListener) by done.
  rewrite (obs_upd_obs_field listener), (obs_upd_obs_field errListener) by done.
  done.
Qed.

Lemma makeListener_run n st :
  makeListener n st =
  (Ret (match okind (obs st n) with
        | ObservableKind => Null
        | StreamKind => listener (obs (makeListener_state n st) n)
        end), makeListener_state n st).
Proof.
  unfold makeListener, makeListener_state, bind, gets, modify, ret. simpl.
  destruct (okind (obs st n)); [done|].
  destruct (cb_falsy (listener (obs st n))); done.
Qed.

Lemma makeErrListener_run n st :
  makeErrListener n st =
  (Ret (match okind (obs st n) with
        | ObservableKind => Null
        | StreamKind => errListener (obs (makeErrListener_state n st) n)
        end), makeErrListener_state n st).
Proof.
  unfold makeErrListener, makeErrListener_state, bind, gets, modify, ret. simpl.
  destruct (okind (obs st n)); [done|].
  destruct (cb_falsy (errListener (obs st n))); done.
Qed.

Lemma makeListener_state_field {A} (P : Observable → A) n st m :
  (∀ o c, P (set_listener c o) = P o) →
  P (obs (makeListener_state n st) m) = P (obs st m).
Proof.
  intros H. unfold makeListener_state.
  destruct (okind (obs st n)); [done|].
  destruct (cb_falsy _); [|done]. by apply obs_upd_obs_field.
Qed.

Lemma makeErrListener_state_field {A} (P : Observable → A) n st m :
  (∀ o c, P (set_errListener c o) = P o) →
  P (obs (makeErrListener_state n st) m) = P (obs st m).
Proof.
  intros H. unfold makeErrListener_state.
  destruct (okind (obs st n)); [done|].
  destruct (cb_falsy _); [|done]. by apply obs_upd_obs_field.
Qed.

Lemma length_heap_makeListener_state n st :
  length (heap (makeListener_state n st)) = length (heap st).
Proof.
  unfold makeListener_state. destruct (okind _); [done|].
  destruct (cb_falsy _); [apply length_heap_upd_obs|done].
Qed.

Lemma length_heap_makeErrListener_state n st :
  length (heap (makeErrListener_state n st)) = length (heap st).
Proof.
  unfold makeErrListener_state. destruct (okind _); [done|].
  destruct (cb_falsy _); [apply length_heap_upd_obs|done].
Qed.

Lemma array_get_makeListener_state a n st :
  array_get a (makeListener_state n st) = array_get a st.
Proof. destruct a; simpl; by apply makeListener_state_field. Qed.

Lemma array_get_makeErrListener_state a n st :
  array_get a (makeErrListener_state n st) = array_get a st.
Proof. destruct a; simpl; by apply makeErrListener_state_field. Qed.

Lemma into_single_run n s st :
  into n [s] st = (Ret tt, into_state n s st).
Proof.
  unfold into, into_state, onErr. cbn [for_each].
  rewrite (bind_Ret _ _ st tt (into_state n s st)); [done|].
  rewrite bind_modify.
  erewrite bind_Ret by apply makeListener_run.
  erewrite bind_Ret by apply on_Cb.
  erewrite bind_Ret by apply makeErrListener_run.
  rewrite on_Cb. done.
Qed.

Lemma length_heap_into_state n s st :
  length (heap (into_state n s st)) = length (heap st).
Proof.
  unfold into_state.
  rewrite length_heap_array_set, length_heap_makeErrListener_state,
    length_heap_array_set, length_heap_makeListener_state.
  apply length_heap_upd_obs.
Qed.

Lemma into_state_sources n s st :
  n < length (heap st) →
  sources (obs (into_state n s st) n) = sources (obs st n) ++ [s].
Proof.
  intros Hn. unfold into_state.
  rewrite (array_set_field sources) by done.
  rewrite (makeErrListener_state_field sources) by done.
  rewrite (array_set_field sources) by done.
  rewrite (makeListener_state_field sources) by done.
  by rewrite obs_upd_obs_eq.
Qed.

Lemma into_state_listeners n s st :
  s < length (heap st) →
  ∃ l, listeners (obs (into_state n s st) s) = listeners (obs st s) ++ [l].
Proof.
  intros Hs. unfold into_state. eexists.
  change (listeners (obs ?st' s)) with (array_get (ListenersOf s) st').
  rewrite array_get_set_ne by done.
  rewrite array_get_makeErrListener_state.
  rewrite array_get_set_eq
    by (cbn [ref_node]; by rewrite length_heap_makeListener_state, length_heap_upd_obs).
  by rewrite array_get_makeListener_state, array_get_upd_sources.
Qed.

Lemma into_state_errListeners n s st :
  s < length (heap st) →
  ∃ e, errListeners (obs (into_state n s st) s) = errListeners (obs st s) ++ [e].
Proof.
  intros Hs. unfold into_state. eexists.
  change (errListeners (obs ?st' s)) with (array_get (ErrListenersOf s) st').
  rewrite array_get_set_eq
    by (cbn [ref_node]; by rewrite length_heap_makeErrListener_state,
          length_heap_array_set, length_heap_makeListener_state,
          length_heap_upd_obs).
  rewrite array_get_makeErrListener_state.
  rewrite array_get_set_ne by done.
  by rewrite array_get_makeListener_state, array_get_upd_sources.
Qed.

(** ** The queue *)

Lemma queued_app c q1 q2 : queued c (q1 ++ q2) = queued c q1 + queued c q2.
Proof.
  induction q1 as [|[c' e'] q1 IH]; simpl; [done|]. rewrite IH. lia.
Qed.

Lemma queued_pushOnce c q event :
  queued c (queue_pushOnce q c event) = Nat.max 1 (queued c q).
Proof.
  induction q as [|[c' e'] q IH]; simpl.
  - case_decide; [done|congruence].
  - case_decide as Hc; simpl; case_decide; try congruence; [lia|].
    rewrite IH. done.
Qed.

Lemma Observable_defer_run event c st :
  cb_falsy c = false →
  Observable_defer event c st =
  (Ret tt, set_queue (queue_pushOnce (flow_queue st) c event) st).
Proof.
  intros Hc. unfold Observable_defer. rewrite Hc.
  by destruct (isFunction c).
Qed.

Lemma Stream_defer_run event c st :
  cb_falsy c = false →
  Stream_defer event c st =
  (Ret tt,
   match property_of c with
   | Some _ => set_queue (queue_pushOnce (flow_queue st) c event) st
   | None => set_queue (flow_queue st ++ [(c, event)]) st
   end).
Proof.
  intros Hc. unfold Stream_defer. rewrite Hc.
  destruct (property_of c).
  - by apply Observable_defer_run.
  - by destruct (isFunction c).
Qed.

Lemma defer_run n event c st :
  cb_falsy c = false →
  defer n event c st =
  (Ret tt,
   set_queue (enqueue (okind (obs st n)) event (flow_queue st) c)
     (set_trace (trace st ++ [Defer n event c]) st)).
Proof.
  intros Hc. unfold defer, enqueue. rewrite bind_modify, bind_gets.
  change (okind (obs (set_trace ?t st) n)) with (okind (obs st n)).
  destruct (okind (obs st n)).
  - rewrite Observable_defer_run by done. done.
  - rewrite Stream_defer_run by done. by destruct (property_of c).
Qed.

Lemma makeEvent_run n source st :
  makeEvent n source st =
  (Ret (event_of (okind (obs st n)) n source (events st)),
   set_trace (trace st ++
     [MakeEvent n source (event_of (okind (obs st n)) n source (events st))])
     (set_events (events_after (okind (obs st n)) (events st)) st)).
Proof.
  unfold makeEvent. rewrite bind_gets.
  destruct (okind (obs st n)); [done|]. by destruct st.
Qed.

Lemma fold_enqueue_stream event l :
  Forall plain l →
  ∀ q, fold_left (enqueue StreamKind event) l q = q ++ ((λ c, (c, event)) <$> l).
Proof.
  induction 1 as [|c l [_ Hc] _ IH]; intros q; simpl.
  - by rewrite app_nil_r.
  - rewrite IH. unfold enqueue. rewrite Hc. by rewrite <- app_assoc.
Qed.

(** ** What a round leaves alone *)

Lemma frame_refl st : frame st st.
Proof. repeat split. exists []. by rewrite app_nil_r. Qed.

Lemma frame_trans st1 st2 st3 : frame st1 st2 → frame st2 st3 → frame st1 st3.
Proof.
  intros (H1 & H2 & H3 & H4 & H5 & t1 & H6) (G1 & G2 & G3 & G4 & G5 & t2 & G6).
  repeat split; try congruence.
  exists (t1 ++ t2). by rewrite G6, H6, app_assoc.
Qed.

Lemma framed_ret {A} (a : A) : framed (ret a).
Proof. intros st. apply frame_refl. Qed.

Lemma framed_throw {A} e : framed (throw e : M A).
Proof. intros st. apply frame_refl. Qed.

Lemma framed_out_of_fuel {A} : framed (out_of_fuel : M A).
Proof. intros st. apply frame_refl. Qed.

Lemma framed_gets {A} (f : State → A) : framed (gets f).
Proof. intros st. apply frame_refl. Qed.

Lemma framed_bind {A B} (m : M A) (k : A → M B) :
  framed m → (∀ a, framed (k a)) → framed (bind m k).
Proof.
  intros Hm Hk st. unfold bind. specialize (Hm st).
  destruct (m st) as [[a|e|] st']; simpl in *; try done.
  eapply frame_trans; [done|]. apply Hk.
Qed.

Lemma framed_for_each {A} (l : list A) (body : A → M unit) :
  (∀ x, framed (body x)) → framed (for_each l body).
Proof.
  intros Hb. induction l as [|x l IH]; simpl.
  - apply framed_ret.
  - apply framed_bind; [apply Hb|]. by intros _.
Qed.

Lemma framed_set_trace t : framed (modify (λ st, set_trace (trace st ++ t) st)).
Proof. intros st. repeat split. by exists t. Qed.

Lemma framed_set_events e : framed (modify (set_events e)).
Proof. intros st. repeat split. exists []. by rewrite app_nil_r. Qed.

Lemma framed_set_queue (f : State → list (callback * value)) :
  framed (modify (λ st, set_queue (f st) st)).
Proof. intros st. repeat split. exists []. by rewrite app_nil_r. Qed.

Lemma framed_flow_push c event : framed (flow_push c event).
Proof. apply (framed_set_queue (λ st, flow_queue st ++ [(c, event)])). Qed.

Lemma framed_flow_pushOnce c event : framed (flow_pushOnce c event).
Proof. apply (framed_set_queue (λ st, queue_pushOnce (flow_queue st) c event)). Qed.

Create HintDb framed discriminated.

#[local] Hint Resolve framed_ret framed_throw framed_out_of_fuel framed_gets
  framed_set_trace framed_set_events framed_flow_push framed_flow_pushOnce
  : framed.

(** One step through a computation built from [bind], [for_each] and case
    distinctions. *)
Ltac framed_step :=
  lazymatch goal with
  | |- framed (bind _ _) => apply framed_bind; [|intros ?]
  | |- framed (for_each _ _) => apply framed_for_each; intros ?
  | |- framed (match ?x with _ => _ end) => destruct x
  | |- framed _ => solve [eauto with framed]
  end.

Ltac solve_framed := repeat framed_step.

Lemma framed_makeEvent n source : framed (makeEvent n source).
Proof. unfold makeEvent. solve_framed. Qed.

Lemma framed_Observable_defer event c : framed (Observable_defer event c).
Proof. unfold Observable_defer. solve_framed. Qed.

#[local] Hint Resolve framed_makeEvent framed_Observable_defer : framed.

Lemma framed_Stream_defer event c : framed (Stream_defer event c).
Proof. unfold Stream_defer. solve_framed. Qed.

#[local] Hint Resolve framed_Stream_defer : framed.

Lemma framed_defer n event c : framed (defer n event c).
Proof. unfold defer. solve_framed. Qed.

#[local] Hint Resolve framed_defer : framed.

Lemma framed_willUpdate fuel n source callbacks :
  framed (willUpdate fuel n source callbacks).
Proof.
  revert n source callbacks.
  induction fuel as [|fuel IH]; intros n source callbacks; cbn [willUpdate];
    solve_framed.
Qed.

Lemma array_get_frame a st st' : frame st st' → array_get a st' = array_get a st.
Proof. intros (H & _). destruct a; simpl; unfold obs; by rewrite H. Qed.

Lemma obs_frame st st' n : frame st st' → obs st' n = obs st n.
Proof. intros (H & _). unfold obs. by rewrite H. Qed.

(** ** One round of [willUpdate] *)

Lemma defer_trace n event c st :
  trace (snd (defer n event c st)) = trace st ++ [Defer n event c].
Proof.
  unfold defer. rewrite bind_modify, bind_gets.
  set (st1 := set_trace (trace st ++ [Defer n event c]) st).
  change (trace st ++ [Defer n event c]) with (trace st1).
  destruct (okind (obs st1 n)).
  - unfold Observable_defer. destruct (isFunction c); [done|].
    by destruct (cb_falsy c).
  - unfold Stream_defer. destruct (cb_falsy c) eqn:Hc; [done|].
    destruct (property_of c).
    + unfold Observable_defer. destruct (isFunction c); [done|]. by rewrite Hc.
    + by destruct (isFunction c).
Qed.

Lemma makeEvent_trace n source st :
  ∃ event, fst (makeEvent n source st) = Ret event ∧
    trace (snd (makeEvent n source st)) = trace st ++ [MakeEvent n source event].
Proof.
  unfold makeEvent. rewrite bind_gets. destruct (okind (obs st n)).
  - exists (VEvent (events st) source n). done.
  - exists source. done.
Qed.

Lemma willUpdate_loop fuel n target event snap m :
  ∀ k st st',
  k + m = length snap →
  array_get target st = snap →
  for_each (seq k m) (λ i,
    let* listener := array_read target i in
    defer n event listener >>
    match property_of listener with
    | Some p => willUpdate fuel p event None
    | None => ret tt
    end) st = (Ret tt, st') →
  ∃ nested,
    length nested = m ∧
    Forall2 (λ c t, property_of c = None → t = []) (drop k snap) nested ∧
    trace st' = trace st ++ round_calls n event (drop k snap) nested ∧
    frame st st'.
Proof.
  induction m as [|m IH]; intros k st st' Hk Hsnap Hrun.
  - simpl in Hrun. injection Hrun as <-. exists []. split; [done|].
    rewrite drop_ge by lia. split; [constructor|].
    split; [by rewrite app_nil_r|apply frame_refl].
  - cbn [seq for_each] in Hrun.
    apply bind_Ret_inv in Hrun as ([] & st3 & Hbody & Hrest).
    apply bind_Ret_inv in Hbody as (c & st0 & Hread & Hbody).
    unfold array_read, gets in Hread. injection Hread as <- <-.
    rewrite Hsnap in Hbody.
    destruct (snap !! k) as [c|] eqn:Hc;
      [|apply lookup_ge_None_1 in Hc; lia].
    simpl in Hbody.
    apply bind_Ret_inv in Hbody as ([] & st1 & Hdefer & Hnested).
    assert (Hf1 : frame st st1).
    { pose proof (framed_defer n event c st) as H. by rewrite Hdefer in H. }
    assert (Ht1 : trace st1 = trace st ++ [Defer n event c]).
    { pose proof (defer_trace n event c st) as H. by rewrite Hdefer in H. }
    assert (Hf2 : frame st1 st3 ∧ (property_of c = None → st3 = st1)).
    { destruct (property_of c) as [p|].
      - split; [|done].
        pose proof (framed_willUpdate fuel p event None st1) as H.
        by rewrite Hnested in H.
      - injection Hnested as <-. split; [apply frame_refl|done]. }
    destruct Hf2 as [Hf2 Hnone].
    destruct (IH (S k) st3 st') as (nested & Hlen & Hall & Htr & Hf3);
      [lia| |done|].
    { rewrite <- Hsnap. apply array_get_frame. by eapply frame_trans. }
    destruct Hf2 as (G1 & G2 & G3 & G4 & G5 & t & G6).
    exists (t :: nested). split; [simpl; lia|].
    rewrite (drop_S _ _ _ Hc). split; [|split].
    + constructor; [|done]. intros Hp. specialize (Hnone Hp). subst st3.
      assert (trace st1 ++ [] = trace st1 ++ t) as Heq by (by rewrite app_nil_r).
      by apply app_inv_head in Heq.
    + rewrite Htr, G6, Ht1. unfold round_calls. simpl.
      by rewrite <- !app_assoc.
    + eapply frame_trans; [apply Hf1|]. eapply frame_trans; [|apply Hf3].
      repeat split; try done. by exists t.
Qed.

Lemma willUpdate_round fuel n source callbacks st st' :
  willUpdate fuel n source callbacks st = (Ret tt, st') →
  ∃ event nested,
    fst (makeEvent n source st) = Ret event ∧
    length nested = length (array_get (target_of n callbacks) st) ∧
    Forall2 (λ c t, property_of c = None → t = [])
      (array_get (target_of n callbacks) st) nested ∧
    trace st' =
      trace st ++
        MakeEvent n source event ::
        round_calls n event (array_get (target_of n callbacks) st) nested ++
        parent_call n event (parent (obs st n)) ∧
    heap st' = heap st.
Proof.
  destruct fuel as [|fuel]; [done|]. cbn [willUpdate]. intros Hrun.
  rewrite bind_gets in Hrun.
  apply bind_Ret_inv in Hrun as (event & st1 & Hev & Hrun).
  destruct (makeEvent_trace n source st) as (event' & Hev1 & Hev2).
  rewrite Hev in Hev1, Hev2. simpl in Hev1, Hev2. injection Hev1 as <-.
  assert (Hf1 : frame st st1).
  { pose proof (framed_makeEvent n source st) as H. by rewrite Hev in H. }
  apply bind_Ret_inv in Hrun as ([] & st2 & Hloop & Hpar).
  change (match callbacks with Some a => a | None => ListenersOf n end)
    with (target_of n callbacks) in Hloop.
  eapply (willUpdate_loop fuel n (target_of n callbacks) event
            (array_get (target_of n callbacks) st)) in Hloop as
    (nested & Hlen & Hall & Htr & Hf2); [|lia|by apply array_get_frame].
  rewrite drop_0 in Hall, Htr.
  rewrite bind_gets in Hpar.
  rewrite (obs_frame st st2) in Hpar by (by eapply frame_trans).
  exists event, nested. rewrite Hev. split; [done|]. split; [done|].
  split; [done|]. split.
  - unfold parent_call. destruct (cb_falsy (parent (obs st n))); simpl in Hpar.
    + injection Hpar as <-. rewrite Htr, Hev2, app_nil_r.
      by rewrite <- app_assoc.
    + pose proof (defer_trace n event (parent (obs st n)) st2) as H.
      rewrite Hpar in H. simpl in H. rewrite H, Htr, Hev2.
      by rewrite <- !app_assoc.
  - assert (frame st st') as (H & _); [|done].
    eapply frame_trans; [apply Hf1|]. eapply frame_trans; [apply Hf2|].
    destruct (negb (cb_falsy (parent (obs st n)))).
    + pose proof (framed_defer n event (parent (obs st n)) st2) as H.
      by rewrite Hpar in H.
    + injection Hpar as <-. apply frame_refl.
Qed.

(** A round that returns does so with any larger fuel, in the same
    state. *)
Lemma willUpdate_fuel_mono fuel :
  ∀ fuel' n source callbacks st st',
  fuel ≤ fuel' →
  willUpdate fuel n source callbacks st = (Ret tt, st') →
  willUpdate fuel' n source callbacks st = (Ret tt, st').
Proof.
  induction fuel as [|fuel IH]; intros fuel' n source callbacks st st' Hle Hrun;
    [done|].
  destruct fuel' as [|fuel']; [lia|]. cbn [willUpdate] in *.
  rewrite bind_gets in *.
  apply bind_Ret_inv in Hrun as (event & st1 & Hev & Hrun).
  erewrite bind_Ret by exact Hev.
  apply bind_Ret_inv in Hrun as ([] & st2 & Hloop & Hpar).
  erewrite bind_Ret; [exact Hpar|].
  revert Hloop. apply for_each_Ret_mono. clear -IH Hle.
  intros i st st' Hbody.
  apply bind_Ret_inv in Hbody as (c & st0 & Hread & Hbody).
  erewrite bind_Ret by exact Hread.
  apply bind_Ret_inv in Hbody as ([] & st1 & Hdefer & Hnested).
  erewrite bind_Ret by exact Hdefer.
  destruct (property_of c); [|done]. apply IH; [lia|done].
Qed.

Lemma willUpdate_loop_plain fuel n target event snap m :
  ∀ k st,
  k + m = length snap →
  array_get target st = snap →
  Forall plain (drop k snap) →
  for_each (seq k m) (λ i,
    let* listener := array_read target i in
    defer n event listener >>
    match property_of listener with
    | Some p => willUpdate fuel p event None
    | None => ret tt
    end) st =
  (Ret tt,
   set_queue (fold_left (enqueue (okind (obs st n)) event) (drop k snap)
                (flow_queue st))
     (set_trace (trace st ++ (Defer n event <$> drop k snap)) st)).
Proof.
  induction m as [|m IH]; intros k st Hk Hsnap Hplain.
  - rewrite drop_ge by lia. simpl. unfold ret. f_equal.
    destruct st; unfold set_queue, set_trace; simpl. by rewrite app_nil_r.
  - destruct (snap !! k) as [c|] eqn:Hc;
      [|apply lookup_ge_None_1 in Hc; lia].
    rewrite (drop_S _ _ _ Hc) in Hplain |- *.
    apply Forall_cons in Hplain as [[Hc1 Hc2] Hplain].
    cbn [seq for_each].
    erewrite bind_Ret; cycle 1.
    { unfold array_read. rewrite bind_gets, Hsnap, Hc. simpl.
      erewrite bind_Ret by (by apply defer_run). rewrite Hc2. done. }
    rewrite IH; [|lia|done|done].
    simpl. f_equal. unfold set_queue, set_trace; simpl.
    by rewrite <- app_assoc.
Qed.

Lemma willUpdate_plain fuel n source callbacks st :
  Forall plain (array_get (target_of n callbacks) st) →
  let k := okind (obs st n) in
  let event := event_of k n source (events st) in
  let called := array_get (target_of n callbacks) st ++ parent_list (parent (obs st n)) in
  willUpdate (S fuel) n source callbacks st =
  (Ret tt,
   set_queue (fold_left (enqueue k event) called (flow_queue st))
     (set_trace (trace st ++ MakeEvent n source event :: (Defer n event <$> called))
        (set_events (events_after k (events st)) st))).
Proof.
  intros Hplain k event called. cbn [willUpdate].
  rewrite bind_gets.
  erewrite bind_Ret by apply makeEvent_run.
  change (match callbacks with Some a => a | None => ListenersOf n end)
    with (target_of n callbacks).
  erewrite bind_Ret; cycle 1.
  { apply (willUpdate_loop_plain fuel n (target_of n callbacks) _
             (array_get (target_of n callbacks) st)); [lia| |by rewrite drop_0].
    by destruct (target_of n callbacks). }
  rewrite drop_0, bind_gets. simpl.
  change (obs (set_queue ?q (set_trace ?t (set_trace ?t' (set_events ?e st)))) n)
    with (obs st n).
  subst called. unfold parent_list.
  destruct (cb_falsy (parent (obs st n))) eqn:Hp; simpl.
  - unfold ret. f_equal. rewrite !app_nil_r.
    unfold set_queue, set_trace; simpl. f_equal.
    by rewrite <- app_assoc.
  - rewrite defer_run by done. f_equal.
    rewrite fold_left_app, fmap_app. simpl.
    unfold set_queue, set_trace; simpl. f_equal.
    by rewrite <- !app_assoc.
Qed.

(** ** Draining a queue of probes *)

Lemma invoke_probe d fuel c event st :
  probe st c →
  invoke_with d fuel c event st =
  (Ret tt, set_log (log st ++ [(cb_id c, event)]) st).
Proof.
  intros (id & f & p & -> & Hcode). unfold invoke_with.
  rewrite bind_modify, bind_gets. simpl. by rewrite Hcode.
Qed.

Lemma drain_probes q :
  ∀ fuel st,
  flow_queue st = q →
  Forall (λ e, probe st e.1) q →
  length q < fuel →
  drain fuel st =
  (Ret tt, set_queue [] (set_log (log st ++ ((λ e, (cb_id e.1, e.2)) <$> q)) st)).
Proof.
  induction q as [|[c event] q IH]; intros fuel st Hq Hall Hfuel.
  - destruct fuel as [|fuel]; [simpl in Hfuel; lia|]. cbn [drain].
    rewrite bind_gets, Hq. unfold ret. f_equal.
    destruct st; unfold set_queue, set_log; simpl in *.
    by rewrite app_nil_r, Hq.
  - destruct fuel as [|fuel]; [simpl in Hfuel; lia|]. cbn [drain].
    rewrite bind_gets, Hq, bind_modify.
    apply Forall_cons in Hall as [Hc Hall].
    erewrite bind_Ret by (by apply invoke_probe).
    rewrite IH; [|done|done|simpl in Hfuel; lia].
    simpl. f_equal. unfold set_queue, set_log; simpl.
    by rewrite <- app_assoc.
Qed.

Lemma update_stream_probes fuel n source callbacks st :
  okind (obs st n) = StreamKind →
  parent (obs st n) = Null →
  flow_running st = false →
  flow_queue st = [] →
  ref_node (target_of n callbacks) = n →
  Forall (λ c, plain c ∧ probe st c) (array_get (target_of n callbacks) st) →
  length (array_get (target_of n callbacks) st) < fuel →
  fst (update fuel n source callbacks st) = Ret tt ∧
  log (snd (update fuel n source callbacks st)) =
    log st ++ ((λ c, (cb_id c, source)) <$> array_get (target_of n callbacks) st) ∧
  flow_queue (snd (update fuel n source callbacks st)) = [] ∧
  flow_running (snd (update fuel n source callbacks st)) = false ∧
  heap (snd (update fuel n source callbacks st)) = heap st ∧
  cells (snd (update fuel n source callbacks st)) = cells st.
Proof.
  intros Hk Hp Hrun Hq Href Hall Hfuel.
  unfold update, update_with. rewrite bind_gets.
  destruct (_ && _) eqn:Hfast.
  - simpl. repeat split; try done.
    apply andb_prop in Hfast as [Hfast _]. apply andb_prop in Hfast as [H1 H2].
    apply Nat.eqb_eq in H1, H2.
    apply nil_length_inv in H1, H2.
    destruct callbacks as [[m|m]|]; simpl in *; subst; rewrite ?H1, ?H2;
      by rewrite app_nil_r.
  - unfold flow_isRunning. rewrite bind_gets, Hrun. cbn [negb].
    unfold flow_run, flow_isRunning. rewrite bind_gets, Hrun, bind_modify.
    destruct fuel as [|fuel]; [lia|].
    erewrite bind_Ret; cycle 1.
    { apply willUpdate_plain. eapply Forall_impl; [apply Hall|]. by intros c [H _]. }
    change (obs (set_running true st) n) with (obs st n).
    change (array_get ?a (set_running true st)) with (array_get a st).
    rewrite Hk, Hp. cbn [parent_list cb_falsy event_of events_after].
    rewrite app_nil_r.
    rewrite fold_enqueue_stream
      by (eapply Forall_impl; [apply Hall|]; by intros c [H _]).
    cbn [flow_queue set_running]. rewrite Hq. cbn [app].
    erewrite bind_Ret; cycle 1.
    { apply (drain_probes ((λ c, (c, source)) <$> array_get (target_of n callbacks) st)).
      - done.
      - apply Forall_fmap. eapply Forall_impl; [apply Hall|]. by intros c [_ H].
      - rewrite length_fmap. lia. }
    unfold modify. cbn [fst snd]. repeat split.
    cbn [log set_running set_queue set_log set_trace set_events].
    f_equal. rewrite <- list_fmap_compose. done.
Qed.

(** ** The transform pipeline *)

Lemma cells_only_refl st : cells_only st st.
Proof. by destruct st. Qed.

Lemma cells_only_trans st1 st2 st3 :
  cells_only st1 st2 → cells_only st2 st3 → cells_only st1 st3.
Proof. unfold cells_only. intros -> ->. done. Qed.

Lemma apply_transformation_cells_only t v st :
  cells_only st (snd (apply_transformation t v st)).
Proof.
  destruct t as [f|f|c f]; simpl.
  - destruct (f v); apply cells_only_refl.
  - destruct (f v) as [r|]; [destruct (truthy r)|]; apply cells_only_refl.
  - destruct (f _ v); [done|apply cells_only_refl].
Qed.

Lemma transform_loop_cells_only t :
  ∀ v st, cells_only st (snd (transform_loop t v st)).
Proof.
  induction t as [|ti t IH]; intros v st; simpl; [apply cells_only_refl|].
  unfold bind. pose proof (apply_transformation_cells_only ti v st) as H.
  destruct (apply_transformation ti v st) as [[w|e|] st1]; simpl in *; try done.
  destruct (is_BadValue w); [done|].
  eapply cells_only_trans; [done|apply IH].
Qed.

Lemma transform_loop_app pre post :
  ∀ v st w st1,
  transform_loop pre v st = (Ret w, st1) →
  is_BadValue w = false →
  transform_loop (pre ++ post) v st = transform_loop post w st1.
Proof.
  induction pre as [|ti pre IH]; intros v st w st1 Hpre Hw; simpl in *.
  - by injection Hpre as <- <-.
  - unfold bind in *.
    destruct (apply_transformation ti v st) as [[w'|e|] st']; try done.
    destruct (is_BadValue w') eqn:Hw'.
    + injection Hpre as <- <-. congruence.
    + by apply IH.
Qed.

Lemma accumulation_run n init f st :
  accumulation n init f st =
  (Ret tt,
   upd_obs n (λ o, set_transforms
                     (transforms o ++ [Accumulation (length (cells st)) f]) o)
     (set_cells (cells st ++ [init]) st)).
Proof. reflexivity. Qed.

(** ** Sums *)

Lemma summing_stream_run seed :
  ∃ st, summing_stream seed (empty_state quiet) = (Ret 0, st) ∧
        summing_at seed st ∧ log st = [].
Proof. eexists. split; [reflexivity|]. done. Qed.

Lemma summing_step fuel a z st :
  summing_at a st →
  ∃ st', trigger (S (S fuel)) 0 (VNum z) None st = (Ret tt, st') ∧
         summing_at (a + z) st' ∧
         log st' = log st ++ [(0, VNum (a + z))].
Proof.
  intros (Hh & Hc & Hr & Hq & Hcode). destruct st; simpl in *; subst.
  eexists. split; [reflexivity|]. done.
Qed.

Lemma summing_run fuel zs :
  ∀ a st,
  summing_at a st →
  ∃ st', trigger_all (S (S fuel)) 0 (VNum <$> zs) st = (Ret tt, st') ∧
         summing_at (fold_left Z.add zs a) st' ∧
         log st' = log st ++ ((λ x, (0, VNum x)) <$> running a zs).
Proof.
  induction zs as [|z zs IH]; intros a st Hst; simpl.
  - exists st. by rewrite app_nil_r.
  - destruct (summing_step fuel a z st Hst) as (st1 & Hrun & Hst1 & Hlog).
    destruct (IH (a + z)%Z st1 Hst1) as (st2 & Hrun2 & Hst2 & Hlog2).
    exists st2. unfold trigger_all in *. cbn [for_each].
    erewrite bind_Ret by done. split; [done|]. split; [done|].
    rewrite Hlog2, Hlog. by rewrite <- app_assoc.
Qed.

Lemma summing_twice_stream_run seed1 seed2 :
  ∃ st, summing_twice seed1 seed2 (empty_state quiet) = (Ret 0, st) ∧
        summing_twice_at seed1 seed2 st ∧ log st = [].
Proof. eexists. split; [reflexivity|]. done. Qed.

Lemma summing_twice_step fuel a b z st :
  summing_twice_at a b st →
  ∃ st', trigger (S (S fuel)) 0 (VNum z) None st = (Ret tt, st') ∧
         summing_twice_at (a + z) (b + (a + z)) st' ∧
         log st' = log st ++ [(0, VNum (b + (a + z)))].
Proof.
  intros (Hh & Hc & Hr & Hq & Hcode). destruct st; simpl in *; subst.
  eexists. split; [reflexivity|]. done.
Qed.

Lemma summing_twice_run fuel zs :
  ∀ a b st,
  summing_twice_at a b st →
  ∃ st', trigger_all (S (S fuel)) 0 (VNum <$> zs) st = (Ret tt, st') ∧
         summing_twice_at (fold_left Z.add zs a)
           (fold_left Z.add (running a zs) b) st' ∧
         log st' = log st ++ ((λ x, (0, VNum x)) <$> running b (running a zs)).
Proof.
  induction zs as [|z zs IH]; intros a b st Hst; simpl.
  - exists st. by rewrite app_nil_r.
  - destruct (summing_twice_step fuel a b z st Hst) as (st1 & Hrun & Hst1 & Hlog).
    destruct (IH (a + z)%Z (b + (a + z))%Z st1 Hst1)
      as (st2 & Hrun2 & Hst2 & Hlog2).
    exists st2. unfold trigger_all in *. cbn [for_each].
    erewrite bind_Ret by done. split; [done|]. split; [done|].
    rewrite Hlog2, Hlog. by rewrite <- app_assoc.
Qed.

(** ** The fast path of [update] *)

(** C10. For an observable whose [listeners] and [errListeners] are empty
    and whose [parent] is [null], [update] does nothing: it returns with
    the state it was given, so no event is built, no call of [makeEvent]
    or [defer] is recorded, nothing is queued and the flow is not
    started. *)
Theorem update_fast_path fuel n source callbacks st :
  listeners (obs st n) = [] →
  errListeners (obs st n) = [] →
  parent (obs st n) = Null →
  update fuel n source callbacks st = (Ret tt, st).
Proof.
  intros Hl He Hp.
  unfold update, update_with. rewrite bind_gets.
  by rewrite Hl, He, Hp.
Qed.

Lemma update_fast_path_witness :
  listeners (obs idle_node 0) = [] ∧
  update 0 0 (VNum 1) None idle_node = (Ret tt, idle_node).
Proof.
  split; [reflexivity|].
  apply (update_fast_path 0 0 (VNum 1) None idle_node); reflexivity.
Defined.

(** ** Taking an edge away *)

(** C9. When the [listener] field of [n] is [null], [n.offSource(s)]
    leaves [s] without any listener, whoever registered it; likewise for
    [errListener] and the error listeners of [s]. *)
Theorem offSource_null_listener_clears n s st :
  fst (offSource n s st) = Ret tt ∧
  (listener (obs st n) = Null →
     listeners (obs (snd (offSource n s st)) s) = []) ∧
  (errListener (obs st n) = Null →
     errListeners (obs (snd (offSource n s st)) s) = []).
Proof.
  rewrite offSource_run. simpl. split; [done|]. split; intros H; rewrite H.
  - match goal with |- listeners (obs ?st' s) = _ =>
      change (array_get (ListenersOf s) st' = []) end.
    rewrite array_get_off_state_other by done.
    by apply array_get_off_state_falsy.
  - match goal with |- errListeners (obs ?st' s) = _ =>
      change (array_get (ErrListenersOf s) st' = []) end.
    by apply array_get_off_state_falsy.
Qed.

Lemma offSource_null_listener_clears_witness :
  listener (obs shared_source 2) = Null ∧
  listeners (obs shared_source 0) = [StreamListener 1; observer; Null] ∧
  listeners (obs (snd (offSource 2 0 shared_source)) 0) = [] ∧
  errListeners (obs (snd (offSource 2 0 shared_source)) 0) = [].
Proof.
  split; [reflexivity|]. split; [reflexivity|].
  destruct (offSource_null_listener_clears 2 0 shared_source) as (_ & Hl & He).
  split; [apply Hl|apply He]; reflexivity.
Defined.

(** C8, amended.  When no edge from [s] to [n] is there yet ([s] is not
    among the sources of [n], the listener and the error listener of [n]
    are not registered on [s]), [n.into(s)] followed by [n.offSource(s)]
    leaves none behind, in either direction. *)
Theorem into_offSource_fresh_edge n s st :
  let st1 := snd (into n [s] st) in
  let st2 := snd (offSource n s st1) in
  n < length (heap st) → s < length (heap st) →
  s ∉ sources (obs st n) →
  listener (obs st1 n) ∉ listeners (obs st s) →
  errListener (obs st1 n) ∉ errListeners (obs st s) →
  fst (into n [s] st) = Ret tt ∧ fst (offSource n s st1) = Ret tt ∧
  (listener (obs st2 n) ∉ listeners (obs st2 s)) ∧
  (errListener (obs st2 n) ∉ errListeners (obs st2 s)) ∧
  (s ∉ sources (obs st2 n)).
Proof.
  rewrite into_single_run. cbn [fst snd]. rewrite offSource_run. cbn [fst snd].
  intros Hn Hs Hsrc Hl He.
  set (st1 := into_state n s st) in *.
  assert (Hlen : length (heap st1) = length (heap st))
    by apply length_heap_into_state.
  split; [done|]. split; [done|].
  set (stx := upd_obs n (λ o, set_sources (U_remove (sources o) s) o) st1).
  assert (Hlenx : length (heap stx) = length (heap st))
    by (unfold stx; by rewrite length_heap_upd_obs).
  split; [|split].
  - rewrite (off_state_field listener) by done.
    rewrite (off_state_field listener) by done.
    unfold stx at 1. rewrite (obs_upd_obs_field listener) by done.
    change (listeners (obs ?st' s)) with (array_get (ListenersOf s) st').
    rewrite array_get_off_state_other by done.
    rewrite array_get_off_state_eq by (cbn [ref_node]; lia).
    destruct (cb_falsy (listener (obs st1 n))); [apply not_elem_of_nil|].
    unfold stx. rewrite array_get_upd_sources. cbn [array_get]. unfold st1.
    destruct (into_state_listeners n s st Hs) as [l ->].
    by apply U_remove_app_not_in.
  - rewrite (off_state_field errListener) by done.
    rewrite (off_state_field errListener) by done.
    unfold stx at 1. rewrite (obs_upd_obs_field errListener) by done.
    change (errListeners (obs ?st' s)) with (array_get (ErrListenersOf s) st').
    rewrite array_get_off_state_eq
      by (rewrite length_heap_off_state; cbn [ref_node]; lia).
    destruct (cb_falsy (errListener (obs st1 n))); [apply not_elem_of_nil|].
    rewrite array_get_off_state_other by done.
    unfold stx. rewrite array_get_upd_sources. cbn [array_get]. unfold st1.
    destruct (into_state_errListeners n s st Hs) as [e ->].
    by apply U_remove_app_not_in.
  - rewrite (off_state_field sources) by done.
    rewrite (off_state_field sources) by done.
    unfold stx. rewrite obs_upd_obs_eq by lia.
    simpl. unfold st1. rewrite into_state_sources by done.
    by rewrite U_remove_app_fresh.
Qed.

Lemma into_offSource_fresh_edge_witness :
  (1 ∉ sources (obs two_streams 0)) ∧
  (listener (obs (snd (offSource 0 1 (snd (into 0 [1] two_streams)))) 0)
     ∉ listeners (obs (snd (offSource 0 1 (snd (into 0 [1] two_streams)))) 1)) ∧
  (1 ∉ sources (obs (snd (offSource 0 1 (snd (into 0 [1] two_streams)))) 0)).
Proof.
  assert (Hnil : ∀ (A : Type) (x : A), x ∉ @nil A)
    by (intros A x; apply not_elem_of_nil).
  destruct (into_offSource_fresh_edge 0 1 two_streams)
    as (_ & _ & Hl & _ & Hs);
    [vm_compute; lia|vm_compute; lia|apply Hnil|apply Hnil|apply Hnil|].
  split; [apply Hnil|]. split; [exact Hl|exact Hs].
Defined.

(** C8, as stated, fails where the edge is there already: after
    [0.into(1)], another [0.into(1)] followed by [0.offSource(1)] leaves
    the listener of [0] on [1], its error listener on [1], and [1] among
    the sources of [0]. *)
Lemma into_offSource_existing_edge :
  let st1 := snd (into 0 [1] connected_streams) in
  let st2 := snd (offSource 0 1 st1) in
  fst (into 0 [1] connected_streams) = Ret tt ∧
  fst (offSource 0 1 st1) = Ret tt ∧
  listener (obs st2 0) ∈ listeners (obs st2 1) ∧
  errListener (obs st2 0) ∈ errListeners (obs st2 1) ∧
  1 ∈ sources (obs st2 0).
Proof.
  vm_compute. repeat split; apply list_elem_of_here.
Qed.

(** ** The two disciplines of [defer] *)

(** C3. [defer] on a stream enqueues without condition a callback that
    carries no [property] tag: the queue grows by one entry at each call,
    and each entry is called when the batch is drained.  A callback with a
    [property] tag on a stream, and every callback on a base observable,
    goes through [pushOnce]: it is queued at most once.  In one batch, a
    plain listener of a stream updated twice is called twice, the same
    listener on a base observable once. *)
Theorem defer_discipline n event c st :
  cb_falsy c = false →
  fst (defer n event c st) = Ret tt ∧
  (okind (obs st n) = StreamKind → property_of c = None →
     flow_queue (snd (defer n event c st)) = flow_queue st ++ [(c, event)] ∧
     queued c (flow_queue (snd (defer n event c st))) =
       S (queued c (flow_queue st))) ∧
  (okind (obs st n) = ObservableKind ∨ property_of c ≠ None →
     flow_queue (snd (defer n event c st)) =
       queue_pushOnce (flow_queue st) c event ∧
     queued c (flow_queue (snd (defer n event c st))) =
       Nat.max 1 (queued c (flow_queue st))) ∧
  log (twice_in_a_batch StreamKind) = [(0, VNum 1); (0, VNum 2)] ∧
  log (twice_in_a_batch ObservableKind) = [(0, VEvent 1 (VNum 2) 0)].
Proof.
  intros Hc. rewrite defer_run by done. cbn [fst snd flow_queue set_queue].
  split; [done|]. split; [|split; [|split; reflexivity]].
  - intros Hk Hp. unfold enqueue. rewrite Hk, Hp. split; [done|].
    rewrite queued_app. simpl. case_decide; [lia|done].
  - intros Hk.
    assert (Heq : enqueue (okind (obs st n)) event (flow_queue st) c =
                  queue_pushOnce (flow_queue st) c event).
    { unfold enqueue. destruct Hk as [->|Hp]; [done|].
      destruct (okind (obs st n)); [done|]. by destruct (property_of c). }
    rewrite Heq. split; [done|]. apply queued_pushOnce.
Qed.

Lemma defer_discipline_witness :
  cb_falsy observer = false ∧
  flow_queue (snd (defer 0 (VNum 1) observer
                     (snd (defer 0 (VNum 1) observer two_streams)))) =
    [(observer, VNum 1); (observer, VNum 1)] ∧
  flow_queue (snd (defer 0 (VNum 2) observer
                     (snd (defer 0 (VNum 1) observer idle_node)))) =
    [(observer, VNum 2)].
Proof.
  split; [reflexivity|].
  pose proof (defer_discipline 0 (VNum 1) observer
                (snd (defer 0 (VNum 1) observer two_streams)) eq_refl)
    as (_ & Hs & _).
  pose proof (defer_discipline 0 (VNum 2) observer
                (snd (defer 0 (VNum 1) observer idle_node)) eq_refl)
    as (_ & _ & Ho & _).
  split.
  - destruct Hs as [Hs _]; [reflexivity|reflexivity|]. exact Hs.
  - destruct Ho as [Ho _]; [left; reflexivity|]. exact Ho.
Defined.

(** ** One event for a round *)



(** ** Filtering *)

(** C5. Let the pipeline of a node hold a [filtering(f)] stage.  On an input
    that reaches this stage as [w], with [f w] falsy, the static
    [transform] yields [BadValue] in the state the stages before left: the
    stages behind are not run.  [go] with transformations then returns in
    that same state, without a call of [update]; all that differs from the
    entry state are accumulation cells written by the earlier stages.  A
    stream with [filtering(x => x > 0)], triggered with 3, -1 and 2, calls
    its listener with 3 and with 2. *)
Theorem filtering_suppresses :
  (∀ fuel n v pre f post st w r st1,
     transforms (obs st n) = pre ++ Filtering f :: post →
     transform_loop pre v st = (Ret w, st1) →
     is_BadValue w = false →
     f w = Returns r →
     truthy r = false →
     Observable_transform n v st = (Ret BadValue, st1) ∧
     go fuel n v true st = (Ret tt, st1) ∧
     cells_only st st1) ∧
  (let run := (let* s := filtered_stream in
               trigger_all 2 s [VNum 3; VNum (-1); VNum 2]) (empty_state quiet) in
   fst run = Ret tt ∧ log (snd run) = [(0, VNum 3); (0, VNum 2)]).
Proof.
  split; [|by vm_compute].
  intros fuel n v pre f post st w r st1 Ht Hpre Hw Hf Hr.
  assert (Htr : Observable_transform n v st = (Ret BadValue, st1)).
  { unfold Observable_transform. rewrite bind_gets, Ht.
    rewrite (transform_loop_app pre _ v st w st1) by done.
    cbn [transform_loop]. unfold bind. cbn [apply_transformation].
    by rewrite Hf, Hr. }
  split; [done|]. split.
  - unfold go, go_with, try_catch, bind. by rewrite Htr.
  - pose proof (transform_loop_cells_only pre v st) as H. by rewrite Hpre in H.
Qed.

Lemma filtering_suppresses_witness :
  transforms (obs (snd (filtered_stream (empty_state quiet))) 0) =
    [] ++ Filtering positive :: [] ∧
  go 0 0 (VNum (-1)) true (snd (filtered_stream (empty_state quiet))) =
    (Ret tt, snd (filtered_stream (empty_state quiet))).
Proof.
  split; [reflexivity|].
  exact (proj1 (proj2
    (proj1 filtering_suppresses 0 0 (VNum (-1)) [] positive []
       (snd (filtered_stream (empty_state quiet)))
       (VNum (-1)) (VBool false)
       (snd (filtered_stream (empty_state quiet)))
       eq_refl eq_refl eq_refl eq_refl eq_refl))).
Defined.

(** ** Accumulation *)



(** ** Errors of the pipeline *)

(** C2. When the pipeline of [s] throws [e] on the input [v], [trigger]
    with transformations does what [s.triggerErr(e)] does in the state the
    pipeline left, and nothing else: its outcome is that of
    [update(e, s.errListeners)] on [s] itself, and [update(v)] is not
    called.  For a stream without parent whose error listeners are plain
    callbacks, the flow idle: it returns, each error listener of [s] has
    been called once with [e], in order, no other callback has been
    called, and the graph is as before.  When the stream [0] feeds a
    branch whose pipeline throws, a trigger of [0] calls the listener of
    [0] with the value and the error listener of the branch with the
    error; the error listener of [0] and the listener of the branch are
    not called. *)
Theorem trigger_redirects_error fuel n v u e st st1 :
  default true u = true →
  Observable_transform n v st = (Throw e, st1) →
  trigger fuel n v u st = triggerErr fuel n e st1 ∧
  triggerErr fuel n e st1 = update fuel n e (Some (ErrListenersOf n)) st1 ∧
  (okind (obs st n) = StreamKind →
   parent (obs st n) = Null →
   flow_running st = false →
   flow_queue st = [] →
   Forall (λ c, plain c ∧ probe st c) (errListeners (obs st n)) →
   length (errListeners (obs st n)) < fuel →
   fst (trigger fuel n v u st) = Ret tt ∧
   log (snd (trigger fuel n v u st)) =
     log st ++ ((λ c, (cb_id c, e)) <$> errListeners (obs st n)) ∧
   flow_queue (snd (trigger fuel n v u st)) = [] ∧
   flow_running (snd (trigger fuel n v u st)) = false ∧
   heap (snd (trigger fuel n v u st)) = heap st) ∧
  trigger 4 0 (VNum 1) None failing_branch =
    (Ret tt,
     set_log [(0, VNum 1); (1, VStr "boom")]
       (set_trace (trace (snd (trigger 4 0 (VNum 1) None failing_branch)))
          failing_branch)).
Proof.
  intros Hu Htr.
  assert (Hgo : trigger fuel n v u st = triggerErr fuel n e st1).
  { unfold trigger, trigger_with. rewrite Hu.
    unfold go_with, try_catch. unfold bind at 1 2. rewrite Htr.
    fold (triggerErr fuel n e). unfold bind.
    destruct (triggerErr fuel n e st1) as [[[]|e1|] st2]; done. }
  split; [done|]. split; [done|]. split; [|reflexivity].
  intros Hk Hp Hrun Hq Hall Hfuel. rewrite Hgo.
  assert (Hc : cells_only st st1).
  { unfold Observable_transform in Htr. rewrite bind_gets in Htr.
    pose proof (transform_loop_cells_only (transforms (obs st n)) v st) as H.
    by rewrite Htr in H. }
  unfold cells_only in Hc. rewrite Hc.
  change (triggerErr fuel n e) with (update fuel n e (Some (ErrListenersOf n))).
  destruct (update_stream_probes fuel n e (Some (ErrListenersOf n))
              (set_cells (cells st1) st) Hk Hp Hrun Hq eq_refl Hall Hfuel)
    as (H1 & H2 & H3 & H4 & H5 & _).
  split; [exact H1|]. split; [exact H2|]. split; [exact H3|].
  split; [exact H4|exact H5].
Qed.

Lemma trigger_redirects_error_witness :
  Observable_transform 0 (VNum 1) failing_stream =
    (Throw (VStr "boom"), failing_stream) ∧
  listeners (obs failing_stream 0) = [observer] ∧
  fst (trigger 2 0 (VNum 1) None failing_stream) = Ret tt ∧
  log (snd (trigger 2 0 (VNum 1) None failing_stream)) = [(1, VStr "boom")].
Proof.
  split; [reflexivity|]. split; [reflexivity|].
  destruct (trigger_redirects_error 2 0 (VNum 1) None (VStr "boom")
              failing_stream failing_stream eq_refl eq_refl)
    as (_ & _ & H & _).
  destruct H as (Hret & Hlog & _); try reflexivity.
  - repeat constructor. by exists 1, true, None.
  - vm_compute. lia.
  - split; [exact Hret|exact Hlog].
Defined.

(** ** Registering and removing listeners *)

Lemma stream_allocated n st :
  okind (obs st n) = StreamKind → n < length (heap st).
Proof.
  intros H. destruct (decide (n < length (heap st))) as [|Hge]; [done|].
  unfold obs in H.
  rewrite list_lookup_total_alt, lookup_ge_None_2 in H by lia. done.
Qed.

Lemma upd_obs_restore n f g st :
  n < length (heap st) →
  g (f (obs st n)) = obs st n →
  upd_obs n g (upd_obs n f st) = st.
Proof.
  intros Hn Hgf. destruct st as [h c r q cd lg ev tr].
  unfold upd_obs, set_heap, obs, obs_id in *. cbn [heap] in *.
  f_equal. rewrite list_alter_alter_eq.
  apply list_eq. intros i. destruct (decide (i = n)) as [->|Hne].
  - rewrite list_lookup_alter_eq.
    destruct (lookup_lt_is_Some_2 h n Hn) as [o Ho].
    rewrite Ho. cbn. f_equal.
    rewrite (list_lookup_total_correct _ _ _ Ho) in Hgf. exact Hgf.
  - by rewrite list_lookup_alter_ne by done.
Qed.

Lemma upd_obs_same n f st :
  f (obs st n) = obs st n → upd_obs n f st = st.
Proof.
  intros Hf. destruct st as [h c r q cd lg ev tr].
  unfold upd_obs, set_heap, obs, obs_id in *. cbn [heap] in *.
  f_equal. apply list_eq. intros i. destruct (decide (i = n)) as [->|Hne].
  - rewrite list_lookup_alter_eq.
    destruct (h !! n) as [o|] eqn:Ho; [|done].
    cbn. f_equal. by rewrite (list_lookup_total_correct _ _ _ Ho) in Hf.
  - by rewrite list_lookup_alter_ne by done.
Qed.

Lemma array_set_restore a l st :
  ref_node a < length (heap st) →
  array_set a (array_get a st) (array_set a l st) = st.
Proof.
  intros Hn. destruct a as [n|n]; cbn [array_set array_get ref_node] in *;
    apply upd_obs_restore; try done; by destruct (obs st n).
Qed.

Lemma array_set_same a st : array_set a (array_get a st) st = st.
Proof.
  destruct a as [n|n]; cbn [array_set array_get];
    apply upd_obs_same; by destruct (obs st n).
Qed.

Lemma array_set_set a l l' st :
  array_set a l' (array_set a l st) = array_set a l' st.
Proof.
  destruct st as [h c r q cd lg ev tr].
  destruct a as [n|n]; unfold array_set, upd_obs, set_heap; cbn [heap];
    f_equal; rewrite list_alter_alter_eq; by apply list_alter_ext.
Qed.

Lemma callback_of_truthy action cb :
  cb_falsy (callback_of action cb) = false →
  arg_falsy action && cb_falsy cb = false.
Proof.
  destruct action as [s|c]; cbn [callback_of arg_falsy]; intros ->;
    [apply andb_false_r|done].
Qed.

Lemma on_run n action cb callbacks st :
  on n action cb callbacks st =
  (Ret tt, let a := default (ListenersOf n) callbacks in
           array_set a (array_get a st ++ [callback_of action cb]) st).
Proof. unfold on. destruct action, callbacks; reflexivity. Qed.

Lemma off_run n action cb callbacks st :
  cb_falsy (callback_of action cb) = false →
  off n action cb callbacks st =
  (Ret tt, let a := default (ListenersOf n) callbacks in
           array_set a (U_remove (array_get a st) (callback_of action cb)) st).
Proof.
  intros Hc. unfold off. rewrite (callback_of_truthy _ _ Hc).
  destruct action, callbacks; reflexivity.
Qed.

Lemma off_clear_run n action cb callbacks st :
  arg_falsy action = true → cb_falsy cb = true →
  off n action cb callbacks st =
  (Ret tt, array_set (default (ListenersOf n) callbacks) [] st).
Proof.
  intros Ha Hc. unfold off. rewrite Ha, Hc. by destruct callbacks.
Qed.

Lemma on_off_array n action cb callbacks st :
  let a := default (ListenersOf n) callbacks in
  let c := callback_of action cb in
  cb_falsy c = false →
  ref_node a < length (heap st) →
  (c ∉ array_get a st) →
  array_get a (snd (on n action cb callbacks st)) = array_get a st ++ [c] ∧
  off n action cb callbacks (snd (on n action cb callbacks st)) = (Ret tt, st).
Proof.
  intros a c Hc Hn Hfresh. rewrite on_run. cbn [snd]. cbv zeta. fold a c.
  rewrite off_run by done. cbv zeta. fold a c.
  rewrite array_get_set_eq by done. split; [done|].
  rewrite U_remove_app_fresh by done.
  by rewrite array_set_restore.
Qed.

(** X1. The listener of a stream is made once: [makeListener] returns a
    callable, stores it in the [listener] field, and every later call
    returns that same callable and changes nothing; a stream whose field
    is still [null] gets its own closure.  No other observable is
    touched.  The same holds of [makeErrListener] and the [errListener]
    field.  A base observable answers [null] and stays as it is. *)
Theorem makeListener_stable n st :
  okind (obs st n) = StreamKind →
  (∃ l st1,
     makeListener n st = (Ret l, st1) ∧
     makeListener n st1 = (Ret l, st1) ∧
     cb_falsy l = false ∧
     listener (obs st1 n) = l ∧
     (listener (obs st n) = Null → l = StreamListener n) ∧
     (cb_falsy (listener (obs st n)) = false → st1 = st) ∧
     (∀ m, m ≠ n → obs st1 m = obs st m)) ∧
  (∃ e st1,
     makeErrListener n st = (Ret e, st1) ∧
     makeErrListener n st1 = (Ret e, st1) ∧
     cb_falsy e = false ∧
     errListener (obs st1 n) = e ∧
     (errListener (obs st n) = Null → e = StreamErrListener n) ∧
     (cb_falsy (errListener (obs st n)) = false → st1 = st) ∧
     (∀ m, m ≠ n → obs st1 m = obs st m)).
Proof.
  intros Hk. pose proof (stream_allocated n st Hk) as Hn. split.
  - exists (listener (obs (makeListener_state n st) n)), (makeListener_state n st).
    rewrite !makeListener_run, Hk.
    rewrite (makeListener_state_field okind) by done. rewrite Hk.
    unfold makeListener_state. rewrite Hk.
    destruct (cb_falsy (listener (obs st n))) eqn:Hl.
    + rewrite (obs_upd_obs_field okind) by done.
      rewrite !obs_upd_obs_eq by done. rewrite Hk. cbn [listener set_listener cb_falsy].
      rewrite ?obs_upd_obs_eq by done. cbn [listener set_listener].
      split; [done|]. split; [done|]. split; [done|]. split; [done|].
      split; [done|]. split; [done|]. intros m Hm. by apply obs_upd_obs_ne.
    + rewrite Hk, Hl.
      split; [done|]. split; [done|]. split; [done|]. split; [done|].
      split; [|done]. intros H. rewrite H in Hl. done.
  - exists (errListener (obs (makeErrListener_state n st) n)),
      (makeErrListener_state n st).
    rewrite !makeErrListener_run, Hk.
    rewrite (makeErrListener_state_field okind) by done. rewrite Hk.
    unfold makeErrListener_state. rewrite Hk.
    destruct (cb_falsy (errListener (obs st n))) eqn:Hl.
    + rewrite (obs_upd_obs_field okind) by done.
      rewrite !obs_upd_obs_eq by done. rewrite Hk.
      cbn [errListener set_errListener cb_falsy].
      rewrite ?obs_upd_obs_eq by done. cbn [errListener set_errListener].
      split; [done|]. split; [done|]. split; [done|]. split; [done|].
      split; [done|]. split; [done|]. intros m Hm. by apply obs_upd_obs_ne.
    + rewrite Hk, Hl.
      split; [done|]. split; [done|]. split; [done|]. split; [done|].
      split; [|done]. intros H. rewrite H in Hl. done.
Qed.

Lemma makeListener_stable_witness :
  okind (obs two_streams 0) = StreamKind ∧
  ∃ st1, makeListener 0 two_streams = (Ret (StreamListener 0), st1) ∧
         makeListener 0 st1 = (Ret (StreamListener 0), st1).
Proof.
  split; [reflexivity|].
  destruct (makeListener_stable 0 two_streams eq_refl)
    as [(l & st1 & H1 & H2 & _ & _ & Hl & _) _].
  exists st1. rewrite <- (Hl eq_refl). split; [exact H1|exact H2].
Defined.

(** X2. [off] called without a callback ([off()], [off(null)],
    [off('')]) empties the [listeners] of the observable and nothing
    else: its error listeners and sources, and the arrays of every other
    observable, stay.  [offErr] without a callback empties the
    [errListeners] alone. *)
Theorem off_without_callback_clears n action cb st :
  arg_falsy action = true →
  cb_falsy cb = true →
  let st1 := snd (off n action cb None st) in
  let st2 := snd (offErr n action cb st) in
  fst (off n action cb None st) = Ret tt ∧
  listeners (obs st1 n) = [] ∧
  (∀ m, errListeners (obs st1 m) = errListeners (obs st m) ∧
        sources (obs st1 m) = sources (obs st m)) ∧
  (∀ m, m ≠ n → listeners (obs st1 m) = listeners (obs st m)) ∧
  fst (offErr n action cb st) = Ret tt ∧
  errListeners (obs st2 n) = [] ∧
  (∀ m, listeners (obs st2 m) = listeners (obs st m) ∧
        sources (obs st2 m) = sources (obs st m)) ∧
  (∀ m, m ≠ n → errListeners (obs st2 m) = errListeners (obs st m)).
Proof.
  intros Ha Hc. unfold offErr. rewrite !off_clear_run by done.
  cbn [fst snd default].
  assert (Hnil : ∀ a, array_get a (array_set a [] st) = []).
  { intros a. rewrite array_get_set. case_decide as Hd; [done|].
    apply array_get_default.
    destruct (decide (ref_node a < length (heap st))); [|lia].
    exfalso. auto. }
  split; [done|]. split; [apply (Hnil (ListenersOf n))|].
  split; [intros m; split|].
  { apply (array_get_set_ne (ErrListenersOf m) (ListenersOf n)). done. }
  { by apply (array_set_field sources). }
  split.
  { intros m Hm. apply (array_get_set_ne (ListenersOf m) (ListenersOf n)).
    congruence. }
  split; [done|]. split; [apply (Hnil (ErrListenersOf n))|].
  split; [intros m; split|].
  { apply (array_get_set_ne (ListenersOf m) (ErrListenersOf n)). done. }
  { by apply (array_set_field sources). }
  intros m Hm. apply (array_get_set_ne (ErrListenersOf m) (ErrListenersOf n)).
  congruence.
Qed.

Lemma off_without_callback_clears_witness :
  arg_falsy (Cb Undefined) = true ∧
  listeners (obs failing_stream 0) = [observer] ∧
  listeners (obs (snd (off 0 (Cb Undefined) Undefined None failing_stream)) 0) = [] ∧
  errListeners (obs (snd (off 0 (Cb Undefined) Undefined None failing_stream)) 0) =
    [errObserver].
Proof.
  split; [reflexivity|]. split; [reflexivity|].
  destruct (off_without_callback_clears 0 (Cb Undefined) Undefined failing_stream
              eq_refl eq_refl) as (_ & Hl & He & _).
  split; [exact Hl|]. rewrite (proj1 (He 0)). reflexivity.
Defined.

(** X3. [on] puts its callback at the end of the [listeners]; [off] with
    the same arguments, for a callback that was not registered before,
    gives back the state in which [on] was called.  [off] of a callback
    that is not registered changes nothing.  The same holds of [onErr]
    and [offErr] on the [errListeners]. *)
Theorem on_off_round_trip n action cb st :
  let c := callback_of action cb in
  cb_falsy c = false →
  n < length (heap st) →
  ((c ∉ listeners (obs st n)) →
     listeners (obs (snd (on n action cb None st)) n) = listeners (obs st n) ++ [c] ∧
     off n action cb None (snd (on n action cb None st)) = (Ret tt, st) ∧
     off n action cb None st = (Ret tt, st)) ∧
  ((c ∉ errListeners (obs st n)) →
     errListeners (obs (snd (onErr n action cb st)) n) =
       errListeners (obs st n) ++ [c] ∧
     offErr n action cb (snd (onErr n action cb st)) = (Ret tt, st) ∧
     offErr n action cb st = (Ret tt, st)).
Proof.
  intros c Hc Hn. split; intros Hfresh.
  - destruct (on_off_array n action cb None st Hc Hn Hfresh) as [H1 H2].
    split; [exact H1|]. split; [exact H2|].
    rewrite off_run by done. cbv zeta. cbn [default]. fold c.
    rewrite U_remove_fresh by done. by rewrite array_set_same.
  - unfold onErr, offErr.
    destruct (on_off_array n action cb (Some (ErrListenersOf n)) st Hc Hn Hfresh)
      as [H1 H2].
    split; [exact H1|]. split; [exact H2|].
    rewrite off_run by done. cbv zeta. cbn [default]. fold c.
    rewrite U_remove_fresh by done. by rewrite array_set_same.
Qed.

Lemma on_off_round_trip_witness :
  (late ∉ listeners (obs failing_stream 0)) ∧
  listeners (obs (snd (on 0 (Str "change") late None failing_stream)) 0) =
    [observer; late] ∧
  off 0 (Str "change") late None
    (snd (on 0 (Str "change") late None failing_stream)) =
    (Ret tt, failing_stream).
Proof.
  assert (Hfresh : late ∉ listeners (obs failing_stream 0)).
  { intros H. apply list_elem_of_singleton in H. discriminate H. }
  split; [exact Hfresh|].
  destruct (on_off_round_trip 0 (Str "change") late failing_stream eq_refl)
    as [H _]; [vm_compute; lia|].
  destruct (H Hfresh) as (H1 & H2 & _).
  split; [exact H1|exact H2].
Defined.

(** ** Edges *)

Lemma into_cons n s args st :
  into n (s :: args) st = into n args (into_state n s st).
Proof.
  pose proof (into_single_run n s st) as H. unfold into in *.
  cbn [for_each] in *.
  apply bind_Ret_inv in H as ([] & st1 & Hbody & Hret).
  unfold ret in Hret. injection Hret as <-.
  by erewrite bind_Ret by exact Hbody.
Qed.

Lemma edge_listener_ext n st st' :
  okind (obs st' n) = okind (obs st n) →
  listener (obs st' n) = listener (obs st n) →
  edge_listener n st' = edge_listener n st.
Proof. unfold edge_listener. by intros -> ->. Qed.

Lemma edge_errListener_ext n st st' :
  okind (obs st' n) = okind (obs st n) →
  errListener (obs st' n) = errListener (obs st n) →
  edge_errListener n st' = edge_errListener n st.
Proof. unfold edge_errListener. by intros -> ->. Qed.

Lemma edge_listener_truthy n st :
  okind (obs st n) = StreamKind → cb_falsy (edge_listener n st) = false.
Proof.
  intros Hk. unfold edge_listener. rewrite Hk.
  by destruct (cb_falsy (listener (obs st n))) eqn:H.
Qed.

Lemma edge_errListener_truthy n st :
  okind (obs st n) = StreamKind → cb_falsy (edge_errListener n st) = false.
Proof.
  intros Hk. unfold edge_errListener. rewrite Hk.
  by destruct (cb_falsy (errListener (obs st n))) eqn:H.
Qed.

Lemma listener_makeListener_state n st :
  listener (obs (makeListener_state n st) n) =
  match okind (obs st n) with
  | ObservableKind => listener (obs st n)
  | StreamKind => edge_listener n st
  end.
Proof.
  unfold makeListener_state, edge_listener.
  destruct (okind (obs st n)) eqn:Hk; [done|].
  destruct (cb_falsy (listener (obs st n))); [|done].
  by rewrite obs_upd_obs_eq by (by apply stream_allocated).
Qed.

Lemma errListener_makeErrListener_state n st :
  errListener (obs (makeErrListener_state n st) n) =
  match okind (obs st n) with
  | ObservableKind => errListener (obs st n)
  | StreamKind => edge_errListener n st
  end.
Proof.
  unfold makeErrListener_state, edge_errListener.
  destruct (okind (obs st n)) eqn:Hk; [done|].
  destruct (cb_falsy (errListener (obs st n))); [|done].
  by rewrite obs_upd_obs_eq by (by apply stream_allocated).
Qed.

Lemma into_state_field {A} (P : Observable → A) n s st m :
  (∀ o l, P (set_listeners l o) = P o) →
  (∀ o l, P (set_errListeners l o) = P o) →
  (∀ o l, P (set_sources l o) = P o) →
  (∀ o c, P (set_listener c o) = P o) →
  (∀ o c, P (set_errListener c o) = P o) →
  P (obs (into_state n s st) m) = P (obs st m).
Proof.
  intros H1 H2 H3 H4 H5. unfold into_state.
  rewrite (array_set_field P) by done.
  rewrite (makeErrListener_state_field P) by done.
  rewrite (array_set_field P) by done.
  rewrite (makeListener_state_field P) by done.
  by apply obs_upd_obs_field.
Qed.

Lemma into_state_sources_other n s st m :
  m ≠ n → sources (obs (into_state n s st) m) = sources (obs st m).
Proof.
  intros Hm. unfold into_state.
  rewrite (array_set_field sources) by done.
  rewrite (makeErrListener_state_field sources) by done.
  rewrite (array_set_field sources) by done.
  rewrite (makeListener_state_field sources) by done.
  by rewrite obs_upd_obs_ne.
Qed.

Lemma into_state_listeners_exact n s st :
  s < length (heap st) →
  listeners (obs (into_state n s st) s) =
    listeners (obs st s) ++ [edge_listener n st].
Proof.
  intros Hs. unfold into_state. cbv zeta.
  set (st_a := upd_obs n _ st).
  change (listeners (obs ?st' s)) with (array_get (ListenersOf s) st').
  rewrite array_get_set_ne by done.
  rewrite array_get_makeErrListener_state.
  rewrite array_get_set_eq
    by (cbn [ref_node]; unfold st_a;
        by rewrite length_heap_makeListener_state, length_heap_upd_obs).
  assert (Harr : array_get (ListenersOf s) st_a = array_get (ListenersOf s) st)
    by (unfold st_a; apply array_get_upd_sources).
  rewrite array_get_makeListener_state, Harr. f_equal. f_equal.
  assert (Hk : okind (obs st_a n) = okind (obs st n))
    by (by apply (obs_upd_obs_field okind)).
  assert (Hl : listener (obs st_a n) = listener (obs st n))
    by (by apply (obs_upd_obs_field listener)).
  rewrite listener_makeListener_state.
  rewrite (edge_listener_ext n st st_a Hk Hl). rewrite Hk.
  unfold edge_listener. by destruct (okind (obs st n)).
Qed.

Lemma into_state_errListeners_exact n s st :
  s < length (heap st) →
  errListeners (obs (into_state n s st) s) =
    errListeners (obs st s) ++ [edge_errListener n st].
Proof.
  intros Hs. unfold into_state. cbv zeta.
  set (st_a := upd_obs n _ st).
  set (st_b := makeListener_state n st_a).
  set (st_c := array_set (ListenersOf s) _ st_b).
  change (errListeners (obs ?st' s)) with (array_get (ErrListenersOf s) st').
  assert (Hlen : length (heap st_c) = length (heap st)).
  { unfold st_c, st_b, st_a.
    by rewrite length_heap_array_set, length_heap_makeListener_state,
      length_heap_upd_obs. }
  assert (Harr : array_get (ErrListenersOf s) st_c = array_get (ErrListenersOf s) st).
  { unfold st_c. rewrite array_get_set_ne by done. unfold st_b.
    rewrite array_get_makeListener_state. unfold st_a.
    by rewrite array_get_upd_sources. }
  rewrite array_get_set_eq
    by (cbn [ref_node]; by rewrite length_heap_makeErrListener_state, Hlen).
  rewrite array_get_makeErrListener_state, Harr. f_equal. f_equal.
  assert (Hk : okind (obs st_c n) = okind (obs st n)).
  { unfold st_c. rewrite (array_set_field okind) by done. unfold st_b.
    rewrite (makeListener_state_field okind) by done.
    by apply (obs_upd_obs_field okind). }
  assert (Hl : errListener (obs st_c n) = errListener (obs st n)).
  { unfold st_c. rewrite (array_set_field errListener) by done. unfold st_b.
    rewrite (makeListener_state_field errListener) by done.
    by apply (obs_upd_obs_field errListener). }
  rewrite errListener_makeErrListener_state.
  rewrite (edge_errListener_ext n st st_c Hk Hl). rewrite Hk.
  unfold edge_errListener. by destruct (okind (obs st n)).
Qed.

Lemma into_state_listeners_other n s st m :
  m ≠ s →
  listeners (obs (into_state n s st) m) = listeners (obs st m) ∧
  errListeners (obs (into_state n s st) m) = errListeners (obs st m).
Proof.
  intros Hm. unfold into_state.
  change (listeners (obs ?st' m)) with (array_get (ListenersOf m) st').
  change (errListeners (obs ?st' m)) with (array_get (ErrListenersOf m) st').
  split.
  - rewrite array_get_set_ne by done. rewrite array_get_makeErrListener_state.
    rewrite array_get_set_ne by congruence.
    by rewrite array_get_makeListener_state, array_get_upd_sources.
  - rewrite array_get_set_ne by congruence. rewrite array_get_makeErrListener_state.
    rewrite array_get_set_ne by done.
    by rewrite array_get_makeListener_state, array_get_upd_sources.
Qed.

Lemma into_state_edge_listener n s st :
  edge_listener n (into_state n s st) = edge_listener n st ∧
  edge_errListener n (into_state n s st) = edge_errListener n st.
Proof.
  assert (Hk : okind (obs (into_state n s st) n) = okind (obs st n))
    by (by apply (into_state_field okind)).
  unfold edge_listener at 1, edge_errListener at 1. rewrite Hk.
  destruct (okind (obs st n)) eqn:Hkn.
  { unfold edge_listener, edge_errListener. by rewrite Hkn. }
  unfold into_state. cbv zeta.
  set (st_a := upd_obs n _ st).
  set (st_b := makeListener_state n st_a).
  set (st_c := array_set (ListenersOf s) _ st_b).
  set (st_d := makeErrListener_state n st_c).
  assert (Hka : okind (obs st_a n) = StreamKind).
  { unfold st_a. rewrite (obs_upd_obs_field okind) by done. exact Hkn. }
  assert (Hkc : okind (obs st_c n) = StreamKind).
  { unfold st_c. rewrite (array_set_field okind) by done. unfold st_b.
    rewrite (makeListener_state_field okind) by done. exact Hka. }
  split.
  - rewrite (array_set_field listener) by done. unfold st_d.
    rewrite (makeErrListener_state_field listener) by done. unfold st_c.
    rewrite (array_set_field listener) by done. unfold st_b.
    rewrite listener_makeListener_state, Hka.
    rewrite (edge_listener_ext n st st_a)
      by (unfold st_a; by apply obs_upd_obs_field).
    by rewrite edge_listener_truthy.
  - rewrite (array_set_field errListener) by done. unfold st_d.
    rewrite errListener_makeErrListener_state, Hkc.
    rewrite (edge_errListener_ext n st st_c).
    + by rewrite edge_errListener_truthy.
    + by rewrite Hkc.
    + unfold st_c. rewrite (array_set_field errListener) by done. unfold st_b.
      rewrite (makeListener_state_field errListener) by done.
      unfold st_a. by apply obs_upd_obs_field.
Qed.

Lemma into_field {A} (P : Observable → A) args :
  ∀ n st m,
  (∀ o l, P (set_listeners l o) = P o) →
  (∀ o l, P (set_errListeners l o) = P o) →
  (∀ o l, P (set_sources l o) = P o) →
  (∀ o c, P (set_listener c o) = P o) →
  (∀ o c, P (set_errListener c o) = P o) →
  P (obs (snd (into n args st)) m) = P (obs st m).
Proof.
  induction args as [|a args IH]; intros n st m H1 H2 H3 H4 H5; [done|].
  rewrite into_cons, IH by done. by apply into_state_field.
Qed.

Lemma length_heap_into args :
  ∀ n st, length (heap (snd (into n args st))) = length (heap st).
Proof.
  induction args as [|a args IH]; intros n st; [done|].
  by rewrite into_cons, IH, length_heap_into_state.
Qed.

Lemma occurrences_cons {A} `{EqDecision A} (x y : A) l :
  occurrences x (y :: l) = (if decide (y = x) then 1 else 0) + occurrences x l.
Proof. unfold occurrences. rewrite filter_cons. by case_decide. Qed.

Lemma into_run args :
  ∀ n st,
  n < length (heap st) →
  ∃ st',
    into n args st = (Ret tt, st') ∧
    sources (obs st' n) = sources (obs st n) ++ args ∧
    (∀ s, s < length (heap st) →
       listeners (obs st' s) =
         listeners (obs st s) ++ replicate (occurrences s args) (edge_listener n st) ∧
       errListeners (obs st' s) =
         errListeners (obs st s) ++
           replicate (occurrences s args) (edge_errListener n st)) ∧
    (∀ m, m ≠ n → sources (obs st' m) = sources (obs st m)).
Proof.
  induction args as [|a args IH]; intros n st Hn.
  - exists st. split; [done|]. split; [by rewrite app_nil_r|].
    split; [|done]. intros s _. cbn. by rewrite !app_nil_r.
  - destruct (IH n (into_state n a st)) as (st' & Hrun & Hsrc & Hls & Hoth).
    { by rewrite length_heap_into_state. }
    exists st'. split; [by rewrite into_cons|].
    split; [rewrite Hsrc, into_state_sources by done; by rewrite <- app_assoc|].
    split.
    + intros s Hs.
      destruct (Hls s) as [Hl He]; [by rewrite length_heap_into_state|].
      destruct (into_state_edge_listener n a st) as [El Ee].
      rewrite Hl, He, El, Ee, occurrences_cons.
      destruct (decide (a = s)) as [->|Hne].
      * rewrite into_state_listeners_exact, into_state_errListeners_exact by done.
        rewrite decide_True by done.
        cbn [Nat.add replicate]. by rewrite <- !app_assoc.
      * rewrite decide_False by done.
        by destruct (into_state_listeners_other n a st s) as [-> ->].
    + intros m Hm. rewrite Hoth by done. by apply into_state_sources_other.
Qed.


(** X4. [n.into(s1, ..., sk)] returns; it puts the sources at the end of
    the [sources] of [n], in the order given, and on each source one
    listener and one error listener for each time the source is named:
    what [makeListener] and [makeErrListener] of [n] return, the same
    callable each time, and [null] when [n] is a base observable.  Nothing
    is looked up first, so a source named twice holds the listener
    twice.  The sources of the other observables stay. *)
Theorem into_records_every_source args n st :
  n < length (heap st) →
  ∃ st',
    into n args st = (Ret tt, st') ∧
    sources (obs st' n) = sources (obs st n) ++ args ∧
    (∀ s, s < length (heap st) →
       listeners (obs st' s) =
         listeners (obs st s) ++ replicate (occurrences s args) (edge_listener n st) ∧
       errListeners (obs st' s) =
         errListeners (obs st s) ++
           replicate (occurrences s args) (edge_errListener n st)) ∧
    (∀ m, m ≠ n → sources (obs st' m) = sources (obs st m)).
Proof. intros Hn. by apply into_run. Qed.

Lemma into_records_every_source_witness :
  0 < length (heap two_streams) ∧
  ∃ st',
    into 0 [1; 1] two_streams = (Ret tt, st') ∧
    sources (obs st' 0) = [1; 1] ∧
    listeners (obs st' 1) = [StreamListener 0; StreamListener 0].
Proof.
  assert (H : 0 < length (heap two_streams)) by (vm_compute; lia).
  split; [exact H|].
  destruct (into_records_every_source [1; 1] 0 two_streams H)
    as (st' & Hrun & Hsrc & Hls & _).
  exists st'. split; [exact Hrun|]. split; [exact Hsrc|].
  destruct (Hls 1) as [Hl _]; [vm_compute; lia|]. exact Hl.
Defined.

(** ** Branches *)

Lemma obs_new h o st b :
  b = length h → obs (set_heap (h ++ [o]) st) b = o.
Proof.
  intros ->. unfold obs. cbn [heap set_heap]. by apply list_lookup_total_middle.
Qed.

Lemma obs_old h o st m : m < length h → obs (set_heap (h ++ [o]) st) m = h !!! m.
Proof. intros H. unfold obs. cbn [heap set_heap]. by apply lookup_total_app_l. Qed.

Lemma upd_obs_new h o f st b :
  b = length h →
  upd_obs b f (set_heap (h ++ [o]) st) = set_heap (h ++ [f o]) st.
Proof.
  intros ->. unfold upd_obs, set_heap. cbn. f_equal.
  replace (length h) with (length h + 0) at 1 by lia.
  by rewrite alter_app_r.
Qed.

Lemma upd_obs_old h o f st n :
  n < length h →
  upd_obs n f (set_heap (h ++ [o]) st) = set_heap (alter f n h ++ [o]) st.
Proof. intros H. unfold upd_obs, set_heap. cbn. f_equal. by apply alter_app_l. Qed.

Lemma makeListener_state_new h o st b :
  b = length h → okind o = StreamKind → listener o = Null →
  makeListener_state b (set_heap (h ++ [o]) st) =
  set_heap (h ++ [set_listener (StreamListener b) o]) st.
Proof.
  intros Hb Hk Hl. unfold makeListener_state.
  rewrite obs_new by done. rewrite Hk, Hl. cbn [cb_falsy].
  by apply upd_obs_new.
Qed.

Lemma makeErrListener_state_new h o st b :
  b = length h → okind o = StreamKind → errListener o = Null →
  makeErrListener_state b (set_heap (h ++ [o]) st) =
  set_heap (h ++ [set_errListener (StreamErrListener b) o]) st.
Proof.
  intros Hb Hk Hl. unfold makeErrListener_state.
  rewrite obs_new by done. rewrite Hk, Hl. cbn [cb_falsy].
  by apply upd_obs_new.
Qed.

Lemma Stream_new_run n ts st :
  n < length (heap st) →
  Stream_new (Some n) ts st =
  (Ret (length (heap st)),
   set_heap
     (alter (λ o, set_errListeners (errListeners o ++ [StreamErrListener (length (heap st))])
                    (set_listeners (listeners o ++ [StreamListener (length (heap st))]) o))
        n (heap st)
      ++ [fresh_branch n (length (heap st)) ts]) st).
Proof.
  intros Hn. unfold Stream_new, alloc. unfold bind at 1 2.
  rewrite into_single_run. unfold ret. f_equal.
  set (h := heap st). set (b := length h).
  assert (Hb : b = length h) by done. clearbody b.
  unfold into_state. cbv zeta.
  rewrite (upd_obs_new h _ _ st b Hb). cbn [sources Observable_init app].
  rewrite obs_new by done.
  rewrite makeListener_state_new by done.
  rewrite obs_new by done.
  cbn [okind set_sources listener set_listener Observable_init].
  cbn [array_get array_set].
  rewrite obs_old by done. rewrite upd_obs_old by done.
  set (h1 := alter _ n h).
  assert (Hb1 : b = length h1) by (unfold h1; by rewrite length_alter).
  assert (Hn1 : n < length h1) by (rewrite <- Hb1, Hb; exact Hn).
  rewrite obs_new by done.
  cbn [okind set_listener set_sources Observable_init].
  rewrite makeErrListener_state_new by done.
  rewrite (obs_new h1 _ st b) by done. cbn [errListener set_errListener].
  rewrite obs_old by done. rewrite upd_obs_old by done.
  unfold set_heap. cbn. f_equal. f_equal. unfold h1.
  rewrite list_lookup_total_alter_eq by done.
  cbn [errListeners set_listeners].
  rewrite list_alter_alter_eq. apply list_alter_ext; [|done].
  intros o Ho. cbn. unfold obs_id in *.
  by rewrite (list_lookup_total_correct _ _ _ Ho).
Qed.

Lemma branched_intro n ts st c :
  n < length (heap st) →
  branched n (length (heap st)) ts st
    (set_cells c
       (set_heap
          (alter (λ o, set_errListeners
                         (errListeners o ++ [StreamErrListener (length (heap st))])
                         (set_listeners
                            (listeners o ++ [StreamListener (length (heap st))]) o))
             n (heap st)
           ++ [fresh_branch n (length (heap st)) ts]) st)).
Proof.
  intros Hn. unfold branched.
  change (obs (set_cells c ?s)) with (obs s).
  change (heap (set_cells c ?s)) with (heap s).
  set (h := heap st) in *. set (F := λ o : Observable, _).
  assert (Hlen : length (alter F n h) = length h) by apply length_alter.
  split; [done|]. split.
  { cbn [heap set_heap]. rewrite length_app, Hlen. cbn. lia. }
  split; [by apply obs_new|].
  assert (Hat : obs (set_heap (alter F n h ++ [fresh_branch n (length h) ts]) st) n
                = F (obs st n)).
  { rewrite obs_old by (rewrite Hlen; exact Hn). by apply list_lookup_total_alter_eq. }
  assert (Hoth : ∀ m, m < length h → m ≠ n →
            obs (set_heap (alter F n h ++ [fresh_branch n (length h) ts]) st) m
            = obs st m).
  { intros m Hm Hne. rewrite obs_old by (rewrite Hlen; exact Hm).
    by apply list_lookup_total_alter_ne. }
  rewrite Hat.
  split; [done|]. split; [done|]. split; [done|]. split; [done|]. exact Hoth.
Qed.

Lemma branch_stage_run n t st :
  n < length (heap st) →
  (let* s := Stream_new (Some n) [] in transform s t >> ret s) st =
  (Ret (length (heap st)),
   set_heap
     (alter (λ o, set_errListeners
                    (errListeners o ++ [StreamErrListener (length (heap st))])
                    (set_listeners
                       (listeners o ++ [StreamListener (length (heap st))]) o))
        n (heap st)
      ++ [fresh_branch n (length (heap st)) [t]]) st).
Proof.
  intros Hn. erewrite bind_Ret by (by apply Stream_new_run).
  unfold transform. rewrite bind_modify. unfold ret.
  rewrite upd_obs_new by (by rewrite length_alter). done.
Qed.

Lemma accumulate_run n init f st :
  n < length (heap st) →
  Stream.accumulate n init f st =
  (Ret (length (heap st)),
   set_cells (cells st ++ [init])
     (set_heap
        (alter (λ o, set_errListeners
                       (errListeners o ++ [StreamErrListener (length (heap st))])
                       (set_listeners
                          (listeners o ++ [StreamListener (length (heap st))]) o))
           n (heap st)
         ++ [fresh_branch n (length (heap st)) [Accumulation (length (cells st)) f]])
        st)).
Proof.
  intros Hn. unfold Stream.accumulate.
  erewrite bind_Ret by (by apply Stream_new_run).
  erewrite bind_Ret by apply accumulation_run.
  unfold ret. f_equal. cbn [cells set_heap].
  match goal with
  | |- upd_obs _ ?g (set_cells ?c (set_heap ?H st)) = _ =>
      change (upd_obs (length (heap st)) g (set_heap H (set_cells c st)) =
              set_heap
                (alter (λ o, set_errListeners
                               (errListeners o ++ [StreamErrListener (length (heap st))])
                               (set_listeners
                                  (listeners o ++ [StreamListener (length (heap st))]) o))
                   n (heap st)
                 ++ [fresh_branch n (length (heap st))
                       [Accumulation (length (cells st)) f]])
                (set_cells c st))
  end.
  by rewrite upd_obs_new by (by rewrite length_alter).
Qed.

(** X5. [new ProAct.Stream(n, ts)] and, through it, [map], [filter] and
    [accumulate] of a stream [n] return a new stream: the next free
    observable, with [n] as its only source, its two listeners made and
    registered at the end of the [listeners] and [errListeners] of [n],
    and the stage given as its whole pipeline.  The pipeline of [n] and
    its sources are as before, and so is every other observable.
    [accumulate] takes one new cell holding the initial value; the others
    take none. *)
Theorem stream_methods_branch n st :
  n < length (heap st) →
  let b := length (heap st) in
  (∀ ts, ∃ st', Stream_new (Some n) ts st = (Ret b, st') ∧
                branched n b ts st st' ∧ cells st' = cells st) ∧
  (∀ f, ∃ st', Stream.map n f st = (Ret b, st') ∧
               branched n b [Fn f] st st' ∧ cells st' = cells st) ∧
  (∀ f, ∃ st', Stream.filter n f st = (Ret b, st') ∧
               branched n b [Filtering f] st st' ∧ cells st' = cells st) ∧
  (∀ init f, ∃ st', Stream.accumulate n init f st = (Ret b, st') ∧
                    branched n b [Accumulation (length (cells st)) f] st st' ∧
                    cells st' = cells st ++ [init]).
Proof.
  intros Hn b. subst b. split; [|split; [|split]].
  - intros ts. eexists. split; [by apply Stream_new_run|].
    split; [|done].
    pose proof (branched_intro n ts st (cells st) Hn) as H.
    by destruct st.
  - intros f. eexists. split; [by apply (branch_stage_run n (Fn f))|].
    split; [|done].
    pose proof (branched_intro n [Fn f] st (cells st) Hn) as H.
    by destruct st.
  - intros f. eexists. split; [by apply (branch_stage_run n (Filtering f))|].
    split; [|done].
    pose proof (branched_intro n [Filtering f] st (cells st) Hn) as H.
    by destruct st.
  - intros init f. eexists. split; [by apply accumulate_run|].
    split; [|done]. by apply branched_intro.
Qed.

Lemma stream_methods_branch_witness :
  0 < length (heap two_streams) ∧
  ∃ st', Stream.map 0 positive two_streams = (Ret 2, st') ∧
         sources (obs st' 2) = [0] ∧
         listeners (obs st' 0) = [StreamListener 2] ∧
         transforms (obs st' 0) = [].
Proof.
  assert (H : 0 < length (heap two_streams)) by (vm_compute; lia).
  split; [exact H|].
  destruct (stream_methods_branch 0 two_streams H) as (_ & Hmap & _).
  destruct (Hmap positive) as (st' & Hrun & (_ & _ & Hb & Hl & _ & _ & Ht & _) & _).
  exists st'. split; [exact Hrun|]. split; [exact (f_equal sources Hb)|].
  split; [exact Hl|exact Ht].
Defined.

Lemma occurrences_absent {A} `{EqDecision A} (x : A) l :
  x ∉ l → occurrences x l = 0.
Proof.
  induction l as [|y l IH]; [done|]. intros [Hne Hx]%not_elem_of_cons.
  rewrite occurrences_cons, IH by done. by rewrite decide_False by congruence.
Qed.

(** X6. [n.merge(s1, ..., sk)] returns a new stream, the next free
    observable, without pipeline, parent or listeners of its own, whose
    sources are [n, s1, ..., sk] in this order.  Each of these streams
    has got the listener and the error listener of the new stream at the
    end of its arrays, once for each time it is named; its own pipeline
    and sources are as before. *)
Theorem merge_listens_to_every_source n args st :
  Forall (λ s, s < length (heap st)) (n :: args) →
  let m := length (heap st) in
  ∃ st',
    Stream.merge n args st = (Ret m, st') ∧
    length (heap st') = S m ∧
    okind (obs st' m) = StreamKind ∧
    sources (obs st' m) = n :: args ∧
    transforms (obs st' m) = [] ∧
    parent (obs st' m) = Null ∧
    listeners (obs st' m) = [] ∧
    errListeners (obs st' m) = [] ∧
    (∀ s, s < m →
       listeners (obs st' s) =
         listeners (obs st s) ++
           replicate (occurrences s (n :: args)) (StreamListener m) ∧
       errListeners (obs st' s) =
         errListeners (obs st s) ++
           replicate (occurrences s (n :: args)) (StreamErrListener m) ∧
       transforms (obs st' s) = transforms (obs st s) ∧
       sources (obs st' s) = sources (obs st s)).
Proof.
  intros Hall m.
  set (st0 := set_heap (heap st ++ [Observable_init StreamKind []]) st).
  assert (Hm0 : m < length (heap st0))
    by (unfold st0; cbn; rewrite length_app; cbn; lia).
  assert (Hnew : obs st0 m = Observable_init StreamKind [])
    by (by apply obs_new).
  assert (Hold : ∀ s, s < m → obs st0 s = obs st s)
    by (intros s Hs; by apply obs_old).
  destruct (into_run (n :: args) m st0 Hm0) as (st' & Hrun & Hsrc & Hls & Hoth).
  assert (Hst' : st' = snd (into m (n :: args) st0)) by (by rewrite Hrun).
  assert (Hel : edge_listener m st0 = StreamListener m)
    by (unfold edge_listener; by rewrite Hnew).
  assert (Hee : edge_errListener m st0 = StreamErrListener m)
    by (unfold edge_errListener; by rewrite Hnew).
  assert (Hfresh : m ∉ n :: args).
  { intros Hin. rewrite Forall_forall in Hall. specialize (Hall m Hin).
    unfold m in Hall. lia. }
  assert (Hnew_run : Stream_new None [] st = (Ret m, st0)) by reflexivity.
  exists st'. split.
  { unfold Stream.merge. erewrite bind_Ret by exact Hnew_run. cbn [app].
    by erewrite bind_Ret by exact Hrun. }
  split.
  { rewrite Hst', length_heap_into. unfold st0. cbn. rewrite length_app. cbn. lia. }
  split; [rewrite Hst', (into_field okind) by done; by rewrite Hnew|].
  split; [by rewrite Hsrc, Hnew|].
  split; [rewrite Hst', (into_field transforms) by done; by rewrite Hnew|].
  split; [rewrite Hst', (into_field parent) by done; by rewrite Hnew|].
  destruct (Hls m Hm0) as [Hl He].
  rewrite occurrences_absent in Hl, He by done. rewrite Hnew in Hl, He.
  split; [done|]. split; [done|].
  intros s Hs. destruct (Hls s) as [Hl' He']; [lia|].
  rewrite Hl', He', Hel, Hee, Hold by done.
  split; [done|]. split; [done|]. split.
  - rewrite Hst', (into_field transforms) by done. by rewrite Hold.
  - rewrite Hoth by lia. by rewrite Hold.
Qed.

Lemma merge_listens_to_every_source_witness :
  Forall (λ s, s < length (heap two_streams)) (0 :: [1]) ∧
  ∃ st', Stream.merge 0 [1] two_streams = (Ret 2, st') ∧
         sources (obs st' 2) = [0; 1] ∧
         listeners (obs st' 0) = [StreamListener 2] ∧
         listeners (obs st' 1) = [StreamListener 2].
Proof.
  assert (H : Forall (λ s, s < length (heap two_streams)) (0 :: [1])).
  { repeat constructor; vm_compute; lia. }
  split; [exact H|].
  destruct (merge_listens_to_every_source 0 [1] two_streams H)
    as (st' & Hrun & _ & _ & Hsrc & _ & _ & _ & _ & Hs).
  exists st'. split; [exact Hrun|]. split; [exact Hsrc|].
  destruct (Hs 0) as (H0 & _); [vm_compute; lia|].
  destruct (Hs 1) as (H1 & _); [vm_compute; lia|].
  split; [exact H0|exact H1].
Defined.

(** ** A batch that crosses an edge *)

Lemma probe_ext st st' c : code st' = code st → probe st c → probe st' c.
Proof. intros H (id & f & p & -> & Hc). exists id, f, p. by rewrite H. Qed.

Lemma drain_step fuel c event q st :
  flow_queue st = (c, event) :: q →
  drain (S fuel) st =
  (invoke_with (drain fuel) fuel c event >> drain fuel) (set_queue q st).
Proof. intros Hq. cbn [drain]. by rewrite bind_gets, Hq, bind_modify. Qed.

Lemma drain_probes_then q1 :
  ∀ fuel st rest,
  flow_queue st = q1 ++ rest →
  Forall (λ e, probe st e.1) q1 →
  drain (length q1 + fuel) st =
  drain fuel
    (set_queue rest (set_log (log st ++ ((λ e, (cb_id e.1, e.2)) <$> q1)) st)).
Proof.
  induction q1 as [|[c ev] q1 IH]; intros fuel st rest Hq Hall.
  - cbn [length Nat.add fmap list_fmap]. f_equal.
    destruct st; unfold set_queue, set_log; cbn in *. by rewrite app_nil_r, Hq.
  - cbn [length Nat.add]. apply Forall_cons in Hall as [Hc Hall].
    rewrite (drain_step _ c ev (q1 ++ rest)) by done.
    erewrite bind_Ret by (apply invoke_probe; by apply (probe_ext st)).
    rewrite (IH fuel _ rest); [|done|].
    + f_equal. unfold set_queue, set_log; cbn. f_equal.
      by rewrite <- app_assoc.
    + eapply Forall_impl; [apply Hall|]. intros e He. by apply (probe_ext st).
Qed.

Lemma set_same st :
  set_queue (flow_queue st ++ []) (set_trace (trace st ++ []) st) = st.
Proof. destruct st; unfold set_queue, set_trace; cbn. by rewrite !app_nil_r. Qed.

Lemma update_with_running d fuel n source callbacks st :
  okind (obs st n) = StreamKind →
  parent (obs st n) = Null →
  flow_running st = true →
  ref_node (target_of n callbacks) = n →
  Forall plain (array_get (target_of n callbacks) st) →
  ∃ t, update_with d (S fuel) n source callbacks st =
    (Ret tt,
     set_queue (flow_queue st ++
                  ((λ c, (c, source)) <$> array_get (target_of n callbacks) st))
       (set_trace (trace st ++ t) st)).
Proof.
  intros Hk Hp Hrun Href Hplain.
  unfold update_with. rewrite bind_gets.
  destruct (_ && _) eqn:Hfast.
  - exists []. unfold ret. f_equal.
    apply andb_prop in Hfast as [Hfast _]. apply andb_prop in Hfast as [H1 H2].
    apply Nat.eqb_eq in H1, H2. apply nil_length_inv in H1, H2.
    assert (Hnil : array_get (target_of n callbacks) st = []).
    { destruct callbacks as [[m|m]|]; simpl in *; by subst. }
    rewrite Hnil. cbn [fmap list_fmap]. by rewrite set_same.
  - unfold flow_isRunning. rewrite bind_gets, Hrun. cbn [negb].
    rewrite willUpdate_plain by done. rewrite Hk, Hp.
    cbn [parent_list cb_falsy event_of events_after]. rewrite app_nil_r.
    rewrite fold_enqueue_stream by done.
    eexists. f_equal.
Qed.

Lemma set_cells_same st c : c = cells st → set_cells c st = st.
Proof. intros ->. by destruct st. Qed.

Lemma apply_transformation_ext t v st st' :
  cells st' = cells st →
  apply_transformation t v st' =
  (fst (apply_transformation t v st),
   set_cells (cells (snd (apply_transformation t v st))) st').
Proof.
  intros Hc. destruct t as [f|f|c f]; cbn [apply_transformation].
  - destruct (f v); unfold ret, throw; cbn; by rewrite set_cells_same.
  - destruct (f v) as [r|]; [destruct (truthy r)|]; unfold ret, throw; cbn;
      by rewrite set_cells_same.
  - rewrite Hc. destruct (f _ v); cbn; [done|by rewrite set_cells_same].
Qed.

Lemma transform_loop_ext ts :
  ∀ v st st',
  cells st' = cells st →
  transform_loop ts v st' =
  (fst (transform_loop ts v st), set_cells (cells (snd (transform_loop ts v st))) st').
Proof.
  induction ts as [|t ts IH]; intros v st st' Hc; cbn [transform_loop].
  - unfold ret. cbn. by rewrite set_cells_same.
  - unfold bind. rewrite (apply_transformation_ext t v st st' Hc).
    destruct (apply_transformation t v st) as [[w|e|] st1]; cbn [fst snd]; try done.
    destruct (is_BadValue w); [done|].
    rewrite (IH w st1 (set_cells (cells st1) st')) by done.
    by destruct st'.
Qed.

Lemma Observable_transform_ext n v st st' :
  heap st' = heap st → cells st' = cells st →
  Observable_transform n v st' =
  (fst (Observable_transform n v st),
   set_cells (cells (snd (Observable_transform n v st))) st').
Proof.
  intros Hh Hc. unfold Observable_transform. rewrite !bind_gets.
  unfold obs. rewrite Hh. by apply transform_loop_ext.
Qed.

Lemma transform_loop_returns ts :
  ∀ v st, fst (transform_loop ts v st) ≠ OutOfFuel.
Proof.
  induction ts as [|t ts IH]; intros v st; cbn [transform_loop]; [done|].
  unfold bind.
  destruct (apply_transformation t v st) as [[w|e|] st1] eqn:Ht; cbn; try done.
  - destruct (is_BadValue w); [done|apply IH].
  - destruct t as [f|f|c f]; cbn in Ht.
    + by destruct (f v).
    + destruct (f v) as [r|]; [by destruct (truthy r)|done].
    + by destruct (f _ v).
Qed.

Lemma log_queued_by st b r :
  (λ e, (cb_id e.1, e.2)) <$> queued_by st b r = emitted st b r.
Proof.
  unfold queued_by, emitted, delivered.
  destruct r as [w|e|]; [destruct (is_BadValue w)| |]; try done;
    by rewrite <- list_fmap_compose.
Qed.

Lemma go_with_running d fuel b v st :
  okind (obs st b) = StreamKind →
  parent (obs st b) = Null →
  flow_running st = true →
  Forall plain (listeners (obs st b)) →
  Forall plain (errListeners (obs st b)) →
  ∃ t, go_with d (S fuel) b v true st =
    (Ret tt,
     set_queue (flow_queue st ++ queued_by st b (fst (Observable_transform b v st)))
       (set_trace (trace st ++ t)
          (set_cells (cells (snd (Observable_transform b v st))) st))).
Proof.
  intros Hk Hp Hrun Hl He.
  pose proof (transform_loop_cells_only (transforms (obs st b)) v st) as Hc.
  pose proof (transform_loop_returns (transforms (obs st b)) v st) as Hr.
  unfold go_with, try_catch. unfold bind at 1 2.
  unfold Observable_transform in *. rewrite bind_gets in *.
  destruct (transform_loop (transforms (obs st b)) v st) as [[w|e|] st1];
    cbn [fst snd] in *; [| |done];
    unfold cells_only in Hc; set (c1 := cells st1) in *; clearbody c1; subst st1.
  - unfold ret at 1. cbn [queued_by].
    destruct (is_BadValue w).
    + exists []. unfold ret. f_equal.
      destruct st; unfold set_queue, set_trace, set_cells; cbn.
      by rewrite !app_nil_r.
    + destruct (update_with_running d fuel b w None (set_cells c1 st)) as [t Ht];
        try done.
      exists t. rewrite Ht. done.
  - cbn [queued_by]. unfold triggerErr_with.
    destruct (update_with_running d fuel b e (Some (ErrListenersOf b))
                (set_cells c1 st)) as [t Ht]; try done.
    exists t. unfold bind. rewrite Ht. done.
Qed.

Lemma edge_batch fuel s source callbacks st pre c post out cs :
  okind (obs st s) = StreamKind →
  parent (obs st s) = Null →
  flow_running st = false →
  flow_queue st = [] →
  ref_node (target_of s callbacks) = s →
  array_get (target_of s callbacks) st = pre ++ c :: post →
  plain c →
  Forall (λ x, plain x ∧ probe st x) (pre ++ post) →
  Forall (λ e, probe st e.1) out →
  (∀ f st3,
     heap st3 = heap st → cells st3 = cells st → code st3 = code st →
     flow_running st3 = true →
     ∃ st4, invoke_with (drain (S f)) (S f) c source st3 = (Ret tt, st4) ∧
            flow_queue st4 = flow_queue st3 ++ out ∧
            log st4 = log st3 ∧ cells st4 = cs ∧ heap st4 = heap st3 ∧
            code st4 = code st3 ∧ flow_running st4 = true) →
  length pre + length post + length out + 2 ≤ fuel →
  ∃ st', update fuel s source callbacks st = (Ret tt, st') ∧
    log st' = log st ++ delivered (pre ++ post) source ++
                ((λ e, (cb_id e.1, e.2)) <$> out) ∧
    cells st' = cs ∧ heap st' = heap st ∧ code st' = code st ∧
    flow_queue st' = [] ∧ flow_running st' = false.
Proof.
  intros Hk Hp Hrun Hq Href Harr Hc Hall Hout Hinv Hfuel.
  apply Forall_app in Hall as [Hpre Hpost].
  assert (Hplain : Forall plain (array_get (target_of s callbacks) st)).
  { rewrite Harr. apply Forall_app. split.
    - eapply Forall_impl; [apply Hpre|]. by intros x [H _].
    - constructor; [done|]. eapply Forall_impl; [apply Hpost|]. by intros x [H _]. }
  unfold update, update_with. rewrite bind_gets.
  assert (Hslow : (length (listeners (obs st s)) =? 0)
                  && (length (errListeners (obs st s)) =? 0)
                  && is_null (parent (obs st s)) = false).
  { assert (Hne : length (array_get (target_of s callbacks) st) ≠ 0)
      by (rewrite Harr, length_app; cbn; lia).
    destruct callbacks as [[m|m]|]; cbn in Href, Hne; subst;
      apply Nat.eqb_neq in Hne; rewrite Hne; by rewrite ?andb_false_r. }
  rewrite Hslow. unfold flow_isRunning. rewrite bind_gets, Hrun. cbn [negb].
  unfold flow_run, flow_isRunning. rewrite bind_gets, Hrun, bind_modify.
  assert (∃ f3, fuel = length pre + S (S f3) ∧ length post + length out ≤ f3)
    as (f3 & -> & Hf3) by (exists (fuel - length pre - 2); lia).
  clear Hfuel.
  replace (length pre + S (S f3)) with (S (length pre + S f3)) by lia.
  erewrite bind_Ret by (by apply willUpdate_plain).
  change (obs (set_running true st) s) with (obs st s).
  change (array_get ?a (set_running true st)) with (array_get a st).
  rewrite Hk, Hp. cbn [parent_list cb_falsy event_of events_after].
  rewrite app_nil_r, fold_enqueue_stream by done.
  cbn [flow_queue set_running]. rewrite Hq. cbn [app].
  rewrite Harr, fmap_app, fmap_cons.
  set (st1 := set_queue _ _).
  assert (H1 : log st1 = log st ∧ cells st1 = cells st ∧ heap st1 = heap st ∧
               code st1 = code st ∧ flow_running st1 = true) by done.
  destruct H1 as (Hl1 & Hc1 & Hh1 & Hcd1 & Hr1).
  assert (Hq1 : flow_queue st1 =
                ((λ c0, (c0, source)) <$> pre) ++
                (c, source) :: ((λ c0, (c0, source)) <$> post)) by done.
  clearbody st1.
  replace (S (length pre + S f3)) with (length pre + S (S f3)) by lia.
  replace (length pre) with (length ((λ c0, (c0, source)) <$> pre))
    by apply length_fmap.
  unfold bind at 1.
  rewrite (drain_probes_then _ _ st1 ((c, source) :: ((λ c0, (c0, source)) <$> post)));
    [|done|].
  2:{ apply Forall_fmap. eapply Forall_impl; [apply Hpre|].
      intros x [_ Hx]. by apply (probe_ext st). }
  set (st2 := set_queue _ _).
  assert (H2 : log st2 = log st ++ delivered pre source ∧ cells st2 = cells st ∧
               heap st2 = heap st ∧ code st2 = code st ∧ flow_running st2 = true).
  { unfold st2. cbn. rewrite Hl1, <- list_fmap_compose. done. }
  destruct H2 as (Hl2 & Hc2 & Hh2 & Hcd2 & Hr2).
  assert (Hq2 : flow_queue st2 = (c, source) :: ((λ c0, (c0, source)) <$> post))
    by done.
  clearbody st2.
  rewrite (drain_step _ c source ((λ c0, (c0, source)) <$> post)) by done.
  destruct (Hinv f3 (set_queue ((λ c0, (c0, source)) <$> post) st2))
    as (st4 & Hrun4 & Hq4 & Hl4 & Hc4 & Hh4 & Hcd4 & Hr4); try done.
  cbn [flow_queue log heap code set_queue] in Hq4, Hl4, Hh4, Hcd4.
  erewrite bind_Ret by exact Hrun4.
  rewrite (drain_probes (((λ c0, (c0, source)) <$> post) ++ out)); [|done| |].
  2:{ apply Forall_app. split.
      + apply Forall_fmap. eapply Forall_impl; [apply Hpost|].
        intros x [_ Hx]. apply (probe_ext st); [congruence|done].
      + eapply Forall_impl; [apply Hout|]. intros e He.
        apply (probe_ext st); [congruence|done]. }
  2:{ rewrite length_app, length_fmap. lia. }
  unfold modify. eexists. split; [reflexivity|].
  cbn [log cells heap code flow_queue flow_running set_running set_queue set_log].
  split.
  { rewrite Hl4, Hl2. unfold delivered.
    by rewrite !fmap_app, <- !list_fmap_compose, <- !app_assoc. }
  split; [done|]. split; [congruence|]. split; [congruence|]. done.
Qed.

Lemma trigger_without_pipeline fuel s v u st :
  transforms (obs st s) = [] →
  is_BadValue v = false →
  trigger fuel s v u st = update fuel s v None st.
Proof.
  intros Ht Hv. unfold trigger, trigger_with, go, go_with, update.
  destruct (default true u).
  - unfold try_catch, Observable_transform, bind, gets. rewrite Ht.
    cbn [transform_loop]. unfold ret. by rewrite Hv.
  - unfold bind, ret. by rewrite Hv.
Qed.

Lemma obs_same_heap st st' n : heap st' = heap st → obs st' n = obs st n.
Proof. intros H. unfold obs. by rewrite H. Qed.

Lemma trigger_over_edge fuel s b v st pre post :
  okind (obs st s) = StreamKind →
  parent (obs st s) = Null →
  transforms (obs st s) = [] →
  okind (obs st b) = StreamKind →
  parent (obs st b) = Null →
  flow_running st = false →
  flow_queue st = [] →
  listeners (obs st s) = pre ++ StreamListener b :: post →
  Forall (λ c, plain c ∧ probe st c) (pre ++ post) →
  Forall (λ c, plain c ∧ probe st c) (listeners (obs st b)) →
  Forall (λ c, plain c ∧ probe st c) (errListeners (obs st b)) →
  is_BadValue v = false →
  length (listeners (obs st s)) + length (listeners (obs st b))
    + length (errListeners (obs st b)) + 1 ≤ fuel →
  ∃ st', trigger fuel s v None st = (Ret tt, st') ∧
    log st' = log st ++ delivered (pre ++ post) v ++
                emitted st b (fst (Observable_transform b v st)) ∧
    cells st' = cells (snd (Observable_transform b v st)) ∧
    heap st' = heap st ∧ code st' = code st ∧
    flow_queue st' = [] ∧ flow_running st' = false.
Proof.
  intros Hks Hps Hts Hkb Hpb Hrun Hq Harr Hall Hlb Heb Hv Hfuel.
  rewrite trigger_without_pipeline by done.
  rewrite <- log_queued_by.
  assert (Hlen : length (queued_by st b (fst (Observable_transform b v st)))
                 ≤ length (listeners (obs st b)) + length (errListeners (obs st b))).
  { unfold queued_by. destruct (fst _) as [w|e|]; [destruct (is_BadValue w)| |];
      cbn; rewrite ?length_fmap; lia. }
  apply (edge_batch fuel s v None st pre (StreamListener b) post); try done.
  - unfold queued_by. destruct (fst _) as [w|e|]; [destruct (is_BadValue w)| |];
      try (by constructor); apply Forall_fmap;
      (eapply Forall_impl; [eassumption|]); by intros c [_ H].
  - intros f st3 Hh Hc Hcode Hrun3. cbn [invoke_with]. unfold trigger_with.
    cbn [default].
    destruct (go_with_running (drain (S f)) f b v st3) as [t Ht].
    + by rewrite (obs_same_heap st).
    + by rewrite (obs_same_heap st).
    + done.
    + rewrite (obs_same_heap st) by done.
      eapply Forall_impl; [apply Hlb|]. by intros c [H _].
    + rewrite (obs_same_heap st) by done.
      eapply Forall_impl; [apply Heb|]. by intros c [H _].
    + eexists. split; [exact Ht|].
      rewrite (Observable_transform_ext b v st st3) by done. cbn [fst snd].
      cbn [flow_queue log cells heap code flow_running set_queue set_trace set_cells].
      unfold queued_by. rewrite !(obs_same_heap st st3) by done. done.
  - rewrite Harr, length_app in Hfuel. cbn [length] in Hfuel. lia.
Qed.

Lemma triggerErr_over_edge fuel s b e st pre post :
  okind (obs st s) = StreamKind →
  parent (obs st s) = Null →
  okind (obs st b) = StreamKind →
  parent (obs st b) = Null →
  flow_running st = false →
  flow_queue st = [] →
  errListeners (obs st s) = pre ++ StreamErrListener b :: post →
  Forall (λ c, plain c ∧ probe st c) (pre ++ post) →
  Forall (λ c, plain c ∧ probe st c) (errListeners (obs st b)) →
  length (errListeners (obs st s)) + length (errListeners (obs st b)) + 1 ≤ fuel →
  ∃ st', triggerErr fuel s e st = (Ret tt, st') ∧
    log st' = log st ++ delivered (pre ++ post) e ++
                delivered (errListeners (obs st b)) e ∧
    cells st' = cells st ∧ heap st' = heap st ∧ code st' = code st ∧
    flow_queue st' = [] ∧ flow_running st' = false.
Proof.
  intros Hks Hps Hkb Hpb Hrun Hq Harr Hall Heb Hfuel.
  unfold triggerErr, triggerErr_with. fold (update fuel).
  destruct (edge_batch fuel s e (Some (ErrListenersOf s)) st pre
              (StreamErrListener b) post
              ((λ c, (c, e)) <$> errListeners (obs st b)) (cells st))
    as (st' & Hrun' & Hlog & Hrest); try done.
  - apply Forall_fmap. eapply Forall_impl; [apply Heb|]. by intros c [_ H].
  - intros f st3 Hh Hc Hcode Hrun3. cbn [invoke_with]. unfold triggerErr_with.
    destruct (update_with_running (drain (S f)) f b e (Some (ErrListenersOf b)) st3)
      as [t Ht].
    + by rewrite (obs_same_heap st).
    + by rewrite (obs_same_heap st).
    + done.
    + done.
    + change (Forall plain (errListeners (obs st3 b))).
      rewrite (obs_same_heap st) by done.
      eapply Forall_impl; [apply Heb|]. by intros c [H _].
    + eexists. split; [exact Ht|].
      change (array_get (target_of b (Some (ErrListenersOf b))) st3)
        with (errListeners (obs st3 b)).
      rewrite (obs_same_heap st st3) by done. done.
  - rewrite Harr, length_app in Hfuel. cbn [length] in Hfuel.
    rewrite length_fmap. lia.
  - exists st'. split; [done|]. split; [|done]. rewrite Hlog. unfold delivered.
    by rewrite <- list_fmap_compose.
Qed.

(** X7. A value crosses an edge.  Let the stream [s], without pipeline
    and parent, have among its listeners the listener of the stream [b],
    all the others being plain callbacks that leave the graph alone, as
    are the listeners and error listeners of [b]; the flow is idle.  A
    value [v] triggered on [s] is handed as it is to every listener of
    [s], those registered after the edge included, before anything
    reaches a listener of [b].  Then the pipeline of [b] is run on [v]
    once: its result goes to the listeners of [b], nothing when it is
    [BadValue], and what it throws goes to the error listeners of [b].
    The batch ends with an empty queue and the flow idle; the graph is
    unchanged. *)
Theorem value_crosses_edge fuel s b v st pre post :
  okind (obs st s) = StreamKind →
  parent (obs st s) = Null →
  transforms (obs st s) = [] →
  okind (obs st b) = StreamKind →
  parent (obs st b) = Null →
  flow_running st = false →
  flow_queue st = [] →
  listeners (obs st s) = pre ++ StreamListener b :: post →
  Forall (λ c, plain c ∧ probe st c) (pre ++ post) →
  Forall (λ c, plain c ∧ probe st c) (listeners (obs st b)) →
  Forall (λ c, plain c ∧ probe st c) (errListeners (obs st b)) →
  is_BadValue v = false →
  length (listeners (obs st s)) + length (listeners (obs st b))
    + length (errListeners (obs st b)) + 1 ≤ fuel →
  let st' := snd (trigger fuel s v None st) in
  fst (trigger fuel s v None st) = Ret tt ∧
  log st' = log st ++ delivered (pre ++ post) v ++
              emitted st b (fst (Observable_transform b v st)) ∧
  cells st' = cells (snd (Observable_transform b v st)) ∧
  heap st' = heap st ∧
  flow_queue st' = [] ∧
  flow_running st' = false.
Proof.
  intros Hks Hps Hts Hkb Hpb Hrun Hq Harr Hall Hlb Heb Hv Hfuel.
  destruct (trigger_over_edge fuel s b v st pre post)
    as (st' & Ht & Hl & Hc & Hh & _ & Hq' & Hr'); try done.
  cbv zeta. by rewrite Ht.
Qed.

Lemma value_crosses_edge_witness :
  listeners (obs (mapped_branch positive) 0) = [observer] ++ StreamListener 1 :: [] ∧
  log (snd (trigger 5 0 (VNum 2) None (mapped_branch positive))) =
    [(0, VNum 2); (3, VBool true)] ∧
  log (snd (trigger 5 0 (VNum 2) None (mapped_branch failing))) =
    [(0, VNum 2); (1, VStr "boom")].
Proof.
  split; [reflexivity|].
  assert (Ho : ∀ f, plain observer ∧ probe (mapped_branch f) observer).
  { intros f. split; [done|]. by exists 0, true, None. }
  assert (Hd : ∀ f, plain downstream ∧ probe (mapped_branch f) downstream).
  { intros f. split; [done|]. by exists 3, true, None. }
  assert (He : ∀ f, plain errObserver ∧ probe (mapped_branch f) errObserver).
  { intros f. split; [done|]. by exists 1, true, None. }
  split.
  - refine (proj1 (proj2 (value_crosses_edge 5 0 1 (VNum 2) (mapped_branch positive)
              [observer] [] eq_refl eq_refl eq_refl eq_refl eq_refl eq_refl eq_refl
              eq_refl _ _ _ eq_refl _))).
    + repeat constructor; apply Ho.
    + repeat constructor; apply Hd.
    + repeat constructor; apply He.
    + vm_compute. lia.
  - refine (proj1 (proj2 (value_crosses_edge 5 0 1 (VNum 2) (mapped_branch failing)
              [observer] [] eq_refl eq_refl eq_refl eq_refl eq_refl eq_refl eq_refl
              eq_refl _ _ _ eq_refl _))).
    + repeat constructor; apply Ho.
    + repeat constructor; apply Hd.
    + repeat constructor; apply He.
    + vm_compute. lia.
Defined.

(** X8. An error crosses an edge.  With the error listener of the stream
    [b] among the error listeners of the stream [s], an error triggered on
    [s] is handed to the error listeners of [s] and then, as it is, to the
    error listeners of [b]: the pipeline of [b] is not run on it, no
    accumulation cell changes and no listener of values is called. *)
Theorem error_crosses_edge fuel s b e st pre post :
  okind (obs st s) = StreamKind →
  parent (obs st s) = Null →
  okind (obs st b) = StreamKind →
  parent (obs st b) = Null →
  flow_running st = false →
  flow_queue st = [] →
  errListeners (obs st s) = pre ++ StreamErrListener b :: post →
  Forall (λ c, plain c ∧ probe st c) (pre ++ post) →
  Forall (λ c, plain c ∧ probe st c) (errListeners (obs st b)) →
  length (errListeners (obs st s)) + length (errListeners (obs st b)) + 1 ≤ fuel →
  let st' := snd (triggerErr fuel s e st) in
  fst (triggerErr fuel s e st) = Ret tt ∧
  log st' = log st ++ delivered (pre ++ post) e ++
              delivered (errListeners (obs st b)) e ∧
  cells st' = cells st ∧
  heap st' = heap st ∧
  flow_queue st' = [] ∧
  flow_running st' = false.
Proof.
  intros Hks Hps Hkb Hpb Hrun Hq Harr Hall Heb Hfuel.
  destruct (triggerErr_over_edge fuel s b e st pre post)
    as (st' & Ht & Hl & Hc & Hh & _ & Hq' & Hr'); try done.
  cbv zeta. by rewrite Ht.
Qed.

Lemma error_crosses_edge_witness :
  errListeners (obs (mapped_branch positive) 0) = [] ++ StreamErrListener 1 :: [] ∧
  log (snd (triggerErr 3 0 (VStr "lost") (mapped_branch positive))) =
    [(1, VStr "lost")].
Proof.
  split; [reflexivity|].
  refine (proj1 (proj2 (error_crosses_edge 3 0 1 (VStr "lost")
            (mapped_branch positive) [] [] eq_refl eq_refl eq_refl eq_refl
            eq_refl eq_refl eq_refl _ _ _))).
  - constructor.
  - repeat constructor. by exists 1, true, None.
  - vm_compute. lia.
Defined.

(** X9. [0.merge(1)] is a new stream with the sources [0] and [1], in
    this order, and no pipeline.  Its listener gets whatever is triggered
    on either source, in the order of the triggers. *)
Theorem merge_keeps_order v1 v2 :
  is_BadValue v1 = false →
  is_BadValue v2 = false →
  let run := (trigger 4 0 v1 None >> trigger 4 1 v2 None) merged_streams in
  sources (obs merged_streams 2) = [0; 1] ∧
  transforms (obs merged_streams 2) = [] ∧
  fst run = Ret tt ∧
  log (snd run) = [(0, v1); (0, v2)] ∧
  heap (snd run) = heap merged_streams.
Proof.
  intros H1 H2. cbv zeta.
  assert (Ho : ∀ st, code st = quiet → plain observer ∧ probe st observer).
  { intros st Hc. split; [done|]. exists 0, true, None. by rewrite Hc. }
  destruct (trigger_over_edge 4 0 2 v1 merged_streams [] [])
    as (st1 & Ht1 & Hl1 & Hc1 & Hh1 & Hcd1 & Hq1 & Hr1); try done.
  { repeat constructor; by apply Ho. }
  { vm_compute. lia. }
  erewrite bind_Ret by exact Ht1.
  assert (Hobs : ∀ n, obs st1 n = obs merged_streams n)
    by (intros n; by apply obs_same_heap).
  destruct (trigger_over_edge 4 1 2 v2 st1 [] [])
    as (st2 & Ht2 & Hl2 & Hc2 & Hh2 & Hcd2 & Hq2 & Hr2);
    rewrite ?Hobs; try done.
  { repeat constructor; apply Ho; by rewrite Hcd1. }
  { vm_compute. lia. }
  rewrite Ht2. cbn [fst snd].
  split; [done|]. split; [done|]. split; [done|]. split; [|congruence].
  rewrite Hl2, Hl1. unfold emitted, Observable_transform. rewrite !bind_gets.
  rewrite !Hobs. cbn. by rewrite H1, H2.
Qed.

Lemma merge_keeps_order_witness :
  is_BadValue (VNum 5) = false ∧
  log (snd ((trigger 4 0 (VNum 5) None >> trigger 4 1 (VStr "x") None)
              merged_streams)) = [(0, VNum 5); (0, VStr "x")].
Proof.
  split; [reflexivity|].
  exact (proj1 (proj2 (proj2 (proj2
    (merge_keeps_order (VNum 5) (VStr "x") eq_refl eq_refl))))).
Defined.

(** ** Updates inside a batch *)

(** X10. While a batch is open, [update] only queues: unless there is
    nothing to notify, it is [willUpdate] and no more.  No callback is
    called, the graph, the cells and the log are as before and the batch
    stays open; the listeners are called when the batch that is open is
    drained. *)
Theorem update_inside_batch fuel n source callbacks st :
  flow_running st = true →
  update fuel n source callbacks st =
    (if nothing_to_notify (obs st n) then (Ret tt, st)
     else willUpdate fuel n source callbacks st) ∧
  frame st (snd (update fuel n source callbacks st)).
Proof.
  intros Hrun.
  assert (Heq : update fuel n source callbacks st =
                (if nothing_to_notify (obs st n) then (Ret tt, st)
                 else willUpdate fuel n source callbacks st)).
  { unfold update, update_with, nothing_to_notify. rewrite bind_gets.
    destruct (_ && _); [done|].
    unfold flow_isRunning. by rewrite bind_gets, Hrun. }
  split; [exact Heq|]. rewrite Heq.
  destruct (nothing_to_notify (obs st n)); [apply frame_refl|].
  apply framed_willUpdate.
Qed.

Lemma update_inside_batch_witness :
  flow_running (set_running true watched_node) = true ∧
  log (snd (update 1 0 (VNum 7) None (set_running true watched_node))) = [] ∧
  flow_running (snd (update 1 0 (VNum 7) None (set_running true watched_node))) = true.
Proof.
  split; [reflexivity|].
  destruct (update_inside_batch 1 0 (VNum 7) None (set_running true watched_node)
              eq_refl) as [_ (_ & _ & Hlog & _ & Hrun & _)].
  split; [exact Hlog|exact Hrun].
Defined.

(** ** A listener that is [null] *)

Lemma willUpdate_loop_prefix fuel n target event todo :
  ∀ done rest st,
  array_get target st = done ++ todo ++ rest →
  Forall plain todo →
  for_each (seq (length done) (length todo)) (λ i,
    let* listener := array_read target i in
    defer n event listener >>
    match property_of listener with
    | Some p => willUpdate fuel p event None
    | None => ret tt
    end) st =
  (Ret tt,
   set_queue (fold_left (enqueue (okind (obs st n)) event) todo (flow_queue st))
     (set_trace (trace st ++ (Defer n event <$> todo)) st)).
Proof.
  induction todo as [|c todo IH]; intros done rest st Harr Hplain.
  - cbn. unfold ret. f_equal. destruct st; unfold set_queue, set_trace; cbn.
    by rewrite app_nil_r.
  - apply Forall_cons in Hplain as [[Hc1 Hc2] Hplain].
    change ((c :: todo) ++ rest) with (c :: (todo ++ rest)) in Harr.
    cbn [length seq for_each].
    erewrite bind_Ret; cycle 1.
    { unfold array_read. rewrite bind_gets, Harr.
      rewrite (list_lookup_middle done (todo ++ rest) c (length done)) by done.
      cbn [default from_option id].
      erewrite bind_Ret by (by apply defer_run). rewrite Hc2. done. }
    replace (S (length done)) with (length (done ++ [c]))
      by (rewrite length_app; cbn; lia).
    rewrite (IH (done ++ [c]) rest).
    + f_equal. unfold set_queue, set_trace; cbn. by rewrite <- app_assoc.
    + rewrite <- app_assoc. cbn [app].
      by destruct target.
    + done.
Qed.

Lemma defer_falsy n event c st :
  cb_falsy c = true →
  ∃ msg, defer n event c st =
    (Throw (TypeError msg), set_trace (trace st ++ [Defer n event c]) st).
Proof.
  intros Hc. unfold defer. rewrite bind_modify, bind_gets.
  destruct (okind _).
  - exists "Cannot read property 'call'"%string.
    unfold Observable_defer. rewrite Hc. by destruct c.
  - exists "Cannot read property 'property'"%string.
    unfold Stream_defer. by rewrite Hc.
Qed.

Lemma willUpdate_falsy_throws fuel n source callbacks st pre c post :
  array_get (target_of n callbacks) st = pre ++ c :: post →
  Forall plain pre →
  cb_falsy c = true →
  ∃ msg st',
    willUpdate (S fuel) n source callbacks st = (Throw (TypeError msg), st') ∧
    flow_queue st' =
      fold_left (enqueue (okind (obs st n))
                   (event_of (okind (obs st n)) n source (events st)))
        pre (flow_queue st) ∧
    heap st' = heap st ∧ log st' = log st ∧ flow_running st' = flow_running st.
Proof.
  intros Harr Hplain Hc. cbn [willUpdate]. rewrite bind_gets.
  erewrite bind_Ret by apply makeEvent_run.
  change (match callbacks with Some a => a | None => ListenersOf n end)
    with (target_of n callbacks).
  rewrite Harr, length_app. cbn [length]. rewrite seq_app. cbn [Nat.add seq].
  set (event := event_of _ _ _ _).
  set (st0 := set_trace _ _).
  assert (Harr0 : array_get (target_of n callbacks) st0 = [] ++ pre ++ c :: post).
  { rewrite <- Harr. by destruct (target_of n callbacks). }
  destruct (defer_falsy n event c
              (set_queue (fold_left (enqueue (okind (obs st0 n)) event) pre
                            (flow_queue st0))
                 (set_trace (trace st0 ++ (Defer n event <$> pre)) st0)) Hc)
    as [msg Hd].
  exists msg. eexists. split.
  - unfold bind at 1. rewrite for_each_app.
    pose proof (willUpdate_loop_prefix fuel n (target_of n callbacks) event pre []
                  (c :: post) st0 Harr0 Hplain) as Hloop.
    cbn [length] in Hloop. rewrite Hloop. clear Hloop.
    set (S1 := set_queue _ (set_trace _ st0)) in *.
    assert (Hbody :
      bind (array_read (target_of n callbacks) (length pre))
        (λ l, bind (defer n event l)
                (λ _, match property_of l with
                      | Some p => willUpdate fuel p event None
                      | None => ret tt
                      end)) S1 =
      (Throw (TypeError msg), set_trace (trace S1 ++ [Defer n event c]) S1)).
    { unfold array_read. rewrite bind_gets.
      replace (array_get (target_of n callbacks) S1) with (pre ++ c :: post)
        by (cbn [app] in Harr0; rewrite <- Harr0; by destruct (target_of n callbacks)).
      rewrite (list_lookup_middle pre post c (length pre)) by done.
      cbn [default from_option id]. unfold bind. by rewrite Hd. }
    cbn [for_each]. unfold bind at 1. rewrite Hbody. reflexivity.
  - done.
Qed.

(** X11. A [null] or [undefined] entry in the array of listeners makes
    [willUpdate] throw a TypeError when its turn comes: the plain
    listeners before it have been queued, those after it have not, and no
    callback has been called. *)
Theorem willUpdate_null_listener fuel n source callbacks st pre c post :
  array_get (target_of n callbacks) st = pre ++ c :: post →
  Forall plain pre →
  cb_falsy c = true →
  ∃ msg st',
    willUpdate (S fuel) n source callbacks st = (Throw (TypeError msg), st') ∧
    flow_queue st' =
      fold_left (enqueue (okind (obs st n))
                   (event_of (okind (obs st n)) n source (events st)))
        pre (flow_queue st) ∧
    heap st' = heap st ∧ log st' = log st.
Proof.
  intros Harr Hplain Hc.
  destruct (willUpdate_falsy_throws fuel n source callbacks st pre c post)
    as (msg & st' & H1 & H2 & H3 & H4 & _); try done.
  by exists msg, st'.
Qed.

Lemma willUpdate_null_listener_witness :
  array_get (target_of 0 None) poisoned_source = [observer] ++ Null :: [] ∧
  ∃ msg st',
    willUpdate 1 0 (VNum 1) None poisoned_source = (Throw (TypeError msg), st') ∧
    flow_queue st' = [(observer, VNum 1)].
Proof.
  split; [reflexivity|].
  destruct (willUpdate_null_listener 0 0 (VNum 1) None poisoned_source
              [observer] Null [] eq_refl) as (msg & st' & H1 & H2 & _).
  - repeat constructor.
  - reflexivity.
  - exists msg, st'. split; [exact H1|exact H2].
Defined.

(** X12. A base observable must not go [into] a source: its
    [makeListener] answers [null], [into] registers that [null] on the
    source as listener and as error listener, and the next [update] of
    the source throws a TypeError, whether a batch is open or not. *)
Theorem into_base_observable_breaks_source fuel n s v st :
  okind (obs st n) = ObservableKind →
  s < length (heap st) →
  Forall plain (listeners (obs st s)) →
  let st1 := snd (into n [s] st) in
  fst (into n [s] st) = Ret tt ∧
  listeners (obs st1 s) = listeners (obs st s) ++ [Null] ∧
  errListeners (obs st1 s) = errListeners (obs st s) ++ [Null] ∧
  ∃ msg, fst (update (S fuel) s v None st1) = Throw (TypeError msg).
Proof.
  intros Hk Hs Hplain. rewrite into_single_run. cbn [fst snd].
  assert (Hl : listeners (obs (into_state n s st) s) = listeners (obs st s) ++ [Null]).
  { rewrite into_state_listeners_exact by done. unfold edge_listener. by rewrite Hk. }
  assert (He : errListeners (obs (into_state n s st) s)
               = errListeners (obs st s) ++ [Null]).
  { rewrite into_state_errListeners_exact by done. unfold edge_errListener.
    by rewrite Hk. }
  split; [done|]. split; [done|]. split; [done|].
  set (st1 := into_state n s st) in *.
  unfold update, update_with. rewrite bind_gets.
  assert (Hslow : (length (listeners (obs st1 s)) =? 0)
                  && (length (errListeners (obs st1 s)) =? 0)
                  && is_null (parent (obs st1 s)) = false).
  { rewrite Hl, length_app. cbn [length].
    replace (length (listeners (obs st s)) + 1 =? 0) with false; [done|].
    symmetry. apply Nat.eqb_neq. lia. }
  rewrite Hslow. unfold flow_isRunning. rewrite bind_gets.
  destruct (flow_running st1) eqn:Hrun; cbn [negb].
  - destruct (willUpdate_falsy_throws fuel s v None st1
                (listeners (obs st s)) Null []) as (msg & st' & H1 & _); try done.
    exists msg. by rewrite H1.
  - unfold flow_run, flow_isRunning. rewrite bind_gets, Hrun, bind_modify.
    destruct (willUpdate_falsy_throws fuel s v None (set_running true st1)
                (listeners (obs st s)) Null []) as (msg & st' & H1 & _); try done.
    exists msg. unfold bind. by rewrite H1.
Qed.

Lemma into_base_observable_breaks_source_witness :
  okind (obs idle_node 0) = ObservableKind ∧
  listeners (obs (snd (into 0 [0] idle_node)) 0) = [Null] ∧
  ∃ msg, fst (update 1 0 (VNum 1) None (snd (into 0 [0] idle_node))) =
         Throw (TypeError msg).
Proof.
  split; [reflexivity|].
  destruct (into_base_observable_breaks_source 0 0 0 (VNum 1) idle_node eq_refl)
    as (_ & Hl & _ & Hthrow).
  - vm_compute. lia.
  - constructor.
  - split; [exact Hl|exact Hthrow].
Defined.

(** ** A batch of the listeners and the parent *)

Lemma queue_pushOnce_fresh q c event :
  c ∉ q.*1 → queue_pushOnce q c event = q ++ [(c, event)].
Proof.
  induction q as [|[c' e'] q IH]; cbn; [done|].
  intros Hc. apply not_elem_of_cons in Hc as [Hne Hc].
  case_decide; [congruence|]. by rewrite IH.
Qed.

Lemma enqueue_fresh k event q c :
  c ∉ q.*1 → enqueue k event q c = q ++ [(c, event)].
Proof.
  intros Hc. unfold enqueue.
  destruct k, (property_of c); try done; by apply queue_pushOnce_fresh.
Qed.

Lemma fold_enqueue_fresh k event l :
  ∀ q, NoDup l → (∀ c, c ∈ l → c ∉ q.*1) →
  fold_left (enqueue k event) l q = q ++ ((λ c, (c, event)) <$> l).
Proof.
  induction l as [|c l IH]; intros q Hnd Hq; cbn.
  - by rewrite app_nil_r.
  - apply NoDup_cons in Hnd as [Hc Hnd].
    rewrite enqueue_fresh by (apply Hq; apply list_elem_of_here).
    rewrite IH; [by rewrite <- app_assoc|done|].
    intros c' Hc'. rewrite fmap_app. cbn. intros Hin.
    apply elem_of_app in Hin as [Hin|Hin].
    + by apply (Hq c'); [apply list_elem_of_further|].
    + apply list_elem_of_singleton in Hin. congruence.
Qed.



(** ** A listener registered twice *)

Lemma queued_pushOnce_ne c c' q event :
  c ≠ c' → queued c (queue_pushOnce q c' event) = queued c q.
Proof.
  intros Hne. induction q as [|[c0 e0] q IH]; cbn.
  - case_decide; [congruence|done].
  - case_decide as H0; cbn; [done|]. by rewrite IH.
Qed.

Lemma queued_fold_pushOnce c event l :
  ∀ q,
  queued c (fold_left (λ q c', queue_pushOnce q c' event) l q) =
  if decide (c ∈ l) then Nat.max 1 (queued c q) else queued c q.
Proof.
  induction l as [|c' l IH]; intros q; cbn [fold_left].
  - rewrite decide_False; [done|apply not_elem_of_nil].
  - rewrite IH. destruct (decide (c = c')) as [->|Hne].
    + rewrite queued_pushOnce.
      rewrite (decide_True (P := c' ∈ c' :: l)) by apply list_elem_of_here.
      case_decide; lia.
    + rewrite queued_pushOnce_ne by done.
      destruct (decide (c ∈ l)) as [Hin|Hin].
      * rewrite decide_True; [done|by apply list_elem_of_further].
      * rewrite decide_False; [done|]. intros [?|?]%elem_of_cons; done.
Qed.

Lemma occurrences_fmap_queue c event l :
  queued c ((λ c', (c', event)) <$> l) = occurrences c l.
Proof.
  induction l as [|c' l IH]; [done|]. rewrite occurrences_cons. cbn.
  by rewrite IH.
Qed.

(** X14. A plain listener that stands several times in the [listeners]:
    one round of a stream queues it as often as it stands there, one round
    of a base observable queues it once, however often it stands there and
    only if it is not queued yet.  After [on(f); on(f)], an update of a
    stream calls [f] twice, an update of a base observable once. *)
Theorem duplicate_listeners_in_a_round fuel n source st c :
  Forall plain (listeners (obs st n)) →
  parent (obs st n) = Null →
  let q' := flow_queue (snd (willUpdate (S fuel) n source None st)) in
  (okind (obs st n) = StreamKind →
     queued c q' = queued c (flow_queue st) + occurrences c (listeners (obs st n))) ∧
  (okind (obs st n) = ObservableKind →
     queued c q' =
       if decide (c ∈ listeners (obs st n))
       then Nat.max 1 (queued c (flow_queue st))
       else queued c (flow_queue st)) ∧
  log (snd (update 3 0 (VNum 1) None (registered_twice StreamKind))) =
    [(0, VNum 1); (0, VNum 1)] ∧
  log (snd (update 3 0 (VNum 1) None (registered_twice ObservableKind))) =
    [(0, VEvent 0 (VNum 1) 0)].
Proof.
  intros Hplain Hp q'. subst q'.
  rewrite (willUpdate_plain fuel n source None st) by done.
  cbn [snd flow_queue set_queue target_of default from_option id array_get].
  rewrite Hp. cbn [parent_list cb_falsy]. rewrite app_nil_r.
  split; [|split; [|split; reflexivity]].
  - intros Hk. rewrite Hk. rewrite fold_enqueue_stream by done.
    by rewrite queued_app, occurrences_fmap_queue.
  - intros Hk. rewrite Hk. cbn [event_of].
    replace (fold_left (enqueue ObservableKind (VEvent (events st) source n))
               (listeners (obs st n)) (flow_queue st))
      with (fold_left (λ q c', queue_pushOnce q c' (VEvent (events st) source n))
              (listeners (obs st n)) (flow_queue st)) by done.
    apply queued_fold_pushOnce.
Qed.

Lemma duplicate_listeners_in_a_round_witness :
  Forall plain (listeners (obs (registered_twice ObservableKind) 0)) ∧
  listeners (obs (registered_twice ObservableKind) 0) = [observer; observer] ∧
  queued observer
    (flow_queue (snd (willUpdate 1 0 (VNum 1) None
                        (registered_twice ObservableKind)))) = 1 ∧
  queued observer
    (flow_queue (snd (willUpdate 1 0 (VNum 1) None
                        (registered_twice StreamKind)))) = 2.
Proof.
  assert (Hp : ∀ k, Forall plain (listeners (obs (registered_twice k) 0))).
  { intros k. destruct k; repeat constructor. }
  split; [apply Hp|]. split; [reflexivity|].
  destruct (duplicate_listeners_in_a_round 0 0 (VNum 1)
              (registered_twice ObservableKind) observer (Hp _) eq_refl)
    as (_ & Ho & _).
  destruct (duplicate_listeners_in_a_round 0 0 (VNum 1)
              (registered_twice StreamKind) observer (Hp _) eq_refl)
    as (Hs & _).
  split; [exact (Ho eq_refl)|exact (Hs eq_refl)].
Defined.

(** ** Pipelines *)

Lemma passes_Returns f v r : f v = Returns r → passes v f = truthy r.
Proof. unfold passes. by intros ->. Qed.

Lemma filter_chain_run fs :
  ∀ v st,
  Forall (λ f, ∃ r, f v = Returns r) fs →
  transform_loop (Filtering <$> fs) v st =
  (Ret (if forallb (passes v) fs then v else BadValue), st).
Proof.
  induction fs as [|f fs IH]; intros v st Hall; [done|].
  apply Forall_cons in Hall as [[r Hr] Hall].
  rewrite fmap_cons. cbn [transform_loop forallb].
  unfold bind. cbn [apply_transformation].
  rewrite (passes_Returns f v r Hr), Hr.
  destruct (truthy r); cbn [andb]; unfold ret; [|done].
  destruct (is_BadValue v) eqn:Hv.
  - destruct v; try discriminate Hv. by destruct (forallb _ fs).
  - by apply IH.
Qed.

Lemma forallb_Permutation {A} (p : A → bool) l l' :
  l ≡ₚ l' → forallb p l = forallb p l'.
Proof.
  induction 1 as [|x l l' _ IH|x y l|l l' l'' _ IH1 _ IH2]; cbn.
  - done.
  - by rewrite IH.
  - by destruct (p x), (p y).
  - congruence.
Qed.

(** X15. A pipeline made of [filtering] stages alone, none of which
    throws on [v], hands [v] on unchanged when every predicate holds of it
    and [BadValue] otherwise; it changes nothing, and the order in which
    the stages were added makes no difference. *)
Theorem filter_chain_is_conjunction n fs v st :
  transforms (obs st n) = Filtering <$> fs →
  Forall (λ f, ∃ r, f v = Returns r) fs →
  Observable_transform n v st =
    (Ret (if forallb (passes v) fs then v else BadValue), st) ∧
  ∀ fs', fs ≡ₚ fs' →
    transform_loop (Filtering <$> fs') v st = transform_loop (Filtering <$> fs) v st.
Proof.
  intros Ht Hall. split.
  - unfold Observable_transform. rewrite bind_gets, Ht. by apply filter_chain_run.
  - intros fs' Hperm. rewrite !filter_chain_run; try done.
    + by rewrite (forallb_Permutation _ _ _ Hperm).
    + by rewrite <- Hperm.
Qed.

Lemma filter_chain_is_conjunction_witness :
  transforms (obs (snd (filtered_stream (empty_state quiet))) 0) =
    Filtering <$> [positive] ∧
  Observable_transform 0 (VNum (-1)) (snd (filtered_stream (empty_state quiet))) =
    (Ret BadValue, snd (filtered_stream (empty_state quiet))) ∧
  Observable_transform 0 (VNum 3) (snd (filtered_stream (empty_state quiet))) =
    (Ret (VNum 3), snd (filtered_stream (empty_state quiet))).
Proof.
  split; [reflexivity|].
  assert (H : ∀ v, Forall (λ f, ∃ r, f v = Returns r) [positive]).
  { intros v. repeat constructor. destruct v; by eexists. }
  split.
  - exact (proj1 (filter_chain_is_conjunction 0 [positive] (VNum (-1))
                    (snd (filtered_stream (empty_state quiet))) eq_refl (H _))).
  - exact (proj1 (filter_chain_is_conjunction 0 [positive] (VNum 3)
                    (snd (filtered_stream (empty_state quiet))) eq_refl (H _))).
Defined.

Lemma apply_transformation_upd_obs t v n g st :
  apply_transformation t v (upd_obs n g st) =
  (fst (apply_transformation t v st), upd_obs n g (snd (apply_transformation t v st))).
Proof.
  destruct t as [f|f|c f]; cbn [apply_transformation].
  - by destruct (f v).
  - destruct (f v) as [r|]; [by destruct (truthy r)|done].
  - change (cells (upd_obs n g st)) with (cells st). by destruct (f _ v).
Qed.

Lemma transform_loop_upd_obs ts n g :
  ∀ v st,
  transform_loop ts v (upd_obs n g st) =
  (fst (transform_loop ts v st), upd_obs n g (snd (transform_loop ts v st))).
Proof.
  induction ts as [|t ts IH]; intros v st; cbn [transform_loop]; [done|].
  unfold bind. rewrite apply_transformation_upd_obs.
  destruct (apply_transformation t v st) as [[w|e|] st1]; cbn [fst snd]; try done.
  destruct (is_BadValue w); [done|apply IH].
Qed.

Lemma transform_loop_app_stop pre post :
  ∀ v st r st1,
  transform_loop pre v st = (r, st1) →
  pre ≠ [] →
  (r = Ret BadValue ∨ ∃ e, r = Throw e) →
  transform_loop (pre ++ post) v st = (r, st1).
Proof.
  induction pre as [|t pre IH]; intros v st r st1 Hrun Hne Hr; [done|].
  cbn [app transform_loop] in *. unfold bind in *.
  destruct (apply_transformation t v st) as [[w|e|] st0]; try done.
  destruct (is_BadValue w) eqn:Hw; [done|].
  destruct pre as [|t' pre].
  - cbn in Hrun. unfold ret in Hrun. injection Hrun as <- <-.
    destruct Hr as [[= ->]|[e [=]]]. done.
  - by apply IH.
Qed.



(** ** The error stream *)

(** X17. [errStream] makes the stream of the flow at its first call: a
    new stream without sources, listeners or pipeline, at the next free
    place, the observables that were there staying as they are.  Every
    later call returns that same stream and changes nothing. *)
Theorem errStream_made_once fl :
  ∃ s fl1,
    errStream fl = (Ret s, fl1) ∧
    errStream fl1 = (Ret s, fl1) ∧
    errStreamVar fl1 = Some s ∧
    (errStreamVar fl = None →
       s = length (heap (machine fl)) ∧
       obs (machine fl1) s = Observable_init StreamKind [] ∧
       length (heap (machine fl1)) = S s ∧
       (∀ m, m < s → obs (machine fl1) m = obs (machine fl) m)) ∧
    (∀ s0, errStreamVar fl = Some s0 → s = s0 ∧ fl1 = fl).
Proof.
  destruct fl as [st [s0|]].
  - exists s0. eexists. split; [reflexivity|]. split; [reflexivity|].
    split; [reflexivity|]. split; [done|]. intros s1 [= ->]. done.
  - exists (length (heap st)). eexists. split; [reflexivity|].
    split; [reflexivity|]. split; [reflexivity|]. split; [|done].
    intros _. cbn [machine]. split; [done|]. split; [by apply obs_new|].
    split; [cbn; rewrite length_app; cbn; lia|].
    intros m Hm. by apply obs_old.
Qed.

Lemma errStream_made_once_witness :
  ∃ fl1,
    errStream {| machine := empty_state quiet; errStreamVar := None |} = (Ret 0, fl1) ∧
    errStream fl1 = (Ret 0, fl1) ∧
    obs (machine fl1) 0 = Observable_init StreamKind [].
Proof.
  destruct (errStream_made_once
              {| machine := empty_state quiet; errStreamVar := None |})
    as (s & fl1 & H1 & H2 & _ & Hnew & _).
  destruct (Hnew eq_refl) as (Hs & Hobs & _). cbn in Hs. subst s.
  exists fl1. split; [exact H1|]. split; [exact H2|exact Hobs].
Defined.

(** ** Running totals on a branch *)

Lemma totals_step fuel a z st :
  4 ≤ fuel →
  totals_at a st →
  ∃ st', trigger fuel 0 (VNum z) None st = (Ret tt, st') ∧
         totals_at (a + z) st' ∧
         log st' = log st ++ [(0, VNum z); (3, VNum (a + z))].
Proof.
  intros Hfuel (Hh & Hc & Hr & Hq & Hcode).
  assert (Hobs : ∀ n, obs st n = obs (totals_branch 0) n)
    by (intros n; by apply obs_same_heap).
  assert (Hprobe : ∀ id, plain (Callback id true None) ∧
                         probe st (Callback id true None)).
  { intros id. split; [done|]. exists id, true, None. by rewrite Hcode. }
  assert (Htr : Observable_transform 1 (VNum z) st =
                (Ret (VNum (a + z)), set_cells [VNum (a + z)] st)).
  { unfold Observable_transform. rewrite bind_gets, Hobs.
    change (transforms (obs (totals_branch 0) 1)) with [Accumulation 0 plus].
    cbn [transform_loop]. unfold bind. cbn [apply_transformation].
    rewrite Hc. cbn. done. }
  destruct (trigger_over_edge fuel 0 1 (VNum z) st [observer] [])
    as (st' & Hrun & Hl & Hc' & Hh' & Hcd' & Hq' & Hr');
    rewrite ?Hobs; try done.
  { repeat constructor; apply Hprobe. }
  { repeat constructor; apply Hprobe. }
  exists st'. split; [done|]. split.
  - rewrite Htr in Hc'. cbn in Hc'. repeat split; congruence.
  - rewrite Hl, Htr. cbn [fst emitted is_BadValue]. rewrite Hobs. done.
Qed.

Lemma totals_run fuel zs :
  4 ≤ fuel →
  ∀ a st,
  totals_at a st →
  ∃ st', trigger_all fuel 0 (VNum <$> zs) st = (Ret tt, st') ∧
         totals_at (fold_left Z.add zs a) st' ∧
         log st' = log st ++ totals_log a zs.
Proof.
  intros Hfuel. induction zs as [|z zs IH]; intros a st Hst; cbn [fold_left totals_log].
  - exists st. by rewrite app_nil_r.
  - destruct (totals_step fuel a z st Hfuel Hst) as (st1 & Hrun & Hst1 & Hlog).
    destruct (IH (a + z)%Z st1 Hst1) as (st2 & Hrun2 & Hst2 & Hlog2).
    exists st2. unfold trigger_all in *. rewrite fmap_cons. cbn [for_each].
    erewrite bind_Ret by exact Hrun. split; [done|]. split; [done|].
    rewrite Hlog2, Hlog. by rewrite <- app_assoc.
Qed.

Lemma totals_branch_at seed : totals_at seed (totals_branch seed).
Proof.
  unfold totals_at.
  split; [vm_compute; reflexivity|]. split; [vm_compute; reflexivity|].
  split; [vm_compute; reflexivity|]. split; vm_compute; reflexivity.
Qed.



(** ** [BadValue] as input *)

(** X19. [BadValue] is looked for after a stage has run, not before.  On a
    stream without pipeline, and whenever transformations are switched
    off, a triggered [BadValue] is dropped: nothing is updated.  With a
    pipeline it is given to the first stage like any value, and when that
    stage makes something else of it the rest of the pipeline goes on
    with that. *)
Theorem bad_value_as_input fuel n u st :
  (transforms (obs st n) = [] →
     trigger fuel n BadValue u st = (Ret tt, st)) ∧
  (trigger fuel n BadValue (Some false) st = (Ret tt, st)) ∧
  (∀ f ts w,
     transforms (obs st n) = Fn f :: ts →
     f BadValue = Returns w →
     is_BadValue w = false →
     Observable_transform n BadValue st = transform_loop ts w st).
Proof.
  split; [|split].
  - intros Ht. unfold trigger, trigger_with, go_with.
    destruct (default true u); [|done].
    unfold try_catch, Observable_transform, bind, gets. by rewrite Ht.
  - done.
  - intros f ts w Ht Hf Hw.
    unfold Observable_transform. rewrite bind_gets, Ht.
    cbn [transform_loop]. unfold bind at 1. cbn [apply_transformation].
    rewrite Hf. unfold ret at 1. by rewrite Hw.
Qed.

Lemma bad_value_as_input_witness :
  transforms (obs two_streams 0) = [] ∧
  trigger 2 0 BadValue None two_streams = (Ret tt, two_streams).
Proof.
  split; [reflexivity|].
  exact (proj1 (bad_value_as_input 2 0 None two_streams) eq_refl).
Defined.

End ReactiveFacts.

Module ObjectCoreFacts.

Import ObjectCore.
Open Scope string_scope.

(** ** Objects as lists of entries *)

Lemma get_put_eq {A} k (v : A) o : get k (put k v o) = Some v.
Proof.
  induction o as [|[k' v'] o IH]; simpl.
  - by case_decide.
  - case_decide as Hk; simpl; case_decide; done.
Qed.

Lemma get_put_ne {A} k k' (v : A) o : k ≠ k' → get k' (put k v o) = get k' o.
Proof.
  intros Hne. induction o as [|[k0 v0] o IH]; simpl.
  - case_decide; [congruence|done].
  - case_decide as Hk; simpl.
    + subst k0. repeat case_decide; congruence.
    + case_decide; [done|apply IH].
Qed.

Lemma get_put_is_Some {A} k k' (v : A) o :
  is_Some (get k' o) → is_Some (get k' (put k v o)).
Proof.
  intros H. destruct (decide (k = k')) as [->|Hne].
  - rewrite get_put_eq. by eexists.
  - by rewrite get_put_ne.
Qed.

Lemma get_elem_of {A} k (v : A) o : (k, v) ∈ o → is_Some (get k o).
Proof.
  induction o as [|[k' v'] o IH]; [by intros ?%elem_of_nil|].
  intros Hin. simpl. case_decide; [by eexists|].
  apply elem_of_cons in Hin as [[= -> ->]|Hin]; [done|auto].
Qed.

(** ** [makeProp] and [setup] *)

Lemma classify_with_precedence isF isA isO v :
  classify_with isF isA isO v = Some (classify_by_precedence isF isA isO v).
Proof.
  unfold classify_with, classify_by_precedence.
  destruct (is_nullish v); [done|].
  by destruct (isF v), (isA v), (isO v).
Qed.

(** [makeProp] on a field that is neither tagged [noprop] nor reserved. *)
Lemma makeProp_own conf property meta st v :
  noprop meta = false →
  reserved conf property = false →
  get property (fields st) = Some v →
  let p := {| ptype := classify_by_precedence isFunction isArrayObject isObject v;
              pname := property; change_listeners := [] |} in
  makeProp conf property None meta st =
  (Ret (Some p),
   (if meta_truthy meta && registry conf
    then set_registry_calls (registry_calls st ++ [(Some p, meta_tags meta)])
    else id)
     (set_properties (put property p (properties st)) st)).
Proof.
  intros Hn Hr Hv p. unfold makeProp. rewrite Hn, Hr.
  rewrite bind_gets, Hv. unfold classify.
  rewrite classify_with_precedence. fold p.
  unfold new_Property. unfold bind, modify, ret. simpl.
  by destruct (meta_truthy meta && registry conf).
Qed.

(** What [makeProp] from [setup] does on a field that is not fatal. *)
Lemma makeProp_harmless conf property meta st :
  reserved conf property = false ∨ noprop meta = true →
  ∃ r st', makeProp conf property None meta st = (Ret r, st') ∧
    fields st' = fields st ∧ pro st' = pro st ∧ ObjectCore.meta st' = ObjectCore.meta st ∧
    (∀ k, is_Some (get k (properties st)) → is_Some (get k (properties st'))) ∧
    (noprop meta = false → is_Some (get property (fields st)) →
       is_Some (get property (properties st'))).
Proof.
  intros H. destruct (noprop meta) eqn:Hn.
  { exists None, st. unfold makeProp. rewrite Hn. by repeat split. }
  destruct H as [Hr|]; [|done].
  destruct (get property (fields st)) as [v|] eqn:Hv.
  - eexists _, _. split; [by apply makeProp_own|].
    destruct (meta_truthy meta && registry conf); simpl;
      (repeat split; [intros k; apply get_put_is_Some|
                      intros _ _; rewrite get_put_eq; by eexists]).
  - exists None. unfold makeProp. rewrite Hn, Hr. rewrite bind_gets, Hv.
    unfold bind, ret, modify. simpl.
    destruct (meta_truthy meta && registry conf); simpl;
      eexists; (split; [done|]); repeat split; try done;
      intros _ [? ?]; done.
Qed.

Lemma setup_loop_harmless conf ks :
  ∀ st,
  Forall (λ k, reserved conf k = false ∨ noprop (get k (meta st)) = true) ks →
  ∃ st', for_each ks (setup_body conf) st = (Ret tt, st') ∧
    fields st' = fields st ∧ pro st' = pro st ∧ meta st' = meta st ∧
    (∀ k, is_Some (get k (properties st)) → is_Some (get k (properties st'))) ∧
    (∀ k, k ∈ ks → noprop (get k (meta st)) = false →
       is_Some (get k (fields st)) → is_Some (get k (properties st'))).
Proof.
  induction ks as [|k ks IH]; intros st Hall.
  - exists st. repeat split; try done. by intros k ?%elem_of_nil.
  - apply Forall_cons in Hall as [Hk Hall].
    destruct (makeProp_harmless conf k (get k (meta st)) st Hk)
      as (r & st1 & Hrun & Hf & Hp & Hm & Hkeep & Hnew).
    destruct (IH st1) as (st2 & Hrun2 & Hf2 & Hp2 & Hm2 & Hkeep2 & Hnew2).
    { by rewrite Hm. }
    exists st2. split.
    { cbn [for_each]. unfold setup_body at 1.
      erewrite bind_Ret; [exact Hrun2|].
      rewrite bind_gets. by erewrite bind_Ret by exact Hrun. }
    split; [congruence|]. split; [congruence|]. split; [congruence|].
    split; [auto|].
    intros k' Hin Hn Hsome. apply elem_of_cons in Hin as [->|Hin].
    + auto.
    + apply Hnew2; [done|by rewrite Hm|by rewrite Hf].
Qed.

(** [ProAct.prob] on an object: the hidden reference first, then the loop
    of [setup] over the fields. *)
Lemma prob_object conf fs meta :
  prob conf (VObject fs) meta =
  (match fst (for_each (fst <$> fs) (setup_body conf)
                (set_pro true (new_ObjectCore fs meta))) with
   | Ret _ => Ret TheObject
   | Throw e => Throw e
   | OutOfFuel => OutOfFuel
   end,
   Some (snd (for_each (fst <$> fs) (setup_body conf)
                (set_pro true (new_ObjectCore fs meta))))).
Proof.
  unfold prob. cbn [is_null isObject isArray typeof negb orb andb].
  unfold defValProp_pro, Core_prob, setup. rewrite bind_modify.
  unfold bind at 1. rewrite bind_gets.
  change (fields (set_pro true (new_ObjectCore fs meta))) with fs.
  fold (setup_body conf).
  by destruct (for_each _ _ _) as [[[]|e|] st].
Qed.

(** ** Classification of the fields *)



(** ** Reserved names *)




(** ** More on objects as lists of entries *)

Lemma get_None_not_in {A} k (o : list (string * A)) :
  get k o = None ↔ k ∉ o.*1.
Proof.
  induction o as [|[k' v'] o IH]; simpl.
  - split; [intros _; apply not_elem_of_nil|done].
  - case_decide as Hk.
    + subst k'. split; [done|]. intros H. exfalso. apply H. apply list_elem_of_here.
    + rewrite IH. rewrite not_elem_of_cons. intuition congruence.
Qed.

Lemma put_fresh {A} k (v : A) o : get k o = None → put k v o = (o ++ [(k, v)])%list.
Proof.
  induction o as [|[k' v'] o IH]; simpl; [done|].
  case_decide; [done|]. intros Hn. by rewrite IH.
Qed.

Lemma get_app {A} k (o1 o2 : list (string * A)) :
  get k (o1 ++ o2)%list = match get k o1 with Some v => Some v | None => get k o2 end.
Proof.
  induction o1 as [|[k' v'] o1 IH]; simpl; [done|]. by case_decide.
Qed.

Lemma get_put {A} k k' (v : A) o :
  get k' (put k v o) = if decide (k = k') then Some v else get k' o.
Proof.
  case_decide as H; [subst; apply get_put_eq|by apply get_put_ne].
Qed.

Lemma get_NoDup {A} k (v : A) o : NoDup o.*1 → (k, v) ∈ o → get k o = Some v.
Proof.
  induction o as [|[k' v'] o IH]; [by intros _ ?%elem_of_nil|].
  rewrite fmap_cons. cbn [fst]. intros [Hk Hnd]%NoDup_cons Hin. simpl.
  apply elem_of_cons in Hin as [[= -> ->]|Hin].
  - by case_decide.
  - case_decide as Heq; [|auto]. subst k'. exfalso. apply Hk.
    apply list_elem_of_fmap. by exists (k, v).
Qed.

(** ** One field of [setup] *)

Lemma setup_body_run conf k st :
  reserved conf k = false ∨ noprop (get k (meta st)) = true →
  setup_body conf k st =
  (Ret tt,
   if noprop (get k (meta st)) then st
   else
     match get k (fields st) with
     | Some v =>
         (if meta_truthy (get k (meta st)) && registry conf
          then set_registry_calls
                 (registry_calls st ++
                    [(Some (property_for k v), meta_tags (get k (meta st)))])%list
          else id)
           (set_properties (put k (property_for k v) (properties st)) st)
     | None =>
         (if meta_truthy (get k (meta st)) && registry conf
          then set_registry_calls
                 (registry_calls st ++ [(None, meta_tags (get k (meta st)))])%list
          else id) st
     end).
Proof.
  intros H. unfold setup_body. rewrite bind_gets.
  destruct (noprop (get k (meta st))) eqn:Hn.
  { unfold makeProp. by rewrite Hn. }
  destruct H as [Hr|]; [|done].
  destruct (get k (fields st)) as [v|] eqn:Hv.
  - erewrite bind_Ret by (by apply makeProp_own). done.
  - unfold makeProp. rewrite Hn, Hr.
    unfold bind, gets, ret, modify. cbn. rewrite Hv.
    by destruct (meta_truthy (get k (meta st)) && registry conf).
Qed.

Lemma setup_loop_run conf meta0 kvs :
  ∀ st,
  meta st = meta0 →
  NoDup kvs.*1 →
  Forall (λ kv, get kv.1 (fields st) = Some kv.2) kvs →
  Forall (λ kv, get kv.1 (properties st) = None) kvs →
  Forall (λ kv, reserved conf kv.1 = false ∨ noprop (get kv.1 meta0) = true) kvs →
  for_each kvs.*1 (setup_body conf) st =
  (Ret tt,
   set_registry_calls
     (registry_calls st ++
        if registry conf
        then (λ kv, (Some (property_for kv.1 kv.2), meta_tags (get kv.1 meta0)))
               <$> List.filter (tagged meta0) kvs
        else [])%list
     (set_properties
        (properties st ++
           ((λ kv, (kv.1, property_for kv.1 kv.2))
              <$> List.filter (materialized meta0) kvs))%list st)).
Proof.
  induction kvs as [|[k v] kvs IH]; intros st Hm Hnd Hf Hp Hok.
  - simpl. unfold ret. f_equal. destruct st; unfold set_registry_calls, set_properties;
      simpl. rewrite !app_nil_r. by destruct (registry conf); rewrite ?app_nil_r.
  - rewrite fmap_cons in Hnd |- *. cbn [fst] in *.
    apply NoDup_cons in Hnd as [Hk Hnd].
    apply Forall_cons in Hf as [Hfk Hf]. apply Forall_cons in Hp as [Hpk Hp].
    apply Forall_cons in Hok as [Hokk Hok]. cbn [fst snd] in *.
    cbn [for_each]. erewrite bind_Ret; cycle 1.
    { apply setup_body_run. by rewrite Hm. }
    rewrite Hm, Hfk.
    assert (Htag : tagged meta0 (k, v) =
                   negb (noprop (get k meta0)) && meta_truthy (get k meta0)) by done.
    assert (Hmat : materialized meta0 (k, v) = negb (noprop (get k meta0))) by done.
    cbn [List.filter]. rewrite Htag, Hmat.
    destruct (noprop (get k meta0)) eqn:Hn; cbn [negb andb].
    + by apply IH.
    + set (st1 := set_properties (put k (property_for k v) (properties st)) st).
      assert (Hrest : Forall (λ kv, get kv.1 (put k (property_for k v) (properties st))
                                    = None) kvs).
      { apply Forall_forall. intros [k' v'] Hin. cbn [fst].
        rewrite get_put_ne.
        - rewrite Forall_forall in Hp. apply (Hp (k', v') Hin).
        - intros ->. apply Hk. apply list_elem_of_fmap. by exists (k', v'). }
      destruct (meta_truthy (get k meta0)) eqn:Ht, (registry conf) eqn:Hreg;
        cbn [andb id]; rewrite IH; try done;
        unfold set_registry_calls, set_properties, st1; cbn;
        rewrite ?Hreg, ?put_fresh by done; rewrite <- ?app_assoc; try done.
Qed.

Lemma prob_run conf fs meta :
  NoDup fs.*1 →
  Forall (λ kv, reserved conf kv.1 = false ∨ noprop (get kv.1 meta) = true) fs →
  prob conf (VObject fs) meta =
  (Ret TheObject,
   Some {| fields := fs; pro := true; ObjectCore.meta := meta;
           properties := (λ kv, (kv.1, property_for kv.1 kv.2))
                           <$> List.filter (materialized meta) fs;
           registry_calls :=
             if registry conf
             then (λ kv, (Some (property_for kv.1 kv.2), meta_tags (get kv.1 meta)))
                    <$> List.filter (tagged meta) fs
             else [] |}).
Proof.
  intros Hnd Hok. rewrite prob_object.
  rewrite (setup_loop_run conf meta fs); [done|done|done| | |done].
  - apply Forall_forall. intros [k v] Hin. cbn. by apply get_NoDup.
  - apply Forall_forall. by intros [k v] Hin.
Qed.




(** ** What the core never holds *)

Lemma setup_body_outcome conf k st :
  (setup_body conf k st = (Ret tt, st) ∧ noprop (get k (meta st)) = true) ∨
  (setup_body conf k st = (Throw (keyword_error k), st) ∧
   noprop (get k (meta st)) = false ∧ reserved conf k = true) ∨
  (noprop (get k (meta st)) = false ∧ reserved conf k = false ∧
   ∃ st', setup_body conf k st = (Ret tt, st') ∧
     fields st' = fields st ∧ meta st' = meta st ∧ pro st' = pro st ∧
     properties st' =
       match get k (fields st) with
       | Some v => put k (property_for k v) (properties st)
       | None => properties st
       end).
Proof.
  destruct (noprop (get k (meta st))) eqn:Hn.
  { left. split; [|done]. rewrite setup_body_run by auto. by rewrite Hn. }
  destruct (reserved conf k) eqn:Hr.
  { right. left. split; [|done]. unfold setup_body. rewrite bind_gets.
    unfold makeProp. by rewrite Hn, Hr. }
  right. right. split; [done|]. split; [done|].
  rewrite setup_body_run by auto. rewrite Hn. eexists. split; [reflexivity|].
  destruct (get k (fields st)); destruct (meta_truthy _ && registry conf); done.
Qed.

Lemma setup_loop_sound conf fs meta0 ks :
  ∀ st,
  sound conf fs meta0 st →
  sound conf fs meta0 (snd (for_each ks (setup_body conf) st)) ∧
  (fst (for_each ks (setup_body conf) st) = Ret tt ∨
   ∃ k, k ∈ ks ∧ reserved conf k = true ∧ noprop (get k meta0) = false ∧
        fst (for_each ks (setup_body conf) st) = Throw (keyword_error k)).
Proof.
  induction ks as [|k ks IH]; intros st Hst; [by split; [|left]|].
  cbn [for_each]. unfold bind.
  destruct Hst as (Hf & Hm & Hp).
  destruct (setup_body_outcome conf k st)
    as [[-> Hn]|[[-> (Hn & Hr)]|(Hn & Hr & st' & -> & Hf' & Hm' & _ & Hp')]].
  - destruct (IH st) as [H1 H2]; [done|]. split; [done|].
    destruct H2 as [H2|(k' & Hin & H2)]; [by left|right].
    exists k'. split; [by apply list_elem_of_further|done].
  - cbn [fst snd]. split; [done|]. right. exists k.
    split; [apply list_elem_of_here|]. by rewrite <- Hm.
  - assert (Hst' : sound conf fs meta0 st').
    { split; [congruence|]. split; [congruence|]. intros k' p. rewrite Hp', Hf.
      destruct (get k fs) as [v|] eqn:Hv; [|apply Hp].
      rewrite get_put. case_decide as Hk; [|apply Hp].
      subst k'. intros [= <-]. rewrite <- Hm. split; [done|]. split; [done|].
      by exists v. }
    destruct (IH st' Hst') as [H1 H2]. split; [done|].
    destruct H2 as [H2|(k' & Hin & H2)]; [by left|right].
    exists k'. split; [by apply list_elem_of_further|done].
Qed.



(** ** [set] and [value] *)





(** ** The [noprop] tag *)

Lemma prefix_append s b : String.prefix s (String.append s b) = true.
Proof.
  induction s as [|a s IH]; simpl; [by destruct b|].
  destruct (Ascii.ascii_dec a a); [exact IH|done].
Qed.

Lemma index_append_found s a b :
  ∃ i, String.index 0 s (String.append a (String.append s b)) = Some i.
Proof.
  induction a as [|c a [i IH]].
  - change (String.append "" (String.append s b)) with (String.append s b).
    destruct (String.append s b) as [|c r] eqn:Hsb.
    + destruct s; [by exists 0|discriminate Hsb].
    + exists 0. change (String.index 0 s (String c r))
        with (if String.prefix s (String c r) then Some 0
              else match String.index 0 s r with
                   | Some n => Some (S n)
                   | None => None
                   end).
      by rewrite <- Hsb, prefix_append.
  - change (String.index 0 s (String.append (String c a) (String.append s b)))
      with (if String.prefix s (String c (String.append a (String.append s b)))
            then Some 0
            else match String.index 0 s (String.append a (String.append s b)) with
                 | Some n => Some (S n)
                 | None => None
                 end).
    destruct (String.prefix s _); [by exists 0|]. rewrite IH. by eexists.
Qed.

(** X24. A string tag suppresses the property as soon as it contains
    [noprop] somewhere: ['noprop'] itself, and also a longer word around
    it.  In an array of tags only an entry that is exactly ['noprop']
    does.  A field tagged so is passed over by [makeProp] before the name
    is looked at: nothing is made and nothing is thrown, even for a
    reserved name. *)
Theorem noprop_tag_is_a_substring_test conf k st a b :
  noprop (Some (MStr (String.append a (String.append "noprop" b)))) = true ∧
  (∀ l, noprop (Some (MList l)) = true ↔ "noprop" ∈ l) ∧
  (∀ meta, noprop meta = true → makeProp conf k None meta st = (Ret None, st)).
Proof.
  split; [|split].
  - cbn [noprop]. destruct (index_append_found "noprop" a b) as [i ->].
    rewrite orb_true_r, andb_true_r.
    destruct a; [done|done].
  - intros l. cbn [noprop]. apply bool_decide_eq_true.
  - intros meta Hn. unfold makeProp. by rewrite Hn.
Qed.

Lemma noprop_tag_is_a_substring_test_witness :
  noprop (Some (MStr "nopropagation")) = true ∧
  noprop (Some (MList ["nopropagation"])) = false ∧
  makeProp keyword_conf "p" None (Some (MStr "nopropagation"))
    (new_ObjectCore [("p", VNum 1)] []) =
    (Ret None, new_ObjectCore [("p", VNum 1)] []).
Proof.
  destruct (noprop_tag_is_a_substring_test keyword_conf "p"
              (new_ObjectCore [("p", VNum 1)] []) "" "agation")
    as (H1 & H2 & H3).
  split; [exact H1|]. split.
  - destruct (noprop (Some (MList ["nopropagation"]))) eqn:Hn; [|reflexivity].
    apply H2 in Hn. apply list_elem_of_singleton in Hn. discriminate Hn.
  - apply H3. exact H1.
Defined.

End ObjectCoreFacts.
